(** * monarch.py: response mapping, 401 retry and CSV reports

    A shallow embedding of [monarch.py].  Python strings are [string],
    Python [int]s are [Z], dictionaries keyed by strings are [gmap string _],
    and dictionaries produced by marshmallow are records whose optional keys
    are [option] fields.  Code that talks to the aggregation service or to the
    file system runs in a state-and-exception monad over an explicit [world].

    The file first gives the definitions, in the order of the Python module
    (library functions the module calls, schemas, row classes, the [Monarch]
    class), and then the properties.  [main] and its argument parser are
    not part of the embedding. *)

From stdpp Require Import gmap strings list fin_maps pretty.
From Stdlib Require Import ZArith Ascii Lia.

Local Open Scope Z_scope.

(* ===================================================================== *)
(** * Python values used by the module *)
(* ===================================================================== *)

(** ** Exceptions and results *)

(** The exception classes that the module distinguishes.
    [TransportServerError] is [gql.transport.exceptions.TransportServerError],
    which carries the HTTP status in its [code] attribute.  [OtherError]
    stands for every other exception class; it may or may not have a [code]
    attribute of its own. *)
Inductive exn : Type :=
| TransportServerError (code : option Z) (message : string)
| KeyError (key : string)
| ValidationError (field : string)
| OtherError (class_name : string) (code : option Z).

Inductive result (A : Type) : Type :=
| Ok (a : A)
| Raise (e : exn).
Arguments Ok {A} a.
Arguments Raise {A} e.

Global Instance exn_eq_dec : EqDecision exn.
Proof. solve_decision. Defined.

Definition is_ok {A} (r : result A) : bool :=
  match r with Ok _ => true | Raise _ => false end.

(** [d[key]] on a dictionary: [KeyError] when the key is absent. *)
Definition getitem {A} (key : string) (o : option A) : result A :=
  match o with
  | Some a => Ok a
  | None => Raise (KeyError key)
  end.

Global Instance result_ret : MRet result := λ A a, Ok a.
Global Instance result_bind : MBind result := λ A B f r,
  match r with
  | Ok a => f a
  | Raise e => Raise e
  end.

Global Instance result_fmap : FMap result := λ A B f r,
  match r with
  | Ok a => Ok (f a)
  | Raise e => Raise e
  end.

(** A list comprehension [[f x for x in l]] whose body may raise: the first
    exception aborts the comprehension and no list is produced. *)
Fixpoint comprehension {A B} (f : A → result B) (l : list A) : result (list B) :=
  match l with
  | [] => Ok []
  | x :: l' =>
      y ← f x;
      ys ← comprehension f l';
      Ok (y :: ys)
  end.

(** ** [str] of an [int] *)

Definition str_int (z : Z) : string := pretty z.

(** ** Characters *)

Definition is_digit (c : ascii) : bool :=
  match Ascii.is_nat c with Some _ => true | None => false end.

Definition digit_value (c : ascii) : Z :=
  match Ascii.is_nat c with Some n => Z.of_nat n | None => 0 end.

(** Whitespace removed by [str.strip]. *)
Definition is_space (c : ascii) : bool :=
  let n := nat_of_ascii c in
  ((9 <=? n) && (n <=? 13) || (28 <=? n) && (n <=? 32))%nat.

Fixpoint lstrip (s : list ascii) : list ascii :=
  match s with
  | c :: s' => if is_space c then lstrip s' else s
  | [] => []
  end.

Definition strip (s : list ascii) : list ascii :=
  reverse (lstrip (reverse (lstrip s))).

Fixpoint span_digits (s : list ascii) : list ascii * list ascii :=
  match s with
  | c :: s' =>
      if is_digit c then let '(ds, rest) := span_digits s' in (c :: ds, rest)
      else ([], s)
  | [] => ([], [])
  end.

(** [int(s)] for a string of decimal digits. *)
Definition int_of_digits (ds : list ascii) : Z :=
  fold_left (fun acc c => 10 * acc + digit_value c) ds 0.

Fixpoint drop_zeros (ds : list ascii) : list ascii :=
  match ds with
  | c :: ds' => if Ascii.eqb c "0" then drop_zeros ds' else ds
  | [] => []
  end.

(** [str(int(s))] for a string of decimal digits: the digits without their
    leading zeros, and ["0"] when nothing is left. *)
Definition str_int_digits (ds : list ascii) : list ascii :=
  match drop_zeros ds with
  | [] => ["0"%char]
  | ds' => ds'
  end.

(** [s.rjust(n, "0")], as the [%02d]-style formats produce. *)
Definition zfill (n : nat) (s : string) : string :=
  String.string_of_list_ascii
    (replicate (n - String.length s) "0"%char ++ String.list_ascii_of_string s).

(** ** [decimal.Decimal] *)

(** A finite [Decimal] is a sign, a coefficient kept as a string of digits
    (Python's [_int]) and an exponent. *)
Record Decimal : Type := {
  d_sign : bool;
  d_int : list ascii;
  d_exp : Z
}.

Global Instance Decimal_eq_dec : EqDecision Decimal.
Proof. solve_decision. Defined.

(** The exponent part of a numeric string: empty, or [E] followed by an
    optionally signed, non-empty run of digits that ends the string. *)
Definition parse_exponent (s : list ascii) : option Z :=
  match s with
  | [] => Some 0
  | c :: s1 =>
      if Ascii.eqb c "E" || Ascii.eqb c "e" then
        let '(neg, s2) :=
          match s1 with
          | c' :: t =>
              if Ascii.eqb c' "-" then (true, t)
              else if Ascii.eqb c' "+" then (false, t)
              else (false, s1)
          | [] => (false, s1)
          end in
        match span_digits s2 with
        | (d :: ds, []) =>
            let e := int_of_digits (d :: ds) in
            Some (if neg then - e else e)
        | _ => None
        end
      else None
  end.

(** [decimal.Decimal(s)] for a string, as the [Decimal] field calls it:
    surrounding white space and underscores are dropped, then come an
    optional sign, digits with an optional point, and an optional exponent.
    Only finite numbers are accepted: the field rejects NaN and the
    infinities ([allow_nan] is off), so they are invalid here as well. *)
Definition Decimal_of_chars (s0 : list ascii) : option Decimal :=
  let s := filter (fun c => c ≠ "_"%char) (strip s0) in
  let '(neg, s1) :=
    match s with
    | c :: t =>
        if Ascii.eqb c "-" then (true, t)
        else if Ascii.eqb c "+" then (false, t)
        else (false, s)
    | [] => (false, s)
    end in
  let '(intpart, s2) := span_digits s1 in
  let '(fracpart, s3) :=
    match s2 with
    | c :: t => if Ascii.eqb c "." then span_digits t else ([], s2)
    | [] => ([], s2)
    end in
  match intpart ++ fracpart with
  | [] => None
  | digits =>
      match parse_exponent s3 with
      | Some e =>
          Some {| d_sign := neg;
                  d_int := str_int_digits digits;
                  d_exp := e - Z.of_nat (length fracpart) |}
      | None => None
      end
  end.

Definition Decimal_of_str (s : string) : option Decimal :=
  Decimal_of_chars (String.list_ascii_of_string s).

(** Number of digits left of the decimal point. *)
Definition leftdigits (d : Decimal) : Z :=
  d_exp d + Z.of_nat (length (d_int d)).

(** [Decimal.__str__]: plain notation when the exponent is not positive and
    the number has more than -6 left digits, scientific notation otherwise. *)
Definition Decimal_chars (d : Decimal) : list ascii :=
  let sign := if d_sign d then ["-"%char] else [] in
  let dotplace :=
    if (d_exp d <=? 0) && (-6 <? leftdigits d) then leftdigits d else 1 in
  let '(intpart, fracpart) :=
    if dotplace <=? 0 then
      (["0"%char],
       "."%char :: replicate (Z.to_nat (- dotplace)) "0"%char ++ d_int d)
    else if Z.of_nat (length (d_int d)) <=? dotplace then
      (d_int d
         ++ replicate (Z.to_nat (dotplace - Z.of_nat (length (d_int d)))) "0"%char,
       [])
    else
      (take (Z.to_nat dotplace) (d_int d),
       "."%char :: drop (Z.to_nat dotplace) (d_int d)) in
  let exp :=
    if leftdigits d =? dotplace then []
    else
      let e := leftdigits d - dotplace in
      "E"%char :: (if 0 <=? e then ["+"%char] else [])
        ++ String.list_ascii_of_string (str_int e) in
  sign ++ intpart ++ fracpart ++ exp.

Definition Decimal_str (d : Decimal) : string :=
  String.string_of_list_ascii (Decimal_chars d).

(** ** [datetime.date] and [datetime.datetime] *)

Record date : Type := {
  year : Z;
  month : Z;
  day : Z
}.

Global Instance date_eq_dec : EqDecision date.
Proof. solve_decision. Defined.

Definition _is_leap (y : Z) : bool :=
  (y mod 4 =? 0) && (negb (y mod 100 =? 0) || (y mod 400 =? 0)).

Definition _days_before_year (y : Z) : Z :=
  let y := y - 1 in
  y * 365 + y / 4 - y / 100 + y / 400.

Definition _DAYS_IN_MONTH (m : Z) : Z :=
  match m with
  | 1 => 31 | 2 => 28 | 3 => 31 | 4 => 30 | 5 => 31 | 6 => 30
  | 7 => 31 | 8 => 31 | 9 => 30 | 10 => 31 | 11 => 30 | 12 => 31
  | _ => -1
  end.

Definition _DAYS_BEFORE_MONTH (m : Z) : Z :=
  match m with
  | 1 => 0 | 2 => 31 | 3 => 59 | 4 => 90 | 5 => 120 | 6 => 151
  | 7 => 181 | 8 => 212 | 9 => 243 | 10 => 273 | 11 => 304 | 12 => 334
  | _ => -1
  end.

Definition _days_before_month (y m : Z) : Z :=
  _DAYS_BEFORE_MONTH m + (if (2 <? m) && _is_leap y then 1 else 0).

(** [date.toordinal]: day 1 is 0001-01-01. *)
Definition _ymd2ord (d : date) : Z :=
  _days_before_year (year d) + _days_before_month (year d) (month d) + day d.

Definition _DI400Y : Z := 146097.
Definition _DI100Y : Z := 36524.
Definition _DI4Y : Z := 1461.

(** [date.fromordinal]. *)
Definition _ord2ymd (n : Z) : date :=
  let n := n - 1 in
  let n400 := n / _DI400Y in
  let n := n mod _DI400Y in
  let n100 := n / _DI100Y in
  let n := n mod _DI100Y in
  let n4 := n / _DI4Y in
  let n := n mod _DI4Y in
  let n1 := n / 365 in
  let n := n mod 365 in
  let y := n400 * 400 + 1 + n100 * 100 + n4 * 4 + n1 in
  if (n1 =? 4) || (n100 =? 4) then
    {| year := y - 1; month := 12; day := 31 |}
  else
    let leapyear := (n1 =? 3) && (negb (n4 =? 24) || (n100 =? 3)) in
    let m := Z.shiftr (n + 50) 5 in
    let preceding :=
      _DAYS_BEFORE_MONTH m + (if (2 <? m) && leapyear then 1 else 0) in
    if n <? preceding then
      let m' := m - 1 in
      let preceding' :=
        preceding
        - (_DAYS_IN_MONTH m' + (if (m' =? 2) && leapyear then 1 else 0)) in
      {| year := y; month := m'; day := n - preceding' + 1 |}
    else
      {| year := y; month := m; day := n - preceding + 1 |}.

(** [date - timedelta(days=n)]. *)
Definition date_minus_days (d : date) (n : Z) : date :=
  _ord2ymd (_ymd2ord d - n).

(** [date.isoformat]: [YYYY-MM-DD]. *)
Definition date_isoformat (d : date) : string :=
  zfill 4 (str_int (year d)) +:+ "-" +:+ zfill 2 (str_int (month d))
    +:+ "-" +:+ zfill 2 (str_int (day d)).

(** A [datetime]: the wall-clock fields and, for an aware value, the offset
    of its [tzinfo] from UTC in seconds ([None] for a naive value). *)
Record datetime : Type := {
  dt_date : date;
  hour : Z;
  minute : Z;
  second : Z;
  microsecond : Z;
  utcoffset : option Z
}.

Definition seconds_of_day (dt : datetime) : Z :=
  hour dt * 3600 + minute dt * 60 + second dt.

(** Seconds from the start of ordinal day 0 to the wall-clock reading. *)
Definition wall_seconds (dt : datetime) : Z :=
  _ymd2ord (dt_date dt) * 86400 + seconds_of_day dt.

Definition format_offset (off : Z) : string :=
  let a := Z.abs off in
  (if off <? 0 then "-" else "+")
    +:+ zfill 2 (str_int (a / 3600)) +:+ ":"
    +:+ zfill 2 (str_int (a mod 3600 / 60))
    +:+ (if a mod 60 =? 0 then "" else ":" +:+ zfill 2 (str_int (a mod 60))).

(** [datetime.isoformat]. *)
Definition datetime_isoformat (dt : datetime) : string :=
  date_isoformat (dt_date dt) +:+ "T"
    +:+ zfill 2 (str_int (hour dt)) +:+ ":"
    +:+ zfill 2 (str_int (minute dt)) +:+ ":"
    +:+ zfill 2 (str_int (second dt))
    +:+ (if microsecond dt =? 0 then ""
         else "." +:+ zfill 6 (str_int (microsecond dt)))
    +:+ match utcoffset dt with
        | Some off => format_offset off
        | None => ""
        end.

(** A time zone as [zoneinfo] sees it: the offset from UTC, in seconds, in
    force at a UTC instant (counted in seconds like [wall_seconds]).  The
    rules of a zone come from the system's time zone database.  [tz_local]
    is the zone of the machine, which Python assumes for naive values; it
    gives the offset in force at a reading of the local clock. *)
Record zones : Type := {
  America_New_York : Z → Z;
  tz_local : Z → Z
}.

(** The UTC instant of a [datetime]. *)
Definition utc_seconds (tz : zones) (dt : datetime) : Z :=
  match utcoffset dt with
  | Some off => wall_seconds dt - off
  | None =>
      (* the naive reading is taken as local time of the machine *)
      wall_seconds dt - tz_local tz (wall_seconds dt)
  end.

(** [dt.astimezone(zone)]: the same instant read on the clock of [zone]. *)
Definition astimezone (tz : zones) (zone : Z → Z) (dt : datetime) : datetime :=
  let u := utc_seconds tz dt in
  let off := zone u in
  let w := u + off in
  let s := w mod 86400 in
  {| dt_date := _ord2ymd (w / 86400);
     hour := s / 3600;
     minute := s mod 3600 / 60;
     second := s mod 60;
     microsecond := microsecond dt;
     utcoffset := Some off |}.

(** The ordinal of the first Sunday on or after a date (ordinals that are
    multiples of 7 are Sundays). *)
Definition first_sunday_on_or_after (d : date) : Z :=
  let n := _ymd2ord d in
  n + (7 - n mod 7) mod 7.

(** The United States rule in force since 2007, for concrete runs: daylight
    time (UTC-4) from 07:00 UTC on the second Sunday of March to 06:00 UTC on
    the first Sunday of November, standard time (UTC-5) otherwise. *)
Definition us_eastern (u : Z) : Z :=
  let y := year (_ord2ymd (u / 86400)) in
  let start :=
    first_sunday_on_or_after {| year := y; month := 3; day := 8 |} * 86400
    + 7 * 3600 in
  let stop :=
    first_sunday_on_or_after {| year := y; month := 11; day := 1 |} * 86400
    + 6 * 3600 in
  if (start <=? u) && (u <? stop) then -14400 else -18000.

(** The zones of a machine whose own clock runs on UTC. *)
Definition system_zones : zones :=
  {| America_New_York := us_eastern; tz_local := fun _ => 0 |}.

(** ** The [csv] module *)

(** The values that end up in the [__dict__] of a row object. *)
Inductive pyval : Type :=
| VNone
| VStr (s : string)
| VInt (z : Z)
| VDecimal (d : Decimal).

(** The text the writer makes of a field: [None] is written as the empty
    string, a string as itself, anything else through [str]. *)
Definition csv_text (v : pyval) : string :=
  match v with
  | VNone => ""
  | VStr s => s
  | VInt z => str_int z
  | VDecimal d => Decimal_str d
  end.

Definition quotechar : ascii := "034"%char.

Fixpoint double_quotes (s : string) : string :=
  match s with
  | EmptyString => EmptyString
  | String c s' =>
      if Ascii.eqb c quotechar then String c (String c (double_quotes s'))
      else String c (double_quotes s')
  end.

(** A field under [QUOTE_ALL]. *)
Definition csv_field (s : string) : string :=
  String quotechar (double_quotes s) +:+ String quotechar "".

Fixpoint join (sep : string) (l : list string) : string :=
  match l with
  | [] => ""
  | [s] => s
  | s :: l' => s +:+ sep +:+ join sep l'
  end.

Definition lineterminator : string :=
  String "013"%char (String "010"%char "").

(** [writer.writerow] of the underlying writer: one record of text. *)
Definition csv_record (fields : list string) : string :=
  join "," (csv_field <$> fields) +:+ lineterminator.

Inductive extrasaction : Type := extras_raise | extras_ignore.

(** [DictWriter._dict_to_list]: with [extrasaction="raise"] (the default) a
    key outside the field names is a [ValueError]; a missing key is written
    as the empty string. *)
Definition _dict_to_list (fieldnames : list string) (extras : extrasaction)
    (rowdict : gmap string pyval) : result (list string) :=
  match extras with
  | extras_raise =>
      if decide (dom rowdict ⊆ list_to_set fieldnames)
      then Ok ((fun k => from_option csv_text "" (rowdict !! k)) <$> fieldnames)
      else Raise (OtherError "ValueError" None)
  | extras_ignore =>
      Ok ((fun k => from_option csv_text "" (rowdict !! k)) <$> fieldnames)
  end.

(** [DictWriter.writerow]: the text of the record for [rowdict]. *)
Definition DictWriter_writerow (fieldnames : list string)
    (extras : extrasaction) (rowdict : gmap string pyval) : result string :=
  csv_record <$> _dict_to_list fieldnames extras rowdict.

(** [DictWriter.writeheader]. *)
Definition DictWriter_writeheader (fieldnames : list string) : string :=
  csv_record fieldnames.

(* ===================================================================== *)
(** * Constants of the module *)
(* ===================================================================== *)

Definition PORTFOLIO_HEADER : list string :=
  ["account"; "ticker"; "shares"; "price"; "cost"].
Definition TRANSACTIONS_HEADER : list string :=
  ["date"; "merchant"; "category"; "group"; "account"; "notes"; "amount"].
Definition BALANCES_HEADER : list string :=
  ["account"; "balance"; "date_eastern"; "datetime"].
Definition RECORD_LIMIT_TX : Z := 10000.
Definition FN_TX_REPORT : string := "transactions.csv".
Definition FN_BALANCE_REPORT : string := "balance.csv".
Definition FN_BALANCE_HISTORY_REPORT : string := "balance_history.csv".
Definition FN_PORTFOLIO_REPORT : string := "portfolio.csv".
Definition RETRY_DELAY : Z := 2.

(* ===================================================================== *)
(** * Response shapes *)
(* ===================================================================== *)

(** A response is a JSON object.  Each record below lists the keys that some
    schema of the module declares; a key that is absent from the object is
    [None].  Keys that no schema declares are dropped on load
    ([unknown = EXCLUDE]) and therefore have no field here.  Integer fields
    hold the integer the [Int] field makes of the JSON value, timestamps the
    [datetime] the [DateTime] field makes of it.  Decimal fields are
    parametric: in a raw response ([D := string]) they hold the text handed
    to [decimal.Decimal] (a JSON string as it is, any other value through
    [str]), after load ([D := Decimal]) the parsed number.  A value of the
    wrong JSON type, or [null] where the schema does not allow it, fails
    validation in Python and has no counterpart here. *)

Record Group : Type := {
  Group_id : option Z;
  Group_name : option string
}.

Record Category : Type := {
  Category_id : option Z;
  Category_name : option string;
  Category_group : option Group
}.

Record AccountData (D : Type) : Type := {
  AccountData_id : option Z;
  displayName : option string;
  currentBalance : option D;
  holdingsCount : option Z;
  updatedAt : option datetime
}.
Arguments AccountData_id {D}.
Arguments displayName {D}.
Arguments currentBalance {D}.
Arguments holdingsCount {D}.
Arguments updatedAt {D}.

Record Security (D : Type) : Type := {
  Security_id : option Z;
  Security_name : option string;
  ticker : option string;
  currentPrice : option D
}.
Arguments Security_id {D}.
Arguments Security_name {D}.
Arguments ticker {D}.
Arguments currentPrice {D}.

Record AggregateHolding (D : Type) : Type := {
  AggregateHolding_id : option Z;
  quantity : option D;
  basis : option D;
  totalValue : option D;
  security : option (Security D)
}.
Arguments AggregateHolding_id {D}.
Arguments quantity {D}.
Arguments basis {D}.
Arguments totalValue {D}.
Arguments security {D}.

Record AggregateHoldingEdge (D : Type) : Type := {
  node : option (AggregateHolding D)
}.
Arguments node {D}.

Record AggregateHoldingsConnection (D : Type) : Type := {
  edges : option (list (AggregateHoldingEdge D))
}.
Arguments edges {D}.

Record Portfolio (D : Type) : Type := {
  aggregateHoldings : option (AggregateHoldingsConnection D)
}.
Arguments aggregateHoldings {D}.

Record Merchant : Type := {
  Merchant_id : option Z;
  Merchant_name : option string
}.

(** [notes] may be present and [null] ([allow_none]): [Some None]. *)
Record TransactionData (D : Type) : Type := {
  TransactionData_id : option Z;
  amount : option D;
  date_ : option string;
  notes : option (option string);
  merchant : option Merchant;
  account : option (AccountData D);
  category : option Category
}.
Arguments TransactionData_id {D}.
Arguments amount {D}.
Arguments date_ {D}.
Arguments notes {D}.
Arguments merchant {D}.
Arguments account {D}.
Arguments category {D}.

Record TransactionList (D : Type) : Type := {
  results : option (list (TransactionData D))
}.
Arguments results {D}.

(** The top-level object of a response, with the keys of the four query
    schemas. *)
Record response (D : Type) : Type := {
  categories : option (list Category);
  allTransactions : option (TransactionList D);
  accounts : option (list (AccountData D));
  portfolio : option (Portfolio D)
}.
Arguments categories {D}.
Arguments allTransactions {D}.
Arguments accounts {D}.
Arguments portfolio {D}.

(** ** Field deserialisers *)

(** A field declared [required=True]. *)
Definition required {A} (field : string) (o : option A) : result (option A) :=
  match o with
  | Some a => Ok (Some a)
  | None => Raise (ValidationError field)
  end.

(** [fields.Nested(schema)], not required: loaded when present. *)
Definition Nested {A B} (load : A → result B) (o : option A)
    : result (option B) :=
  match o with
  | Some a => Some <$> load a
  | None => Ok None
  end.

(** [fields.List(fields.Nested(schema))]. *)
Definition List_Nested {A B} (load : A → result B) (o : option (list A))
    : result (option (list B)) :=
  Nested (comprehension load) o.

(** [fields.Decimal(as_string=True)] on load: [as_string] only matters when
    dumping, loading gives a [Decimal]. *)
Definition Decimal_field (field : string) (o : option string)
    : result (option Decimal) :=
  match o with
  | Some s =>
      match Decimal_of_str s with
      | Some d => Ok (Some d)
      | None => Raise (ValidationError field)
      end
  | None => Ok None
  end.

(* ===================================================================== *)
(** * Element schemas *)
(* ===================================================================== *)

Module GroupSchema.
Definition load (g : Group) : result Group :=
  id ← required "id" (Group_id g);
  Ok {| Group_id := id; Group_name := Group_name g |}.
End GroupSchema.

(** The first class named [CategorySchema], the one with a [group]; it is
    the class [CategoryQuerySchema] nests. *)
Module CategorySchema.
Definition load (c : Category) : result Category :=
  id ← required "id" (Category_id c);
  group ← Nested GroupSchema.load (Category_group c);
  Ok {| Category_id := id; Category_name := Category_name c;
        Category_group := group |}.
End CategorySchema.

Module AccountSchema.
Definition load (a : AccountData string) : result (AccountData Decimal) :=
  id ← required "id" (AccountData_id a);
  balance ← Decimal_field "currentBalance" (currentBalance a);
  Ok {| AccountData_id := id; displayName := displayName a;
        currentBalance := balance; holdingsCount := holdingsCount a;
        updatedAt := updatedAt a |}.
End AccountSchema.

Module SecuritySchema.
Definition load (s : Security string) : result (Security Decimal) :=
  id ← required "id" (Security_id s);
  price ← Decimal_field "currentPrice" (currentPrice s);
  Ok {| Security_id := id; Security_name := Security_name s;
        ticker := ticker s; currentPrice := price |}.
End SecuritySchema.

Module AggregateHoldingSchema.
Definition load (h : AggregateHolding string)
    : result (AggregateHolding Decimal) :=
  id ← required "id" (AggregateHolding_id h);
  q ← Decimal_field "quantity" (quantity h);
  b ← Decimal_field "basis" (basis h);
  t ← Decimal_field "totalValue" (totalValue h);
  s ← Nested SecuritySchema.load (security h);
  Ok {| AggregateHolding_id := id; quantity := q; basis := b;
        totalValue := t; security := s |}.
End AggregateHoldingSchema.

Module AggregateHoldingEdgeSchema.
Definition load (e : AggregateHoldingEdge string)
    : result (AggregateHoldingEdge Decimal) :=
  n ← Nested AggregateHoldingSchema.load (node e);
  Ok {| node := n |}.
End AggregateHoldingEdgeSchema.

Module AggregateHoldingsConnectionSchema.
Definition load (c : AggregateHoldingsConnection string)
    : result (AggregateHoldingsConnection Decimal) :=
  es ← List_Nested AggregateHoldingEdgeSchema.load (edges c);
  Ok {| edges := es |}.
End AggregateHoldingsConnectionSchema.

Module PortfolioSchema.
Definition load (p : Portfolio string) : result (Portfolio Decimal) :=
  a ← Nested AggregateHoldingsConnectionSchema.load (aggregateHoldings p);
  Ok {| aggregateHoldings := a |}.
End PortfolioSchema.

Module MerchantSchema.
Definition load (m : Merchant) : result Merchant :=
  id ← required "id" (Merchant_id m);
  Ok {| Merchant_id := id; Merchant_name := Merchant_name m |}.
End MerchantSchema.

(** The second class named [CategorySchema], which replaces the first under
    that name from here on: no [group], so a [group] key is dropped.  It is
    the class [TransactionSchema] nests. *)
Module CategorySchema'.
Definition load (c : Category) : result Category :=
  id ← required "id" (Category_id c);
  Ok {| Category_id := id; Category_name := Category_name c;
        Category_group := None |}.
End CategorySchema'.

Module TransactionSchema.
Definition load (t : TransactionData string)
    : result (TransactionData Decimal) :=
  id ← required "id" (TransactionData_id t);
  a ← Decimal_field "amount" (amount t);
  m ← Nested MerchantSchema.load (merchant t);
  acc ← Nested AccountSchema.load (account t);
  c ← Nested CategorySchema'.load (category t);
  Ok {| TransactionData_id := id; amount := a; date_ := date_ t;
        notes := notes t; merchant := m; account := acc; category := c |}.
End TransactionSchema.

Module TransactionListSchema.
Definition load (l : TransactionList string)
    : result (TransactionList Decimal) :=
  rs ← List_Nested TransactionSchema.load (results l);
  Ok {| results := rs |}.
End TransactionListSchema.

(* ===================================================================== *)
(** * Row classes *)
(* ===================================================================== *)

(** The classes [Holding], [Transaction] and [Account] stand at the end of
    the Python module; they come before the query schemas here because the
    [post_load] hooks construct them. *)

Record Holding : Type := {
  Holding_account : option string;
  Holding_ticker : string;
  Holding_shares : string;
  Holding_price : string;
  Holding_cost : string
}.

Module Holding.
Definition __init__ (row : AggregateHoldingEdge Decimal) : result Holding :=
  n ← getitem "node" (node row);
  sec ← getitem "security" (security n);
  tick ← getitem "ticker" (ticker sec);
  q ← getitem "quantity" (quantity n);
  sec' ← getitem "security" (security n);
  p ← getitem "currentPrice" (currentPrice sec');
  b ← getitem "basis" (basis n);
  Ok {| Holding_account := None;
        Holding_ticker := tick;
        Holding_shares := Decimal_str q;
        Holding_price := Decimal_str p;
        Holding_cost := Decimal_str b |}.

Definition __dict__ (h : Holding) : gmap string pyval :=
  <["account" := from_option VStr VNone (Holding_account h)]>
  (<["ticker" := VStr (Holding_ticker h)]>
  (<["shares" := VStr (Holding_shares h)]>
  (<["price" := VStr (Holding_price h)]>
  (<["cost" := VStr (Holding_cost h)]> ∅)))).

(** [x.account = name] *)
Definition set_account (name : string) (h : Holding) : Holding :=
  {| Holding_account := Some name;
     Holding_ticker := Holding_ticker h;
     Holding_shares := Holding_shares h;
     Holding_price := Holding_price h;
     Holding_cost := Holding_cost h |}.
End Holding.

Record Transaction : Type := {
  Transaction_date : string;
  Transaction_merchant : string;
  Transaction_category : string;
  Transaction_group : string;
  Transaction_account : string;
  Transaction_notes : option string;
  Transaction_amount : Decimal
}.

Module Transaction.
Definition __init__ (row : TransactionData Decimal)
    (catmap : gmap string string) : result Transaction :=
  date ← getitem "date" (date_ row);
  m ← getitem "merchant" (merchant row);
  merchant_name ← getitem "name" (Merchant_name m);
  c ← getitem "category" (category row);
  category_name ← getitem "name" (Category_name c);
  c' ← getitem "category" (category row);
  cid ← getitem "id" (Category_id c');
  group ← getitem (str_int cid) (catmap !! str_int cid);
  a ← getitem "account" (account row);
  account_name ← getitem "displayName" (displayName a);
  notes_value ← getitem "notes" (notes row);
  amount_value ← getitem "amount" (amount row);
  Ok {| Transaction_date := date;
        Transaction_merchant := merchant_name;
        Transaction_category := category_name;
        Transaction_group := group;
        Transaction_account := account_name;
        Transaction_notes := notes_value;
        Transaction_amount := amount_value |}.

Definition __dict__ (t : Transaction) : gmap string pyval :=
  <["date" := VStr (Transaction_date t)]>
  (<["merchant" := VStr (Transaction_merchant t)]>
  (<["category" := VStr (Transaction_category t)]>
  (<["group" := VStr (Transaction_group t)]>
  (<["account" := VStr (Transaction_account t)]>
  (<["notes" := from_option VStr VNone (Transaction_notes t)]>
  (<["amount" := VDecimal (Transaction_amount t)]> ∅)))))).
End Transaction.

Record Account : Type := {
  Account_id : Z;
  Account_account : string;
  Account_balance : Decimal;
  Account_holdingsCount : Z;
  Account_datetime : string;
  Account_date_eastern : string
}.

Module Account.
Definition __init__ (tz : zones) (row : AccountData Decimal)
    : result Account :=
  id ← getitem "id" (AccountData_id row);
  name ← getitem "displayName" (displayName row);
  balance ← getitem "currentBalance" (currentBalance row);
  count ← getitem "holdingsCount" (holdingsCount row);
  u ← getitem "updatedAt" (updatedAt row);
  (* convert to eastern timezone *)
  u' ← getitem "updatedAt" (updatedAt row);
  Ok {| Account_id := id;
        Account_account := name;
        Account_balance := balance;
        Account_holdingsCount := count;
        Account_datetime := datetime_isoformat u;
        Account_date_eastern :=
          date_isoformat
            (dt_date (astimezone tz (America_New_York tz) u')) |}.

Definition __dict__ (a : Account) : gmap string pyval :=
  <["id" := VInt (Account_id a)]>
  (<["account" := VStr (Account_account a)]>
  (<["balance" := VDecimal (Account_balance a)]>
  (<["holdingsCount" := VInt (Account_holdingsCount a)]>
  (<["datetime" := VStr (Account_datetime a)]>
  (<["date_eastern" := VStr (Account_date_eastern a)]> ∅))))).
End Account.

(* ===================================================================== *)
(** * Query schemas and their [post_load] hooks *)
(* ===================================================================== *)

Module CategoryQuerySchema.
Definition validate (r : response string) : result (option (list Category)) :=
  List_Nested CategorySchema.load (categories r).

(** The loop of [make_map]; in [catmap[str(x["id"])] = x["group"]["name"]]
    the right-hand side is evaluated first. *)
Fixpoint make_map_loop (cats : list Category) (catmap : gmap string string)
    : result (gmap string string) :=
  match cats with
  | [] => Ok catmap
  | x :: cats' =>
      g ← getitem "group" (Category_group x);
      name ← getitem "name" (Group_name g);
      id ← getitem "id" (Category_id x);
      make_map_loop cats' (<[str_int id := name]> catmap)
  end.

(** make a map of category ids to group name *)
Definition make_map (data : option (list Category))
    : result (gmap string string) :=
  cats ← getitem "categories" data;
  make_map_loop cats ∅.

Definition load (r : response string) : result (gmap string string) :=
  data ← validate r;
  make_map data.
End CategoryQuerySchema.

Module HoldingsQuerySchema.
Definition validate (r : response string)
    : result (option (Portfolio Decimal)) :=
  Nested PortfolioSchema.load (portfolio r).

Definition make_csv_rows (data : option (Portfolio Decimal))
    : result (list Holding) :=
  p ← getitem "portfolio" data;
  a ← getitem "aggregateHoldings" (aggregateHoldings p);
  es ← getitem "edges" (edges a);
  comprehension Holding.__init__ es.

Definition load (r : response string) : result (list Holding) :=
  data ← validate r;
  make_csv_rows data.
End HoldingsQuerySchema.

(** [TransactionCategorySchemaContext]: the context the schema is loaded
    under, a dictionary with the single key [catmap]; [None] when the load
    runs outside any [with] block. *)
Definition CategoryContext : Type := gmap string string.

Module TransactionsQuerySchema.
Definition validate (r : response string)
    : result (option (TransactionList Decimal)) :=
  Nested TransactionListSchema.load (allTransactions r).

Definition make_csv_rows (context : option CategoryContext)
    (data : option (TransactionList Decimal)) : result (list Transaction) :=
  catmap ←
    match context with
    | Some catmap => Ok catmap
    | None => Raise (OtherError "LookupError" None)
    end;
  l ← getitem "allTransactions" data;
  rs ← getitem "results" (results l);
  comprehension (fun row => Transaction.__init__ row catmap) rs.

Definition load (context : option CategoryContext) (r : response string)
    : result (list Transaction) :=
  data ← validate r;
  make_csv_rows context data.
End TransactionsQuerySchema.

Module AccountsQuerySchema.
Definition validate (r : response string)
    : result (option (list (AccountData Decimal))) :=
  List_Nested AccountSchema.load (accounts r).

Definition make_csv_rows (tz : zones)
    (data : option (list (AccountData Decimal))) : result (list Account) :=
  rows ← getitem "accounts" data;
  comprehension (Account.__init__ tz) rows.

Definition load (tz : zones) (r : response string) : result (list Account) :=
  data ← validate r;
  make_csv_rows tz data.
End AccountsQuerySchema.

(* ===================================================================== *)
(** * The world outside the module *)
(* ===================================================================== *)

(** A [monarchmoney.MonarchMoney] client, as far as the module can tell one
    from another: the session file it was constructed with ([None] when the
    library default is left in place).  What else a client holds, such as the
    headers with its token, is private to the library. *)
Record MonarchMoney : Type := {
  MonarchMoney_session_file : option string
}.

(** The remote calls of the client that the module uses. *)
Inductive rpc : Type :=
| get_transaction_categories
| get_transactions_call (limit : Z) (start_date end_date : string)
| get_accounts_call
| get_account_holdings (account_id : Z).

Global Instance rpc_eq_dec : EqDecision rpc.
Proof. solve_decision. Defined.

(** What the module does to the outside, in the order it does it.  A client
    is named by its reference, its position in the heap of clients. *)
Inductive event : Type :=
| Construct (ref : nat) (session_file : option string)
| Login (ref : nat) (email password : string)
    (save_session use_saved_session : bool) (mfa_secret_key : string)
| Call (ref : nat) (op : rpc)
| Sleep (seconds : Z).

Global Instance event_eq_dec : EqDecision event.
Proof. solve_decision. Defined.

Definition is_Login (ev : event) : bool :=
  match ev with Login _ _ _ _ _ _ => true | _ => false end.
Definition is_Call (ev : event) : bool :=
  match ev with Call _ _ => true | _ => false end.

(** Number of [login] requests, and of remote calls, made so far. *)
Definition logins (tr : list event) : nat := length (filter is_Login tr).
Definition calls (tr : list event) : nat := length (filter is_Call tr).

(** The attributes of a [Monarch] instance; [mm] refers to a client. *)
Record Monarch : Type := {
  un : string;
  pw : string;
  token : string;
  fn_tx_report : string;
  fn_balance_report : string;
  fn_balance_history_report : string;
  fn_portfolio_report : string;
  retry_delay : Z;
  session_file : option string;
  mm : nat
}.

Record world : Type := {
  self : Monarch;
  heap : list MonarchMoney;
  trace : list event;
  files : gmap string string
}.

(** What the module cannot decide: how the service answers the [n]-th login
    and the [n]-th remote call (counted from 0, with the client it is made
    on), the current date, and the time zone rules. *)
Record environment : Type := {
  login_outcome : nat → nat → bool → result unit;
  call_outcome : nat → nat → rpc → result (response string);
  today : date;
  tz : zones
}.

(** Truth value of an optional string: [None] and [""] are false. *)
Definition truth (s : option string) : bool :=
  match s with
  | Some (String _ _) => true
  | Some EmptyString | None => false
  end.

(** Computations that change the world and may raise.  An exception leaves
    the changes made so far in place. *)
Definition M (A : Type) : Type := world → result A * world.

Global Instance M_ret : MRet M := λ A a w, (Ok a, w).
Global Instance M_bind : MBind M := λ A B f m w,
  match m w with
  | (Ok a, w') => f a w'
  | (Raise e, w') => (Raise e, w')
  end.

Definition lift {A} (r : result A) : M A := λ w, (r, w).

Definition get_self : M Monarch := λ w, (Ok (self w), w).

Definition log (ev : event) : M unit := λ w,
  (Ok (),
   {| self := self w; heap := heap w; trace := trace w ++ [ev];
      files := files w |}).

(** The instance after [self.mm = ref]. *)
Definition with_mm (this : Monarch) (ref : nat) : Monarch :=
  {| un := un this; pw := pw this; token := token this;
     fn_tx_report := fn_tx_report this;
     fn_balance_report := fn_balance_report this;
     fn_balance_history_report := fn_balance_history_report this;
     fn_portfolio_report := fn_portfolio_report this;
     retry_delay := retry_delay this;
     session_file := session_file this;
     mm := ref |}.

(** [self.mm = ref] *)
Definition set_mm (ref : nat) : M unit := λ w,
  (Ok (),
   {| self := with_mm (self w) ref;
      heap := heap w; trace := trace w; files := files w |}).

(** [for x in l: body x] *)
Fixpoint for_each {A} (l : list A) (body : A → M unit) : M unit :=
  match l with
  | [] => mret ()
  | x :: l' => _ ← body x; for_each l' body
  end.

(** ** The client *)

(** [monarchmoney.MonarchMoney(session_file=...)]: a new client, with a
    reference no earlier client has. *)
Definition MonarchMoney_new (session_file : option string) : M nat := λ w,
  let ref := length (heap w) in
  (Ok ref,
   {| self := self w;
      heap := heap w ++ [{| MonarchMoney_session_file := session_file |}];
      trace := trace w ++ [Construct ref session_file];
      files := files w |}).

Definition MonarchMoney_login (env : environment) (ref : nat)
    (email password : string) (save_session use_saved_session : bool)
    (mfa_secret_key : string) : M unit := λ w,
  let n := logins (trace w) in
  (login_outcome env n ref use_saved_session,
   {| self := self w; heap := heap w;
      trace := trace w ++ [Login ref email password save_session
                             use_saved_session mfa_secret_key];
      files := files w |}).

Definition MonarchMoney_call (env : environment) (ref : nat) (op : rpc)
    : M (response string) := λ w,
  let n := calls (trace w) in
  (call_outcome env n ref op,
   {| self := self w; heap := heap w; trace := trace w ++ [Call ref op];
      files := files w |}).

(** ** Files *)

(** [open(path, mode="w")]: the file is created or emptied. *)
Definition open_w (path : string) : M unit := λ w,
  (Ok (),
   {| self := self w; heap := heap w; trace := trace w;
      files := <[path := ""]> (files w) |}).

(** [open(path, mode="a")]: the file is created when missing and the
    position is at its end; the result is that position, [f.tell()]. *)
Definition open_a (path : string) : M nat := λ w,
  match files w !! path with
  | Some content => (Ok (String.length content), w)
  | None =>
      (Ok 0%nat,
       {| self := self w; heap := heap w; trace := trace w;
          files := <[path := ""]> (files w) |})
  end.

(** [f.write(text)] on an open file: the text goes to its end. *)
Definition write (path : string) (text : string) : M unit := λ w,
  (Ok (),
   {| self := self w; heap := heap w; trace := trace w;
      files := <[path := from_option id "" (files w !! path) +:+ text]>
                 (files w) |}).

(* ===================================================================== *)
(** * class Monarch, and the retry policy of its remote calls *)
(* ===================================================================== *)

Section Monarch.
Context (env : environment).

(** [Monarch._init_mm]: a new client takes the place of the old one.  The
    session file is passed on when there is one (a non-empty string);
    otherwise the default of the library is left alone. *)
Definition _init_mm : M unit :=
  this ← get_self;
  ref ←
    (if truth (session_file this)
     then MonarchMoney_new (session_file this)
     else
       (* don't override the built-in default value *)
       MonarchMoney_new None);
  set_mm ref.

(** [Monarch.login] *)
Definition login (use_saved_session : bool) : M unit :=
  _ ← (if negb use_saved_session
       then (* force clear *) _init_mm
       else mret ());
  this ← get_self;
  MonarchMoney_login env (mm this) (un this) (pw this) true
    use_saved_session (token this).

(** ** The [tenacity.retry] decorator of the four remote calls *)

(** [retry_if_exception_type(TransportServerError)] *)
Definition retry_if_exception_type_TransportServerError (e : exn) : bool :=
  match e with
  | TransportServerError _ _ => true
  | _ => false
  end.

(** The [code] attribute of an exception.  Classes without the attribute
    never reach [is_exception_401]: the conjunction below evaluates it
    only for a [TransportServerError]. *)
Definition exn_code (e : exn) : option Z :=
  match e with
  | TransportServerError c _ => c
  | OtherError _ c => c
  | KeyError _ | ValidationError _ => None
  end.

Definition is_exception_401 (exception : exn) : bool :=
  bool_decide (exn_code exception = Some 401).

(** [retry=retry_if_exception_type(...) & retry_if_exception(is_exception_401)] *)
Definition retry (e : exn) : bool :=
  retry_if_exception_type_TransportServerError e && is_exception_401 e.

(** [before_sleep=login_before_sleep] *)
Definition login_before_sleep : M unit := login false.

(** [wait=wait_from_instance] *)
Definition wait_from_instance : M Z :=
  this ← get_self; mret (retry_delay this).

(** The loop of [tenacity] around a call [fn], with [reraise=True].
    [retries_left] is what [stop] still allows: [stop_after_attempt(n)]
    stops after attempt [n], which leaves [n - 1] retries after the first
    attempt.  An attempt that raises something [retry] rejects ends the
    loop with that exception; so does the last attempt allowed, whatever
    it raises.  Before another attempt the wait is computed, then
    [before_sleep] runs, then the loop sleeps. *)
Fixpoint retrying {A} (retries_left : nat) (fn : M A) : M A := λ w,
  match fn w with
  | (Ok a, w1) => (Ok a, w1)
  | (Raise e, w1) =>
      if retry e then
        match retries_left with
        | O => (Raise e, w1)
        | S n =>
            (sleep ← wait_from_instance;
             _ ← login_before_sleep;
             _ ← log (Sleep sleep);
             retrying n fn) w1
        end
      else (Raise e, w1)
  end.

(** [stop=tenacity.stop_after_attempt(2)] *)
Definition stop_after_attempt : nat := 2.

Definition tenacity_retry {A} (fn : M A) : M A :=
  retrying (stop_after_attempt - 1) fn.

(** ** Remote calls *)

Definition get_categories : M (response string) :=
  tenacity_retry
    (this ← get_self;
     MonarchMoney_call env (mm this) get_transaction_categories).

Definition get_transactions : M (response string) :=
  tenacity_retry
    (this ← get_self;
     MonarchMoney_call env (mm this)
       (get_transactions_call RECORD_LIMIT_TX
          (* we always want YTD *)
          (date_isoformat
             {| year := year (today env); month := 1; day := 1 |})
          (date_isoformat (today env)))).

Definition get_accounts : M (response string) :=
  tenacity_retry
    (this ← get_self; MonarchMoney_call env (mm this) get_accounts_call).

Definition get_holdings (account_id : Z) : M (response string) :=
  tenacity_retry
    (this ← get_self;
     MonarchMoney_call env (mm this) (get_account_holdings account_id)).

(** ** Reports *)

(** The body shared by the three writers that open their file with
    [mode="w"]: the header, then one record per row. *)
Definition write_rows (path : string) (fieldnames : list string)
    (extras : extrasaction) (rows : list (gmap string pyval)) : M unit :=
  for_each rows (λ rowdict,
    text ← lift (DictWriter_writerow fieldnames extras rowdict);
    write path text).

Definition write_transactions (transactions : list Transaction) : M unit :=
  this ← get_self;
  _ ← open_w (fn_tx_report this);
  _ ← write (fn_tx_report this) (DictWriter_writeheader TRANSACTIONS_HEADER);
  write_rows (fn_tx_report this) TRANSACTIONS_HEADER extras_raise
    (Transaction.__dict__ <$> transactions).

Definition report_transactions : M unit :=
  cats ← get_categories;
  catmap ← lift (CategoryQuerySchema.load cats);
  txs ← get_transactions;
  loaded_data ← lift (TransactionsQuerySchema.load (Some catmap) txs);
  write_transactions loaded_data.

Definition write_balances (accounts : list Account) : M unit :=
  this ← get_self;
  _ ← open_w (fn_balance_report this);
  _ ← write (fn_balance_report this) (DictWriter_writeheader BALANCES_HEADER);
  write_rows (fn_balance_report this) BALANCES_HEADER extras_ignore
    (Account.__dict__ <$> accounts).

Definition write_balances_history (accounts : list Account) : M unit :=
  this ← get_self;
  pos ← open_a (fn_balance_history_report this);
  _ ← (if decide (pos = 0%nat)
       then write (fn_balance_history_report this)
              (DictWriter_writeheader BALANCES_HEADER)
       else mret ());
  write_rows (fn_balance_history_report this) BALANCES_HEADER extras_ignore
    (Account.__dict__ <$> accounts).

Definition report_balances : M (list Account) :=
  accounts ← get_accounts;
  loaded_data ← lift (AccountsQuerySchema.load (tz env) accounts);
  _ ← write_balances loaded_data;
  _ ← write_balances_history loaded_data;
  mret loaded_data.

Definition write_portfolio (holdings : list Holding) : M unit :=
  this ← get_self;
  _ ← open_w (fn_portfolio_report this);
  _ ← write (fn_portfolio_report this) (DictWriter_writeheader PORTFOLIO_HEADER);
  write_rows (fn_portfolio_report this) PORTFOLIO_HEADER extras_raise
    (Holding.__dict__ <$> holdings).

(** The loop of [report_portfolio], with the list [all_holdings] it
    extends. *)
Fixpoint report_portfolio_loop (accounts_query : list Account)
    (all_holdings : list Holding) : M (list Holding) :=
  match accounts_query with
  | [] => mret all_holdings
  | account :: rest =>
      if 0 <? Account_holdingsCount account then
        holdings ← get_holdings (Account_id account);
        holdings_query ← lift (HoldingsQuerySchema.load holdings);
        report_portfolio_loop rest
          (all_holdings
             ++ (Holding.set_account (Account_account account)
                   <$> holdings_query))
      else report_portfolio_loop rest all_holdings
  end.

Definition report_portfolio (accounts_query : list Account) : M unit :=
  all_holdings ← report_portfolio_loop accounts_query [];
  write_portfolio all_holdings.

End Monarch.

(** [Monarch.__init__]: the instance and its first client, in a world with
    the given files.  The three [assert]s come first. *)
Definition __init__ (un pw token : string) (session_file : option string)
    (rb rbh rt rp : string) (retry_delay : Z) (files : gmap string string)
    : result Monarch * world :=
  let this :=
    {| un := un; pw := pw; token := token;
       fn_tx_report := rt; fn_balance_report := rb;
       fn_balance_history_report := rbh; fn_portfolio_report := rp;
       retry_delay := retry_delay; session_file := session_file;
       mm := 0%nat |} in
  let w0 := {| self := this; heap := []; trace := []; files := files |} in
  if decide (un = "" ∨ token = "" ∨ pw = "")
  then (Raise (OtherError "AssertionError" None), w0)
  else
    match _init_mm w0 with
    | (Ok _, w) => (Ok (self w), w)
    | (Raise e, w) => (Raise e, w)
    end.

(** ** [main] *)

(** The namespace that [parser.parse_args] returns when it returns: the
    three required options and the four with a default are strings,
    [--session] is [None] when it is not given. *)
Record Namespace : Type := {
  arg_username : string;
  arg_password : string;
  arg_token : string;
  arg_session : option string;
  arg_report_balances : string;
  arg_report_balances_history : string;
  arg_report_transactions : string;
  arg_report_portfolio : string
}.

(** [main] from [command_args] on, started with the given files: what it
    ends with, the events in their order, and the files it leaves. *)
Definition main (env : environment) (command_args : Namespace)
    (files0 : gmap string string)
    : result unit * list event * gmap string string :=
  (* tool's validator is very poor. fail fast. *)
  if decide (arg_username command_args = ""
             ∨ arg_password command_args = ""
             ∨ arg_token command_args = ""
             ∨ arg_report_balances command_args = ""
             ∨ arg_report_balances_history command_args = ""
             ∨ arg_report_transactions command_args = ""
             ∨ arg_report_portfolio command_args = "")
  then (Raise (OtherError "AssertionError" None), [], files0)
  else
    match __init__ (arg_username command_args) (arg_password command_args)
            (arg_token command_args) (arg_session command_args)
            (arg_report_balances command_args)
            (arg_report_balances_history command_args)
            (arg_report_transactions command_args)
            (arg_report_portfolio command_args) RETRY_DELAY files0
    with
    | (Raise e, w) => (Raise e, trace w, files w)
    | (Ok _, w) =>
        let '(r, w') :=
          (_ ← login env true;
           accounts_query ← report_balances env;
           _ ← report_transactions env;
           report_portfolio env accounts_query) w in
        (r, trace w', files w')
    end.

(* ===================================================================== *)
(** * Vocabulary of the properties *)
(* ===================================================================== *)

(** Predicates on responses, the worlds that the methods leave behind, the
    text of the files, and the responses and runs used as examples. *)

(** ** Complete responses *)

(** The key is there. *)
Definition present {A} (o : option A) : bool :=
  match o with Some _ => true | None => false end.

(** A category that passes validation and has every key [make_map] reads:
    its own [id], and a [group] with an [id] and a [name]. *)
Definition category_complete (c : Category) : bool :=
  match Category_id c, Category_group c with
  | Some _, Some g =>
      match Group_id g, Group_name g with
      | Some _, Some _ => true
      | _, _ => false
      end
  | _, _ => false
  end.

(** A transaction that passes validation and has every key that
    [Transaction.__init__] reads. *)
Definition transaction_complete (t : TransactionData string) : bool :=
  match TransactionData_id t, amount t, date_ t, notes t,
        merchant t, account t, category t with
  | Some _, Some s, Some _, Some _, Some m, Some a, Some c =>
      present (Decimal_of_str s)
      && present (Merchant_id m) && present (Merchant_name m)
      && present (AccountData_id a) && present (displayName a)
      && match currentBalance a with
         | Some b => present (Decimal_of_str b)
         | None => true
         end
      && present (Category_id c) && present (Category_name c)
  | _, _, _, _, _, _, _ => false
  end.

(** ** The category lookup *)

(** The dictionary assignments of [make_map], as a list of pairs. *)
Definition assign (catmap : gmap string string) (kv : Z * string)
    : gmap string string :=
  <[str_int kv.1 := kv.2]> catmap.

(** The identifier and group name of a complete category. *)
Definition category_entry (c : Category) : option (Z * string) :=
  g ← Category_group c; name ← Group_name g; id ← Category_id c;
  Some (id, name).

(** ** The retry policy *)

(** The four decorated methods, and the remote call each of them makes. *)
Inductive wrapped : Type :=
| Get_categories
| Get_transactions
| Get_accounts
| Get_holdings (account_id : Z).

Definition run_wrapped (env : environment) (op : wrapped)
    : M (response string) :=
  match op with
  | Get_categories => get_categories env
  | Get_transactions => get_transactions env
  | Get_accounts => get_accounts env
  | Get_holdings account_id => get_holdings env account_id
  end.

Definition request_of (env : environment) (op : wrapped) : rpc :=
  match op with
  | Get_categories => get_transaction_categories
  | Get_transactions =>
      get_transactions_call RECORD_LIMIT_TX
        (date_isoformat {| year := year (today env); month := 1; day := 1 |})
        (date_isoformat (today env))
  | Get_accounts => get_accounts_call
  | Get_holdings account_id => get_account_holdings account_id
  end.

(** One attempt: the remote call on the client the instance holds. *)
Definition attempt (env : environment) (op : wrapped) : M (response string) :=
  this ← get_self; MonarchMoney_call env (mm this) (request_of env op).

(** The world with further events in its trace. *)
Definition extend (w : world) (evs : list event) : world :=
  {| self := self w; heap := heap w; trace := trace w ++ evs;
     files := files w |}.

(** The session file a client is constructed with. *)
Definition configured_session_file (this : Monarch) : option string :=
  if truth (session_file this) then session_file this else None.

(** The world after [_init_mm]. *)
Definition renewed (w : world) : world :=
  {| self := with_mm (self w) (length (heap w));
     heap := heap w
             ++ [{| MonarchMoney_session_file :=
                      configured_session_file (self w) |}];
     trace := trace w
              ++ [Construct (length (heap w))
                    (configured_session_file (self w))];
     files := files w |}.

(** The event of the forced login on client [ref]. *)
Definition forced_login (this : Monarch) (ref : nat) : event :=
  Login ref (un this) (pw this) true false (token this).

(** ** Files and records *)

Definition keeps_files {A} (m : M A) : Prop :=
  ∀ w, files (m w).2 = files w.

(** The world with [content] in the file at [path]. *)
Definition with_file (w : world) (path content : string) : world :=
  {| self := self w; heap := heap w; trace := trace w;
     files := <[path := content]> (files w) |}.

(** The text of a file made of the given records. *)
Fixpoint csv_lines (records : list (list string)) : string :=
  match records with
  | [] => ""
  | fields :: records' => csv_record fields +:+ csv_lines records'
  end.

(** Line feeds in a text. *)
Fixpoint line_feeds (s : string) : nat :=
  match s with
  | EmptyString => 0
  | String c s' => (if Ascii.eqb c "010" then 1 else 0) + line_feeds s'
  end.

(** The record written for an account. *)
Definition account_record (a : Account) : list string :=
  [Account_account a; Decimal_str (Account_balance a);
   Account_date_eastern a; Account_datetime a].

(** The record written for a holding. *)
Definition holding_record (h : Holding) : list string :=
  [default "" (Holding_account h); Holding_ticker h; Holding_shares h;
   Holding_price h; Holding_cost h].

(** What the history file starts with after a run: its old content, or the
    header when it was missing or empty. *)
Definition history_prefix (old : option string) : string :=
  match old with
  | Some (String c s) => String c s
  | Some EmptyString | None => DictWriter_writeheader BALANCES_HEADER
  end.

(** ** The portfolio report *)

(** The accounts the loop asks holdings for. *)
Definition with_holdings (accounts : list Account) : list Account :=
  filter (λ a, 0 < Account_holdingsCount a) accounts.

(** The rows the loop collects from the loaded holdings of each account. *)
Definition backfilled (accounts : list Account) (loaded : list (list Holding))
    : list Holding :=
  concat (zip_with
            (λ a hq, Holding.set_account (Account_account a) <$> hq)
            accounts loaded).

(** [hq] is the load of the answer of the service to a holdings call for
    account [a], the call being one of the remote calls number [lo] to
    [hi - 1]. *)
Definition loaded_for (env : environment) (lo hi : nat) (a : Account)
    (hq : list Holding) : Prop :=
  ∃ n ref payload,
    (lo ≤ n < hi)%nat ∧
    call_outcome env n ref (get_account_holdings (Account_id a)) = Ok payload ∧
    HoldingsQuerySchema.load payload = Ok hq.

(** ** Decimal numerals *)

(** A plain decimal numeral: an optional minus sign, an integer part
    [intpart] and, when [fracpart] is not empty, a point and the fraction
    digits. *)
Definition plain_decimal (neg : bool) (intpart fracpart : list ascii)
    : list ascii :=
  (if neg then ["-"%char] else [])
  ++ intpart
  ++ match fracpart with
     | [] => []
     | _ => "."%char :: fracpart
     end.

(** The numeral is in canonical form: both parts are digits and the integer
    part is ["0"] or starts with another digit. *)
Definition canonical (intpart fracpart : list ascii) : bool :=
  forallb is_digit intpart && forallb is_digit fracpart
  && match intpart with
     | [] => false
     | [c] => true
     | c :: _ => negb (Ascii.eqb c "0")
     end.

Definition plain_text (neg : bool) (intpart fracpart : list ascii) : string :=
  String.string_of_list_ascii (plain_decimal neg intpart fracpart).

(** ** Example responses and runs *)

Definition category_with (id : Z) (name group : string) : Category :=
  {| Category_id := Some id; Category_name := Some name;
     Category_group :=
       Some {| Group_id := Some 7; Group_name := Some group |} |}.

Definition categories_response (cats : list Category) : response string :=
  {| categories := Some cats; allTransactions := None; accounts := None;
     portfolio := None |}.

Definition duplicate_categories : list Category :=
  [category_with 1 "Rent" "Home"; category_with 2 "Shoes" "Personal";
   category_with 1 "Mortgage" "Housing"].

Definition distinct_categories : list Category :=
  [category_with 1 "Rent" "Home"; category_with 2 "Shoes" "Personal"].

Definition transaction_with (id : Z) (amount date : string)
    (category_id : Z) (category_name : string) : TransactionData string :=
  {| TransactionData_id := Some id;
     amount := Some amount;
     date_ := Some date;
     notes := Some None;
     merchant := Some {| Merchant_id := Some 11; Merchant_name := Some "Shop" |};
     account :=
       Some {| AccountData_id := Some 21; displayName := Some "Checking";
               currentBalance := None; holdingsCount := None;
               updatedAt := None |};
     category :=
       Some {| Category_id := Some category_id;
               Category_name := Some category_name;
               Category_group := None |} |}.

Definition transactions_response (txs : list (TransactionData string))
    : response string :=
  {| categories := None;
     allTransactions := Some {| results := Some txs |};
     accounts := None; portfolio := None |}.

Definition example_transactions : list (TransactionData string) :=
  [transaction_with 101 "-12.50" "2026-01-02" 2 "Shoes";
   transaction_with 102 "-900.00" "2026-01-03" 1 "Rent"].

Definition example_catmap : gmap string string :=
  <["1" := "Home"]> (<["2" := "Personal"]> ∅).

Definition utc (y m d h mi s us : Z) : datetime :=
  {| dt_date := {| year := y; month := m; day := d |};
     hour := h; minute := mi; second := s; microsecond := us;
     utcoffset := Some 0 |}.

Definition account_with (id : Z) (name balance : string) (count : Z)
    (updated : datetime) : AccountData string :=
  {| AccountData_id := Some id; displayName := Some name;
     currentBalance := Some balance; holdingsCount := Some count;
     updatedAt := Some updated |}.

Definition accounts_response (l : list (AccountData string))
    : response string :=
  {| categories := None; allTransactions := None; accounts := Some l;
     portfolio := None |}.

Definition example_accounts_response : response string :=
  accounts_response
    [account_with 31 "Checking" "1811.71" 0
       (utc 2026 1 12 14 28 13 637497);
     account_with 32 "Brokerage" "25000.00" 2
       (utc 2026 1 12 3 0 0 0)].

Definition example_accounts : list Account :=
  match AccountsQuerySchema.load system_zones example_accounts_response with
  | Ok l => l
  | Raise _ => []
  end.

Definition holding_edge (id : Z) (symbol quantity_ price basis_ : string)
    : AggregateHoldingEdge string :=
  {| node :=
       Some {| AggregateHolding_id := Some id;
               quantity := Some quantity_;
               basis := Some basis_;
               totalValue := None;
               security :=
                 Some {| Security_id := Some (id + 1000);
                         Security_name := None;
                         ticker := Some symbol;
                         currentPrice := Some price |} |} |}.

Definition holdings_response (es : list (AggregateHoldingEdge string))
    : response string :=
  {| categories := None; allTransactions := None; accounts := None;
     portfolio :=
       Some {| aggregateHoldings := Some {| edges := Some es |} |} |}.

Definition example_holdings_response : response string :=
  holdings_response
    [holding_edge 41 "AAA" "1288.212" "33.03" "2227.6";
     holding_edge 42 "BBB" "10" "7.50" "70.00"].

Definition empty_response : response string :=
  {| categories := None; allTransactions := None; accounts := None;
     portfolio := None |}.

Definition unauthorized : exn := TransportServerError (Some 401) "KDD ERROR".

(** An instance as the tests build it. *)
Definition example_world : world :=
  (__init__ "blah" "blah" "blah" (Some "session.pickle")
     "rb.csv" "rbh.csv" "rt.csv" "rp.csv" 0 ∅).2.

(** A service that answers the calls in turn from a list and accepts every
    login. *)
Definition scripted (answers : list (result (response string)))
    : environment :=
  {| login_outcome := λ _ _ _, Ok ();
     call_outcome := λ n _ _,
       default (Raise (OtherError "ConnectionError" None)) (answers !! n);
     today := {| year := 2026; month := 1; day := 13 |};
     tz := system_zones |}.

Definition unknown_category_run : environment :=
  scripted
    [Ok (categories_response distinct_categories);
     Ok (transactions_response
           [transaction_with 101 "-12.50" "2026-01-02" 2 "Shoes";
            transaction_with 102 "-3.10" "2026-01-03" 3 "Coffee"])].

(** First a 401, then data: the run of [test_get_transactions_401_single_retry]. *)
Definition stale_session_run : environment :=
  scripted [Raise unauthorized; Ok empty_response].

(** The instance after the [await m.login()] of the tests and of [main]. *)
Definition logged_in_world : world :=
  (login stale_session_run true example_world).2.

(** A session that goes stale twice: the accounts are fetched with one
    retry, and later the categories are. *)
Definition twice_stale_run : environment :=
  scripted [Raise unauthorized; Ok empty_response;
            Raise unauthorized; Ok empty_response].

Definition after_first_retry : world :=
  (get_accounts twice_stale_run
     (login twice_stale_run true example_world).2).2.

Definition holdings_run : environment :=
  scripted [Ok example_holdings_response].

(** ** The instance and its clients *)

(** The instance holds the newest client, and every client was constructed
    with the session file of the instance. *)
Definition well_formed (w : world) : Prop :=
  S (mm (self w)) = length (heap w) ∧
  Forall (λ c, MonarchMoney_session_file c = configured_session_file (self w))
    (heap w).

(** Two states of an instance that differ in the client at most. *)
Definition same_configuration (this this' : Monarch) : Prop :=
  with_mm this (mm this') = this'.

(** The methods of the class. *)
Inductive method : Type :=
| Method_login (use_saved_session : bool)
| Method_wrapped (op : wrapped)
| Method_write_transactions (transactions : list Transaction)
| Method_report_transactions
| Method_write_balances (accounts : list Account)
| Method_write_balances_history (accounts : list Account)
| Method_report_balances
| Method_write_portfolio (holdings : list Holding)
| Method_report_portfolio (accounts_query : list Account).

(** A call of a method, its result dropped. *)
Definition run_method (env : environment) (m : method) : M unit :=
  match m with
  | Method_login use_saved_session => login env use_saved_session
  | Method_wrapped op => _ ← run_wrapped env op; mret ()
  | Method_write_transactions transactions => write_transactions transactions
  | Method_report_transactions => report_transactions env
  | Method_write_balances accounts => write_balances accounts
  | Method_write_balances_history accounts => write_balances_history accounts
  | Method_report_balances => _ ← report_balances env; mret ()
  | Method_write_portfolio holdings => write_portfolio holdings
  | Method_report_portfolio accounts_query =>
      report_portfolio env accounts_query
  end.


(** The world after the calls of [ms] in turn, whatever each ends with. *)
Definition after (env : environment) (ms : list method) (w : world) : world :=
  foldl (λ w m, (run_method env m w).2) w ms.

(** What one step may do to the world. *)
Definition evolves (w w' : world) : Prop :=
  (well_formed w → well_formed w') ∧
  same_configuration (self w) (self w') ∧
  trace w `prefix_of` trace w' ∧
  heap w `prefix_of` heap w'.

Definition steady {A} (m : M A) : Prop := ∀ w, evolves w (m w).2.

(** ** Records *)

(** The record written for a transaction. *)
Definition transaction_record (t : Transaction) : list string :=
  [Transaction_date t; Transaction_merchant t; Transaction_category t;
   Transaction_group t; Transaction_account t;
   default "" (Transaction_notes t); Decimal_str (Transaction_amount t)].

(** ** Further example runs *)

(** A service with a stale session that refuses every login. *)
Definition locked_out_run : environment :=
  {| login_outcome := λ _ _ _, Raise (OtherError "LoginFailedException" None);
     call_outcome := λ _ _ _, Raise unauthorized;
     today := {| year := 2026; month := 1; day := 13 |};
     tz := system_zones |}.

(** ** Complete responses of the other schemas *)

(** The key is there and its text is a number [decimal.Decimal] accepts. *)
Definition parses (o : option string) : bool :=
  match o with
  | Some s => present (Decimal_of_str s)
  | None => false
  end.

(** The parsed value of a decimal key. *)
Definition parsed (o : option string) : option Decimal :=
  match o with
  | Some s => Decimal_of_str s
  | None => None
  end.


(** An edge that passes validation and has every key that
    [Holding.__init__] reads. *)
Definition edge_complete (e : AggregateHoldingEdge string) : bool :=
  match node e with
  | Some n =>
      present (AggregateHolding_id n) && parses (quantity n)
      && parses (basis n)
      && match totalValue n with
         | Some t => present (Decimal_of_str t)
         | None => true
         end
      && match security n with
         | Some s =>
             present (Security_id s) && present (ticker s)
             && parses (currentPrice s)
         | None => false
         end
  | None => false
  end.

(** The category of the transaction has an identifier that the lookup
    knows. *)
Definition category_known (catmap : gmap string string)
    (t : TransactionData string) : bool :=
  match category t with
  | Some c =>
      match Category_id c with
      | Some cid => present (catmap !! str_int cid)
      | None => false
      end
  | None => false
  end.

(** The exceptions of a load: [ValidationError] from the schema,
    [KeyError] from a [post_load] hook. *)
Definition load_error (e : exn) : bool :=
  match e with
  | ValidationError _ | KeyError _ => true
  | _ => false
  end.

(** The keys of an edge that [Holding.__init__] reads. *)
Definition edge_quantity {D} (e : AggregateHoldingEdge D) : option D :=
  n ← node e; quantity n.
Definition edge_basis {D} (e : AggregateHoldingEdge D) : option D :=
  n ← node e; basis n.
Definition edge_security {D} (e : AggregateHoldingEdge D)
    : option (Security D) :=
  n ← node e; security n.
Definition edge_ticker {D} (e : AggregateHoldingEdge D) : option string :=
  s ← edge_security e; ticker s.
Definition edge_price {D} (e : AggregateHoldingEdge D) : option D :=
  s ← edge_security e; currentPrice s.

(** A result that, when it is an exception, is one that [p] accepts. *)
Definition raises_only {A} (p : exn → bool) (r : result A) : Prop :=
  match r with
  | Ok _ => True
  | Raise e => p e = true
  end.

(** ** [main] *)

(** No argument that [main] asserts on is empty. *)
Definition arguments_given (a : Namespace) : Prop :=
  arg_username a ≠ "" ∧ arg_password a ≠ "" ∧ arg_token a ≠ "" ∧
  arg_report_balances a ≠ "" ∧ arg_report_balances_history a ≠ "" ∧
  arg_report_transactions a ≠ "" ∧ arg_report_portfolio a ≠ "".

(** The instance [main] constructs, in the world it constructs it in. *)
Definition main_instance (a : Namespace) (files0 : gmap string string)
    : world :=
  (__init__ (arg_username a) (arg_password a) (arg_token a) (arg_session a)
     (arg_report_balances a) (arg_report_balances_history a)
     (arg_report_transactions a) (arg_report_portfolio a) RETRY_DELAY
     files0).2.

(** What [main] does with the instance. *)
Definition run_reports (env : environment) : M unit :=
  _ ← login env true;
  accounts_query ← report_balances env;
  _ ← report_transactions env;
  report_portfolio env accounts_query.


(** The arguments of the tests, with the default report paths. *)
Definition example_arguments : Namespace :=
  {| arg_username := "blah"; arg_password := "blah"; arg_token := "blah";
     arg_session := Some "session.pickle";
     arg_report_balances := FN_BALANCE_REPORT;
     arg_report_balances_history := FN_BALANCE_HISTORY_REPORT;
     arg_report_transactions := FN_TX_REPORT;
     arg_report_portfolio := FN_PORTFOLIO_REPORT |}.

(** ** Dates of the calendar *)

(** [_days_in_month] of the calendar. *)
Definition _days_in_month (y m : Z) : Z :=
  if (m =? 2) && _is_leap y then 29 else _DAYS_IN_MONTH m.

(** A date of the proleptic Gregorian calendar. *)
Definition valid_date (d : date) : bool :=
  (1 <=? year d) && (1 <=? month d) && (month d <=? 12)
  && (1 <=? day d) && (day d <=? _days_in_month (year d) (month d)).

(** The month and day of day [n] of a year, counted from 0: the tail of
    [_ord2ymd]. *)
Definition month_day (y : Z) (leapyear : bool) (n : Z) : date :=
  let m := Z.shiftr (n + 50) 5 in
  let preceding :=
    _DAYS_BEFORE_MONTH m + (if (2 <? m) && leapyear then 1 else 0) in
  if n <? preceding then
    let m' := m - 1 in
    let preceding' :=
      preceding
      - (_DAYS_IN_MONTH m' + (if (m' =? 2) && leapyear then 1 else 0)) in
    {| year := y; month := m'; day := n - preceding' + 1 |}
  else
    {| year := y; month := m; day := n - preceding + 1 |}.

(** ** Reading back what the writers wrote *)

(** A reader for text in the dialect of the writers: every field in
    quotes, a quote inside a field doubled, fields separated by commas and
    records ended by the line terminator.  It is used to show that the text
    of a file determines its records. *)
Inductive reader_state : Type :=
| Record_start
| Field_start
| In_field
| Quote_seen
| CR_seen.

Fixpoint read (s : string) (st : reader_state) (field : string)
    (record : list string) (records : list (list string))
    : option (list (list string)) :=
  match s with
  | EmptyString =>
      match st with
      | Record_start => Some records
      | _ => None
      end
  | String c s' =>
      match st with
      | Record_start | Field_start =>
          if Ascii.eqb c quotechar then read s' In_field "" record records
          else None
      | In_field =>
          if Ascii.eqb c quotechar
          then read s' Quote_seen field record records
          else read s' In_field (field +:+ String c "") record records
      | Quote_seen =>
          if Ascii.eqb c quotechar
          then read s' In_field (field +:+ String c "") record records
          else if Ascii.eqb c ","
          then read s' Field_start "" (record ++ [field]) records
          else if Ascii.eqb c "013"
          then read s' CR_seen "" (record ++ [field]) records
          else None
      | CR_seen =>
          if Ascii.eqb c "010"
          then read s' Record_start "" [] (records ++ [record])
          else None
      end
  end.

Definition read_records (s : string) : option (list (list string)) :=
  read s Record_start "" [] [].

(** ** Requests in a trace *)

(** Every remote call among the events is one that [p] accepts. *)
Definition calls_only (p : rpc → Prop) (evs : list event) : Prop :=
  ∀ ref rq, Call ref rq ∈ evs → p rq.

(** ** Decimal numerals with an exponent *)

(** The exponent part that [Decimal.__str__] writes for exponent [e]. *)
Definition exponent_chars (e : Z) : list ascii :=
  "E"%char :: (if 0 <=? e then ["+"%char] else [])
    ++ String.list_ascii_of_string (str_int e).

(* ===================================================================== *)
(** * Properties *)
(* ===================================================================== *)

(** Library functions are kept folded when goals are simplified. *)
Global Arguments Decimal_of_str : simpl never.
Global Arguments Decimal_str : simpl never.
Global Arguments str_int : simpl never.
Global Arguments date_isoformat : simpl never.
Global Arguments datetime_isoformat : simpl never.
Global Arguments astimezone : simpl never.
Global Arguments csv_record : simpl never.

(** ** Library functions on examples *)

Example Decimal_str_plain :
  Decimal_str <$> Decimal_of_str "1288.212" = Some "1288.212".
Proof. reflexivity. Qed.

Example Decimal_str_trailing_zero :
  Decimal_str <$> Decimal_of_str "-12.50" = Some "-12.50".
Proof. reflexivity. Qed.

Example Decimal_str_small :
  Decimal_str <$> Decimal_of_str "0.0000001" = Some "1E-7".
Proof. reflexivity. Qed.

Example Decimal_str_exponent :
  Decimal_str <$> Decimal_of_str "1e3" = Some "1E+3".
Proof. reflexivity. Qed.

Example Decimal_str_dot :
  Decimal_str <$> Decimal_of_str ".5" = Some "0.5".
Proof. reflexivity. Qed.

Example Decimal_of_str_nan : Decimal_of_str "NaN" = None.
Proof. reflexivity. Qed.

(** ** Comprehensions *)

Lemma comprehension_ext {A B} (f g : A → result B) (l : list A) :
  Forall (λ x, f x = g x) l → comprehension f l = comprehension g l.
Proof.
  induction 1 as [|x l Hx _ IH]; simpl; [done|]. by rewrite Hx, IH.
Qed.

Lemma comprehension_total {A B} (g : A → B) (l : list A) :
  comprehension (λ x, Ok (g x)) l = Ok (g <$> l).
Proof. induction l as [|x l IH]; simpl; [done|]. by rewrite IH. Qed.

Lemma comprehension_Ok {A B} (f : A → result B) (g : A → B) (l : list A) :
  Forall (λ x, f x = Ok (g x)) l → comprehension f l = Ok (g <$> l).
Proof.
  intros H. rewrite <- comprehension_total. by apply comprehension_ext.
Qed.

Lemma comprehension_Forall2 {A B} (f : A → result B) l rows :
  comprehension f l = Ok rows → Forall2 (λ x y, f x = Ok y) l rows.
Proof.
  revert rows. induction l as [|x l IH]; simpl; intros rows H.
  - injection H as <-. constructor.
  - destruct (f x) as [y|] eqn:Hx; simpl in H; [|done].
    destruct (comprehension f l) as [ys|] eqn:Hl; simpl in H; [|done].
    injection H as <-. constructor; auto.
Qed.

Lemma comprehension_Raise {A B} (f : A → result B) l x :
  x ∈ l → is_ok (f x) = false → is_ok (comprehension f l) = false.
Proof.
  induction 1 as [x l|x y l _ IH]; simpl; intros Hx.
  - by destruct (f x).
  - destruct (f y); simpl; [|done].
    specialize (IH Hx). by destruct (comprehension f l).
Qed.

Lemma is_ok_false {A} (r : result A) : is_ok r = false → ∃ e, r = Raise e.
Proof. destruct r; [done|eauto]. Qed.

(** ** The category lookup *)

Lemma category_complete_inv c :
  category_complete c = true →
  ∃ id gid name,
    c = {| Category_id := Some id; Category_name := Category_name c;
           Category_group :=
             Some {| Group_id := Some gid; Group_name := Some name |} |}.
Proof.
  destruct c as [[id|] n [[[gid|] [name|]]|]]; try done.
  intros _. by exists id, gid, name.
Qed.

Lemma CategorySchema_load_complete c :
  category_complete c = true → CategorySchema.load c = Ok c.
Proof.
  intros (id & gid & name & ->)%category_complete_inv. done.
Qed.

Lemma CategoryQuerySchema_validate_complete (r : response string) cats :
  categories r = Some cats →
  forallb category_complete cats = true →
  CategoryQuerySchema.validate r = Ok (Some cats).
Proof.
  intros Hr Hc. unfold CategoryQuerySchema.validate, List_Nested, Nested.
  rewrite Hr.
  rewrite (comprehension_Ok _ id).
  - simpl. by rewrite list_fmap_id.
  - apply Forall_forall. intros c Hin. apply CategorySchema_load_complete.
    rewrite forallb_forall in Hc. apply Hc. by apply list_elem_of_In.
Qed.

Lemma make_map_loop_complete cats catmap :
  forallb category_complete cats = true →
  ∃ kvs,
    mapM category_entry cats = Some kvs ∧
    CategoryQuerySchema.make_map_loop cats catmap
    = Ok (foldl assign catmap kvs).
Proof.
  revert catmap. induction cats as [|c cats IH]; intros catmap Hc.
  - exists []. done.
  - simpl in Hc. apply andb_prop in Hc as [Hc Hcs].
    apply category_complete_inv in Hc as (id & gid & name & ->).
    destruct (IH (<[str_int id := name]> catmap) Hcs) as (kvs & Hkvs & Hloop).
    exists ((id, name) :: kvs). split.
    + simpl. by rewrite Hkvs.
    + simpl. exact Hloop.
Qed.

Lemma foldl_assign_lookup_last kvs catmap pre id name post :
  kvs = pre ++ (id, name) :: post →
  Forall (λ kv, kv.1 ≠ id) post →
  foldl assign catmap kvs !! str_int id = Some name.
Proof.
  intros -> Hpost. rewrite foldl_app. simpl.
  generalize (foldl assign catmap pre). intros m.
  assert (assign m (id, name) !! str_int id = Some name) as Hm
    by apply lookup_insert_eq.
  revert Hm. generalize (assign m (id, name)). clear m.
  induction Hpost as [|[k v] post Hk _ IH]; intros m Hm; simpl; [done|].
  apply IH. unfold assign. simpl in *.
  rewrite lookup_insert_ne; [done|].
  intros Heq. apply Hk. by apply (inj pretty).
Qed.

Lemma foldl_assign_lookup_Some kvs catmap key :
  is_Some (foldl assign catmap kvs !! key) →
  is_Some (catmap !! key) ∨ ∃ kv, kv ∈ kvs ∧ key = str_int kv.1.
Proof.
  revert catmap. induction kvs as [|[k v] kvs IH]; intros m; simpl; [auto|].
  intros [H|(kv & Hin & ->)]%IH.
  - unfold assign in H. simpl in H.
    destruct (decide (str_int k = key)) as [<-|Hne].
    + right. exists (k, v). split; [left|done].
    + rewrite lookup_insert_ne in H by done. auto.
  - right. exists kv. split; [by right|done].
Qed.

Lemma foldl_assign_size_le kvs catmap :
  (size (foldl assign catmap kvs) ≤ size catmap + length kvs)%nat.
Proof.
  revert catmap. induction kvs as [|[k v] kvs IH]; intros m; simpl; [lia|].
  etrans; [apply IH|]. unfold assign. simpl.
  destruct (m !! str_int k) eqn:Hm.
  - rewrite map_size_insert_Some by eauto. lia.
  - rewrite map_size_insert_None by done. lia.
Qed.

Lemma foldl_assign_size_NoDup kvs catmap :
  NoDup (kvs.*1) →
  Forall (λ kv, catmap !! str_int kv.1 = None) kvs →
  size (foldl assign catmap kvs) = (size catmap + length kvs)%nat.
Proof.
  revert catmap. induction kvs as [|[k v] kvs IH]; intros m Hnd Hfresh;
    simpl in *; [lia|].
  apply NoDup_cons in Hnd as [Hk Hnd].
  apply Forall_cons in Hfresh as [Hkm Hfresh]. simpl in Hkm.
  rewrite IH.
  - unfold assign. simpl. rewrite map_size_insert_None by done. lia.
  - done.
  - apply Forall_forall. intros [k' v'] Hin. simpl.
    unfold assign. simpl. rewrite lookup_insert_ne.
    + rewrite Forall_forall in Hfresh. apply (Hfresh _ Hin).
    + intros Heq. apply (inj pretty) in Heq as ->.
      apply Hk. apply list_elem_of_fmap. by exists (k', v').
Qed.

Lemma mapM_category_entry_ids cats kvs :
  mapM category_entry cats = Some kvs →
  Some <$> kvs.*1 = Category_id <$> cats.
Proof.
  revert kvs. induction cats as [|c cats IH]; intros kvs H; simpl in *.
  - by injection H as <-.
  - destruct (category_entry c) as [[k v]|] eqn:Hc; simpl in H; [|done].
    destruct (mapM category_entry cats) as [kvs'|]; simpl in H; [|done].
    injection H as <-. simpl. f_equal; [|by apply IH].
    unfold category_entry in Hc.
    destruct (Category_group c) as [g|]; simpl in Hc; [|done].
    destruct (Group_name g); simpl in Hc; [|done].
    destruct (Category_id c); simpl in Hc; [|done]. by injection Hc as <- _.
Qed.

Lemma mapM_category_entry_split cats kvs pre c post id g name :
  mapM category_entry cats = Some kvs →
  cats = pre ++ c :: post →
  Category_id c = Some id → Category_group c = Some g →
  Group_name g = Some name →
  ∃ kpre kpost,
    kvs = kpre ++ (id, name) :: kpost ∧
    Some <$> kpost.*1 = Category_id <$> post.
Proof.
  intros Hm -> Hid Hg Hn.
  apply mapM_Some in Hm. apply Forall2_app_inv_l in Hm
    as (kpre & krest & _ & Hrest & ->).
  apply Forall2_cons_inv_l in Hrest as (kv & kpost & Hkv & Hpost & ->).
  unfold category_entry in Hkv. rewrite Hg in Hkv. simpl in Hkv.
  rewrite Hn in Hkv. simpl in Hkv. rewrite Hid in Hkv. simpl in Hkv.
  injection Hkv as <-. exists kpre, kpost. split; [done|].
  apply mapM_category_entry_ids. by apply mapM_Some.
Qed.

Lemma foldl_assign_size_lt kvs catmap :
  (∃ kv, kv ∈ kvs ∧ is_Some (catmap !! str_int kv.1)) ∨ ¬ NoDup (kvs.*1) →
  (size (foldl assign catmap kvs) < size catmap + length kvs)%nat.
Proof.
  revert catmap. induction kvs as [|[k v] kvs IH]; intros m H.
  - destruct H as [(kv & Hin & _)|Hnd].
    + by apply elem_of_nil in Hin.
    + destruct Hnd. constructor.
  - simpl. destruct (m !! str_int k) as [old|] eqn:Hm.
    + pose proof (foldl_assign_size_le kvs (assign m (k, v))) as Hle.
      assert (size (assign m (k, v)) = size m) as Hsize.
      { unfold assign. simpl. rewrite map_size_insert_Some; eauto. }
      lia.
    + assert (size (assign m (k, v)) = S (size m)) as Hsize.
      { unfold assign. simpl. by rewrite map_size_insert_None. }
      enough (size (foldl assign (assign m (k, v)) kvs)
              < size (assign m (k, v)) + length kvs)%nat by lia.
      apply IH.
      destruct H as [(kv & Hin & Hsome)|Hnd].
      * apply elem_of_cons in Hin as [->|Hin].
        { simpl in Hsome. rewrite Hm in Hsome. by destruct Hsome. }
        left. exists kv. split; [done|].
        unfold assign. simpl. rewrite lookup_insert.
        case_decide; eauto.
      * simpl in Hnd. rewrite NoDup_cons in Hnd.
        destruct (decide (k ∈ kvs.*1)) as [Hin|Hnin]; [|tauto].
        left. apply list_elem_of_fmap in Hin as ([k' v'] & -> & Hin).
        exists (k', v'). split; [done|].
        unfold assign. simpl. rewrite lookup_insert_eq. eauto.
Qed.

Lemma CategoryQuerySchema_load_complete (r : response string) cats :
  categories r = Some cats →
  forallb category_complete cats = true →
  ∃ kvs,
    mapM category_entry cats = Some kvs ∧
    CategoryQuerySchema.load r = Ok (foldl assign ∅ kvs).
Proof.
  intros Hr Hc. destruct (make_map_loop_complete cats ∅ Hc) as (kvs & Hk & Hl).
  exists kvs. split; [done|].
  unfold CategoryQuerySchema.load.
  rewrite (CategoryQuerySchema_validate_complete r cats Hr Hc). simpl.
  exact Hl.
Qed.

Lemma Some_fmap_NoDup {A} (l : list A) : NoDup (Some <$> l) ↔ NoDup l.
Proof.
  split; [apply NoDup_fmap_1|]. apply NoDup_fmap_2. by intros ?? [=].
Qed.

(** C10: when a category list repeats an identifier, building the lookup
    still succeeds; the identifier is mapped to the group name of the last
    entry that carries it, and the lookup has fewer entries than the list
    has categories. *)
Theorem make_map_last_entry_wins (r : response string) cats :
  categories r = Some cats →
  forallb category_complete cats = true →
  ∃ catmap,
    CategoryQuerySchema.load r = Ok catmap ∧
    (∀ pre c post id g name,
       cats = pre ++ c :: post →
       Category_id c = Some id →
       Category_group c = Some g → Group_name g = Some name →
       Forall (λ c', Category_id c' ≠ Some id) post →
       catmap !! str_int id = Some name) ∧
    (¬ NoDup (Category_id <$> cats) → (size catmap < length cats)%nat).
Proof.
  intros Hr Hc.
  destruct (CategoryQuerySchema_load_complete r cats Hr Hc) as (kvs & Hk & Hl).
  exists (foldl assign ∅ kvs). split; [done|]. split.
  - intros pre c post id g name Hsplit Hid Hg Hn Hpost.
    destruct (mapM_category_entry_split _ _ _ _ _ _ _ _ Hk Hsplit Hid Hg Hn)
      as (kpre & kpost & -> & Hposts).
    eapply foldl_assign_lookup_last; [done|].
    apply Forall_forall. intros kv Hin Heq.
    assert (Some kv.1 ∈ Category_id <$> post) as Hin'.
    { rewrite <- Hposts. apply list_elem_of_fmap. exists kv.1. split; [done|].
      apply list_elem_of_fmap. by exists kv. }
    apply list_elem_of_fmap in Hin' as (c' & Hc' & Hin').
    rewrite Forall_forall in Hpost. apply (Hpost c' Hin'). congruence.
  - intros Hdup.
    pose proof (mapM_category_entry_ids _ _ Hk) as Hids.
    rewrite <- Hids, Some_fmap_NoDup in Hdup.
    pose proof (foldl_assign_size_lt kvs ∅ (or_intror Hdup)) as Hlt.
    rewrite map_size_empty in Hlt.
    apply length_mapM in Hk. lia.
Qed.

Lemma make_map_last_entry_wins_witness :
  ∃ catmap,
    CategoryQuerySchema.load (categories_response duplicate_categories)
    = Ok catmap ∧
    catmap !! "1" = Some "Housing" ∧ (size catmap < 3)%nat.
Proof.
  destruct (make_map_last_entry_wins
              (categories_response duplicate_categories) duplicate_categories
              eq_refl eq_refl) as (catmap & Hload & Hlast & Hsize).
  exists catmap. split; [exact Hload|]. split.
  - apply (Hlast [category_with 1 "Rent" "Home";
                  category_with 2 "Shoes" "Personal"]
             (category_with 1 "Mortgage" "Housing") [] 1
             {| Group_id := Some 7; Group_name := Some "Housing" |} "Housing");
      try reflexivity.
    constructor.
  - apply Hsize. intros Hnd. vm_compute in Hnd.
    apply NoDup_cons in Hnd as [Hnin _]. apply Hnin.
    right. left.
Defined.

(** C9, as stated, fails on a list that repeats an identifier: three
    categories give a lookup of two entries, and the first category's key
    holds the group name of the third. *)
Lemma make_map_duplicate_ids_counterexample :
  CategoryQuerySchema.load (categories_response duplicate_categories)
  = Ok (<["1" := "Housing"]> (<["2" := "Personal"]> ∅)) ∧
  length duplicate_categories = 3%nat ∧
  size (<["1" := "Housing"]> (<["2" := "Personal"]> (∅ : gmap string string)))
  = 2%nat ∧
  (<["1" := "Housing"]> (<["2" := "Personal"]> (∅ : gmap string string)))
    !! str_int 1 ≠ Some "Home".
Proof.
  split; [|split; [|split]].
  - apply (f_equal Ok). apply map_eq. intros k. vm_compute. reflexivity.
  - reflexivity.
  - vm_compute. reflexivity.
  - vm_compute. discriminate.
Qed.

(** C9 (amended): for a category list whose identifiers are pairwise
    distinct, the lookup has exactly one entry per category, under the
    category's stringified identifier and holding its group's name. *)
Theorem make_map_one_entry_per_distinct_id (r : response string) cats :
  categories r = Some cats →
  forallb category_complete cats = true →
  NoDup (Category_id <$> cats) →
  ∃ catmap,
    CategoryQuerySchema.load r = Ok catmap ∧
    size catmap = length cats ∧
    (∀ c id g name,
       c ∈ cats → Category_id c = Some id →
       Category_group c = Some g → Group_name g = Some name →
       catmap !! str_int id = Some name) ∧
    (∀ key, is_Some (catmap !! key) →
       ∃ c id, c ∈ cats ∧ Category_id c = Some id ∧ key = str_int id).
Proof.
  intros Hr Hc Hnd.
  destruct (CategoryQuerySchema_load_complete r cats Hr Hc) as (kvs & Hk & Hl).
  pose proof (mapM_category_entry_ids _ _ Hk) as Hids.
  exists (foldl assign ∅ kvs). split; [done|]. split; [|split].
  - rewrite foldl_assign_size_NoDup.
    + rewrite map_size_empty. apply length_mapM in Hk. lia.
    + by rewrite <- Hids, Some_fmap_NoDup in Hnd.
    + apply Forall_forall. intros kv _. apply lookup_empty.
  - intros c id g name Hin Hid Hg Hn.
    apply list_elem_of_split in Hin as (pre & post & Hsplit).
    destruct (mapM_category_entry_split _ _ _ _ _ _ _ _ Hk Hsplit Hid Hg Hn)
      as (kpre & kpost & -> & Hposts).
    eapply foldl_assign_lookup_last; [done|].
    apply Forall_forall. intros kv Hin Heq.
    rewrite Hsplit, fmap_app, fmap_cons in Hnd.
    apply NoDup_app in Hnd as (_ & _ & Hnd).
    apply NoDup_cons in Hnd as [Hnin _]. apply Hnin.
    rewrite Hid, <- Hposts. apply list_elem_of_fmap. exists kv.1.
    split; [by rewrite Heq|]. apply list_elem_of_fmap. by exists kv.
  - intros key [H|(kv & Hin & ->)]%foldl_assign_lookup_Some.
    + rewrite lookup_empty in H. by destruct H.
    + assert (Some kv.1 ∈ Category_id <$> cats) as Hin'.
      { rewrite <- Hids. apply list_elem_of_fmap. exists kv.1. split; [done|].
        apply list_elem_of_fmap. by exists kv. }
      apply list_elem_of_fmap in Hin' as (c & Hc' & Hin').
      exists c, kv.1. done.
Qed.

Lemma make_map_one_entry_per_distinct_id_witness :
  ∃ catmap,
    CategoryQuerySchema.load (categories_response distinct_categories)
    = Ok catmap ∧
    size catmap = 2%nat ∧ catmap !! "2" = Some "Personal".
Proof.
  assert (NoDup (Category_id <$> distinct_categories)) as Hnd.
  { apply (bool_decide_unpack _). by vm_compute. }
  destruct (make_map_one_entry_per_distinct_id
              (categories_response distinct_categories) distinct_categories
              eq_refl eq_refl Hnd) as (catmap & Hload & Hsize & Hget & _).
  exists catmap. split; [exact Hload|]. split; [exact Hsize|].
  apply (Hget (category_with 2 "Shoes" "Personal") 2
           {| Group_id := Some 7; Group_name := Some "Personal" |});
    try reflexivity.
  right. left.
Defined.

(** ** Mapping transactions *)

Lemma result_bind_Ok_inv {A B} (f : A → result B) (r : result A) y :
  r ≫= f = Ok y → ∃ x, r = Ok x ∧ f x = Ok y.
Proof. destruct r as [x|]; [eauto|done]. Qed.

Lemma present_Some {A} (o : option A) : present o = true → ∃ a, o = Some a.
Proof. destruct o; [eauto|done]. Qed.

Ltac destruct_present H :=
  repeat match type of H with
  | context [match ?o with Some _ => _ | None => _ end] =>
      destruct o eqn:?; [|discriminate H]
  end.

Lemma Transaction_of_complete t catmap c cid g :
  transaction_complete t = true →
  category t = Some c → Category_id c = Some cid →
  catmap !! str_int cid = Some g →
  ∃ t' row,
    TransactionSchema.load t = Ok t' ∧
    Transaction.__init__ t' catmap = Ok row ∧
    Transaction_group row = g ∧
    date_ t = Some (Transaction_date row) ∧
    (merchant t ≫= Merchant_name) = Some (Transaction_merchant row) ∧
    Category_name c = Some (Transaction_category row) ∧
    (account t ≫= displayName) = Some (Transaction_account row) ∧
    notes t = Some (Transaction_notes row) ∧
    (amount t ≫= Decimal_of_str) = Some (Transaction_amount row).
Proof.
  intros Hc Hcat Hcid Hg.
  destruct t as [tid am d n m a c0]. simpl in *. subst c0.
  unfold transaction_complete in Hc. simpl in Hc.
  destruct tid as [tid|]; [|done]. destruct am as [am|]; [|done].
  destruct d as [d|]; [|done]. destruct n as [n|]; [|done].
  destruct m as [[mid mn]|]; [|done]. destruct a as [[aid dn bal hc ua]|]; [|done].
  destruct c as [cid' cn cg]. simpl in *. subst cid'.
  repeat (apply andb_prop in Hc as [Hc ?]).
  destruct (Decimal_of_str am) as [amd|] eqn:Ham; [|done].
  destruct mid as [mid|]; [|done]. destruct mn as [mn|]; [|done].
  destruct aid as [aid|]; [|done]. destruct dn as [dn|]; [|done].
  destruct cn as [cn|]; [|done].
  destruct bal as [bal|];
    [destruct (Decimal_of_str bal) as [bd|] eqn:Hbal; [|done]|];
    (eexists _, _; split;
     [unfold TransactionSchema.load, AccountSchema.load; simpl;
      rewrite ?Ham, ?Hbal; simpl; reflexivity|];
     unfold Transaction.__init__; simpl; rewrite Hg; simpl;
     split; [reflexivity|]; simpl; by rewrite ?Ham).
Qed.

Lemma TransactionsQuerySchema_load_unfold catmap (r : response string) l txs :
  allTransactions r = Some l → results l = Some txs →
  TransactionsQuerySchema.load (Some catmap) r
  = (txs' ← comprehension TransactionSchema.load txs;
     comprehension (λ row, Transaction.__init__ row catmap) txs').
Proof.
  intros Hr Hl. unfold TransactionsQuerySchema.load,
    TransactionsQuerySchema.validate, Nested, TransactionListSchema.load,
    List_Nested, Nested.
  rewrite Hr, Hl.
  destruct (comprehension TransactionSchema.load txs); done.
Qed.

(** C3: with every key in place and every referenced category in the
    lookup, the mapping yields one row per transaction, in input order, and
    the group of each row is the lookup's value for the stringified category
    identifier of its transaction. *)
Theorem transactions_mapped_in_order (r : response string) l txs catmap :
  allTransactions r = Some l → results l = Some txs →
  forallb transaction_complete txs = true →
  (∀ tx c id,
     tx ∈ txs → category tx = Some c → Category_id c = Some id →
     is_Some (catmap !! str_int id)) →
  ∃ rows,
    TransactionsQuerySchema.load (Some catmap) r = Ok rows ∧
    length rows = length txs ∧
    ∀ i tx, txs !! i = Some tx →
      ∃ row c id,
        rows !! i = Some row ∧
        category tx = Some c ∧ Category_id c = Some id ∧
        catmap !! str_int id = Some (Transaction_group row) ∧
        date_ tx = Some (Transaction_date row) ∧
        (merchant tx ≫= Merchant_name) = Some (Transaction_merchant row) ∧
        Category_name c = Some (Transaction_category row) ∧
        (account tx ≫= displayName) = Some (Transaction_account row) ∧
        notes tx = Some (Transaction_notes row) ∧
        (amount tx ≫= Decimal_of_str) = Some (Transaction_amount row).
Proof.
  intros Hr Hl Hc Hcat.
  rewrite (TransactionsQuerySchema_load_unfold catmap r l txs Hr Hl).
  clear Hr Hl r l.
  induction txs as [|tx txs IH].
  - exists []. split; [done|]. split; [done|]. intros i tx Hi. done.
  - simpl in Hc. apply andb_prop in Hc as [Hc Hcs].
    destruct IH as (rows & Hrows & Hlen & Hidx); [done|..].
    { intros tx' c id Hin. apply Hcat. by right. }
    assert (∃ c id, category tx = Some c ∧ Category_id c = Some id)
      as (c & id & Hcat1 & Hid).
    { unfold transaction_complete in Hc. destruct_present Hc.
      repeat (apply andb_prop in Hc as [Hc ?]).
      destruct (present_Some (Category_id c)) as [id Hid]; eauto. }
    destruct (Hcat tx c id) as [g Hg]; [by left|done..|].
    destruct (Transaction_of_complete tx catmap c id g Hc Hcat1 Hid Hg)
      as (t' & row & Hload & Hinit & Hgroup & Hfields).
    apply result_bind_Ok_inv in Hrows as (txs' & Htxs' & Hrows).
    exists (row :: rows). split; [|split].
    + simpl. rewrite Hload. simpl. rewrite Htxs'. simpl.
      rewrite Hinit. simpl. by rewrite Hrows.
    + simpl. by rewrite Hlen.
    + intros [|i] tx' Hi; simpl in Hi.
      * injection Hi as <-. exists row, c, id. subst g. simpl. done.
      * apply Hidx in Hi. exact Hi.
Qed.

Lemma transactions_mapped_in_order_witness :
  ∃ rows,
    TransactionsQuerySchema.load (Some example_catmap)
      (transactions_response example_transactions) = Ok rows ∧
    length rows = 2%nat ∧
    Transaction_group <$> rows = ["Personal"; "Home"].
Proof.
  destruct (transactions_mapped_in_order
              (transactions_response example_transactions)
              {| results := Some example_transactions |}
              example_transactions example_catmap eq_refl eq_refl eq_refl)
    as (rows & Hload & Hlen & Hidx).
  { intros tx c id Hin.
    repeat (apply elem_of_cons in Hin as [->|Hin]);
      [intros [= <-] [= <-]; vm_compute; eauto..|].
    by apply elem_of_nil in Hin. }
  exists rows. split; [exact Hload|]. split; [exact Hlen|].
  destruct (Hidx 0%nat _ eq_refl)
    as (r0 & c0 & i0 & Hr0 & [= <-] & [= <-] & Hg0 & _).
  destruct (Hidx 1%nat _ eq_refl)
    as (r1 & c1 & i1 & Hr1 & [= <-] & [= <-] & Hg1 & _).
  destruct rows as [|x0 [|x1 [|x2 rows]]]; try discriminate Hlen.
  injection Hr0 as ->. injection Hr1 as ->.
  assert (Some (Transaction_group r0) = Some "Personal") as Hk0
    by (rewrite <- Hg0; vm_compute; reflexivity).
  assert (Some (Transaction_group r1) = Some "Home") as Hk1
    by (rewrite <- Hg1; vm_compute; reflexivity).
  injection Hk0 as Hk0. injection Hk1 as Hk1.
  simpl. rewrite Hk0, Hk1. reflexivity.
Defined.

(** ** A category missing from the lookup *)

Lemma Transaction_init_missing_category t catmap c cid :
  category t = Some c → Category_id c = Some cid →
  catmap !! str_int cid = None →
  is_ok (Transaction.__init__ t catmap) = false.
Proof.
  intros Hc Hid Hm. unfold Transaction.__init__. rewrite Hc.
  destruct (date_ t); [simpl|done].
  destruct (merchant t) as [m|]; [simpl|done].
  destruct (Merchant_name m); [simpl|done].
  destruct (Category_name c); [simpl|done].
  rewrite Hid. simpl. by rewrite Hm.
Qed.

Lemma TransactionSchema_load_category t t' c cid :
  TransactionSchema.load t = Ok t' →
  category t = Some c → Category_id c = Some cid →
  ∃ c', category t' = Some c' ∧ Category_id c' = Some cid.
Proof.
  unfold TransactionSchema.load. intros H Hc Hid.
  apply result_bind_Ok_inv in H as (? & _ & H).
  apply result_bind_Ok_inv in H as (? & _ & H).
  apply result_bind_Ok_inv in H as (? & _ & H).
  apply result_bind_Ok_inv in H as (? & _ & H).
  apply result_bind_Ok_inv in H as (c' & Hc' & H).
  injection H as <-. simpl.
  rewrite Hc in Hc'. unfold Nested, CategorySchema'.load in Hc'.
  rewrite Hid in Hc'. simpl in Hc'. injection Hc' as <-. eauto.
Qed.

Lemma TransactionsQuerySchema_load_missing catmap (r : response string)
    l txs tx c cid :
  allTransactions r = Some l → results l = Some txs →
  tx ∈ txs → category tx = Some c → Category_id c = Some cid →
  catmap !! str_int cid = None →
  is_ok (TransactionsQuerySchema.load (Some catmap) r) = false.
Proof.
  intros Hr Hl Hin Hc Hid Hm.
  rewrite (TransactionsQuerySchema_load_unfold catmap r l txs Hr Hl).
  destruct (comprehension TransactionSchema.load txs) as [txs'|] eqn:Hv;
    [simpl|done].
  apply comprehension_Forall2 in Hv.
  apply list_elem_of_lookup in Hin as [i Hi].
  destruct (Forall2_lookup_l _ _ _ _ _ Hv Hi) as (tx' & Hi' & Hload).
  destruct (TransactionSchema_load_category _ _ _ _ Hload Hc Hid)
    as (c' & Hc' & Hid').
  eapply comprehension_Raise.
  - eapply list_elem_of_lookup_2, Hi'.
  - by eapply Transaction_init_missing_category.
Qed.

(** ** Remote calls leave the files alone *)

Lemma keeps_files_bind {A B} (m : M A) (f : A → M B) :
  keeps_files m → (∀ a, keeps_files (f a)) → keeps_files (m ≫= f).
Proof.
  intros Hm Hf w. unfold mbind, M_bind. specialize (Hm w).
  destruct (m w) as [[a|e] w1]; simpl in *; [|done].
  by rewrite Hf.
Qed.

Lemma keeps_files_login env use_saved_session :
  keeps_files (login env use_saved_session).
Proof.
  unfold login. apply keeps_files_bind.
  - destruct use_saved_session; simpl; [done|].
    unfold _init_mm. apply keeps_files_bind; [done|]. intros this.
    apply keeps_files_bind; [by destruct (truth _)|done].
  - intros _. apply keeps_files_bind; done.
Qed.

Lemma keeps_files_retrying {A} env n (fn : M A) :
  keeps_files fn → keeps_files (retrying env n fn).
Proof.
  intros Hfn. induction n as [|n IH]; intros w; simpl;
    specialize (Hfn w); destruct (fn w) as [[a|e] w1]; simpl in *; try done.
  - by destruct (retry e).
  - destruct (retry e); [|done].
    rewrite <- Hfn.
    assert (keeps_files
              (sleep ← wait_from_instance;
               _ ← login_before_sleep env;
               _ ← log (Sleep sleep); retrying env n fn)) as Hk.
    { apply keeps_files_bind; [by apply keeps_files_bind|]. intros d.
      apply keeps_files_bind; [apply keeps_files_login|]. intros _.
      apply keeps_files_bind; [done|]. intros _. exact IH. }
    apply Hk.
Qed.

Lemma keeps_files_get_categories env : keeps_files (get_categories env).
Proof. apply keeps_files_retrying, keeps_files_bind; done. Qed.

Lemma keeps_files_get_transactions env : keeps_files (get_transactions env).
Proof. apply keeps_files_retrying, keeps_files_bind; done. Qed.

Lemma keeps_files_get_accounts env : keeps_files (get_accounts env).
Proof. apply keeps_files_retrying, keeps_files_bind; done. Qed.

Lemma keeps_files_get_holdings env id : keeps_files (get_holdings env id).
Proof. apply keeps_files_retrying, keeps_files_bind; done. Qed.

(** C4: when a transaction refers to a category that the lookup lacks, the
    load of the transaction response raises, so there are no rows at all
    and nothing stands in for the group; [report_transactions] ends with
    that exception and the files are as they were before it ran. *)
Theorem missing_category_fails_whole_batch env w cats w1 catmap
    (txs_response : response string) w2 l txs tx c cid :
  get_categories env w = (Ok cats, w1) →
  CategoryQuerySchema.load cats = Ok catmap →
  get_transactions env w1 = (Ok txs_response, w2) →
  allTransactions txs_response = Some l → results l = Some txs →
  tx ∈ txs → category tx = Some c → Category_id c = Some cid →
  catmap !! str_int cid = None →
  ∃ e,
    TransactionsQuerySchema.load (Some catmap) txs_response = Raise e ∧
    report_transactions env w = (Raise e, w2) ∧
    files w2 = files w.
Proof.
  intros Hcats Hmap Htxs Hr Hl Hin Hc Hid Hm.
  destruct (is_ok_false _
              (TransactionsQuerySchema_load_missing catmap txs_response
                 l txs tx c cid Hr Hl Hin Hc Hid Hm)) as [e He].
  exists e. split; [done|]. split.
  - unfold report_transactions, mbind, M_bind, lift.
    rewrite Hcats, Hmap, Htxs, He. done.
  - pose proof (keeps_files_get_categories env w) as H1.
    pose proof (keeps_files_get_transactions env w1) as H2.
    rewrite Hcats in H1. rewrite Htxs in H2. simpl in *. congruence.
Qed.

Lemma missing_category_fails_whole_batch_witness :
  ∃ e w',
    report_transactions unknown_category_run example_world = (Raise e, w') ∧
    files w' = files example_world.
Proof.
  destruct (missing_category_fails_whole_batch unknown_category_run
              example_world
              (categories_response distinct_categories)
              (get_categories unknown_category_run example_world).2
              (<["2" := "Personal"]> (<["1" := "Home"]> ∅))
              (transactions_response
                 [transaction_with 101 "-12.50" "2026-01-02" 2 "Shoes";
                  transaction_with 102 "-3.10" "2026-01-03" 3 "Coffee"])
              (get_transactions unknown_category_run
                 (get_categories unknown_category_run example_world).2).2
              {| results :=
                   Some [transaction_with 101 "-12.50" "2026-01-02" 2 "Shoes";
                         transaction_with 102 "-3.10" "2026-01-03" 3 "Coffee"] |}
              [transaction_with 101 "-12.50" "2026-01-02" 2 "Shoes";
               transaction_with 102 "-3.10" "2026-01-03" 3 "Coffee"]
              (transaction_with 102 "-3.10" "2026-01-03" 3 "Coffee")
              {| Category_id := Some 3; Category_name := Some "Coffee";
                 Category_group := None |}
              3)
    as (e & _ & Hreport & Hfiles).
  - vm_compute. reflexivity.
  - vm_compute. reflexivity.
  - vm_compute. reflexivity.
  - reflexivity.
  - reflexivity.
  - right. left.
  - reflexivity.
  - reflexivity.
  - vm_compute. reflexivity.
  - eauto.
Defined.

(** ** The retry policy *)

Lemma run_wrapped_unfold env op w :
  run_wrapped env op w = retrying env 1 (attempt env op) w.
Proof. by destruct op. Qed.

Lemma logins_app tr tr' : logins (tr ++ tr') = (logins tr + logins tr')%nat.
Proof. unfold logins. by rewrite filter_app, length_app. Qed.

Lemma calls_app tr tr' : calls (tr ++ tr') = (calls tr + calls tr')%nat.
Proof. unfold calls. by rewrite filter_app, length_app. Qed.

Lemma attempt_eq env op w :
  attempt env op w
  = (call_outcome env (calls (trace w)) (mm (self w)) (request_of env op),
     extend w [Call (mm (self w)) (request_of env op)]).
Proof. reflexivity. Qed.

Lemma _init_mm_eq w : _init_mm w = (Ok (), renewed w).
Proof.
  unfold _init_mm, renewed, configured_session_file, mbind, M_bind,
    get_self, MonarchMoney_new, set_mm.
  by destruct (truth (session_file (self w))).
Qed.

Lemma login_false_eq env w :
  login env false w
  = (login_outcome env (logins (trace w)) (length (heap w)) false,
     extend (renewed w) [forced_login (self w) (length (heap w))]).
Proof.
  unfold login. simpl. unfold mbind, M_bind at 1. rewrite _init_mm_eq.
  unfold mbind, M_bind, get_self, MonarchMoney_login. simpl.
  rewrite logins_app. simpl. by rewrite Nat.add_0_r.
Qed.

(** What the loop does after a first attempt that raised [e] and is to be
    retried. *)
Lemma retrying_after_401 env op w e :
  call_outcome env (calls (trace w)) (mm (self w)) (request_of env op)
  = Raise e →
  retry e = true →
  let c := mm (self w) in
  let c' := length (heap w) in
  let w2 :=
    extend (renewed (extend w [Call c (request_of env op)]))
      [forced_login (self w) c'] in
  run_wrapped env op w
  = match login_outcome env (logins (trace w)) c' false with
    | Ok _ =>
        (call_outcome env (S (calls (trace w))) c' (request_of env op),
         extend w2 [Sleep (retry_delay (self w)); Call c' (request_of env op)])
    | Raise e' => (Raise e', w2)
    end.
Proof.
  intros H1 H2. simpl. rewrite run_wrapped_unfold.
  cbn [retrying]. rewrite attempt_eq, H1, H2.
  unfold mbind at 1. unfold M_bind at 1.
  unfold wait_from_instance at 1. unfold mbind at 1. unfold M_bind at 1.
  cbn [get_self mret M_ret].
  unfold mbind at 1. unfold M_bind at 1.
  unfold login_before_sleep. rewrite login_false_eq.
  cbn [extend trace heap self]. rewrite logins_app. cbn [logins filter].
  simpl (length (filter _ [_])). rewrite Nat.add_0_r.
  destruct (login_outcome env (logins (trace w)) (length (heap w)) false)
    as [[]|e']; [|done].
  unfold mbind at 1. unfold M_bind at 1. cbn [log].
  rewrite attempt_eq. cbn [trace self mm renewed with_mm extend].
  rewrite !calls_app.
  repeat match goal with
  | |- context [calls [?ev]] =>
      let v := eval cbv in (calls [ev]) in change (calls [ev]) with v
  end.
  replace (calls (trace w) + 1 + 0 + 0 + 0)%nat with (S (calls (trace w)))
    by lia.
  unfold extend. cbn [self heap trace files renewed with_mm mm retry_delay].
  rewrite <- !app_assoc. simpl.
  destruct (call_outcome env (S (calls (trace w))) (length (heap w))
              (request_of env op)) as [a|e2]; [done|].
  by destruct (retry e2).
Qed.

Lemma retry_401 e :
  retry e = true ↔ ∃ message, e = TransportServerError (Some 401) message.
Proof.
  split.
  - destruct e as [code message| | |]; try done.
    unfold retry, is_exception_401. simpl. intros H%bool_decide_eq_true.
    subst code. eauto.
  - by intros [message ->].
Qed.

Lemma retry_other e :
  (∀ message, e ≠ TransportServerError (Some 401) message) → retry e = false.
Proof.
  intros H. destruct (retry e) eqn:He; [|done].
  apply retry_401 in He as [message ->]. by destruct (H message).
Qed.

Lemma run_wrapped_no_retry env op w :
  match call_outcome env (calls (trace w)) (mm (self w)) (request_of env op)
  with
  | Ok _ => True
  | Raise e => retry e = false
  end →
  run_wrapped env op w
  = (call_outcome env (calls (trace w)) (mm (self w)) (request_of env op),
     extend w [Call (mm (self w)) (request_of env op)]).
Proof.
  rewrite run_wrapped_unfold. cbn [retrying]. rewrite attempt_eq.
  destruct (call_outcome env (calls (trace w)) (mm (self w))
              (request_of env op)) as [a|e]; [done|].
  by intros ->.
Qed.

Ltac count_events :=
  cbn [extend renewed trace]; rewrite ?logins_app, ?calls_app;
  repeat match goal with
  | |- context [calls [?ev]] =>
      let v := eval cbv in (calls [ev]) in change (calls [ev]) with v
  | |- context [calls [?ev; ?ev']] =>
      let v := eval cbv in (calls [ev; ev']) in
      change (calls [ev; ev']) with v
  | |- context [logins [?ev]] =>
      let v := eval cbv in (logins [ev]) in change (logins [ev]) with v
  | |- context [logins [?ev; ?ev']] =>
      let v := eval cbv in (logins [ev; ev']) in
      change (logins [ev; ev']) with v
  end;
  lia.

(** C1 (amended): around each of the four remote calls, a first attempt
    that fails with a [TransportServerError] of code 401 is followed by
    exactly one forced login and one more attempt, whose payload or
    exception is the outcome; any other first failure is the outcome at
    once, with no login and no second attempt.  The function makes one login
    of its own, so a session that had logged in once has logged in twice
    afterwards. *)
Theorem retry_once_on_401 env (op : wrapped) w :
  let n := calls (trace w) in
  let c := mm (self w) in
  let c' := length (heap w) in
  let req := request_of env op in
  (∀ message payload,
     call_outcome env n c req
     = Raise (TransportServerError (Some 401) message) →
     login_outcome env (logins (trace w)) c' false = Ok () →
     call_outcome env (S n) c' req = Ok payload →
     ∃ w', run_wrapped env op w = (Ok payload, w') ∧
           calls (trace w') = (n + 2)%nat ∧
           logins (trace w') = (logins (trace w) + 1)%nat ∧
           (logins (trace w) = 1%nat → logins (trace w') = 2%nat)) ∧
  (∀ e,
     call_outcome env n c req = Raise e →
     (∀ message, e ≠ TransportServerError (Some 401) message) →
     ∃ w', run_wrapped env op w = (Raise e, w') ∧
           calls (trace w') = (n + 1)%nat ∧
           logins (trace w') = logins (trace w)) ∧
  (∀ message message',
     call_outcome env n c req
     = Raise (TransportServerError (Some 401) message) →
     login_outcome env (logins (trace w)) c' false = Ok () →
     call_outcome env (S n) c' req
     = Raise (TransportServerError (Some 401) message') →
     ∃ w', run_wrapped env op w
           = (Raise (TransportServerError (Some 401) message'), w') ∧
           calls (trace w') = (n + 2)%nat ∧
           logins (trace w') = (logins (trace w) + 1)%nat).
Proof.
  intros n c c' req. split; [|split].
  - intros message payload H1 Hlogin H2.
    pose proof (retrying_after_401 env op w _ H1 eq_refl) as Hrun.
    cbv zeta in Hrun. fold c c' req n in Hrun.
    rewrite Hlogin, H2 in Hrun.
    eexists. split; [exact Hrun|].
    assert (∀ a b : nat, a = (b + 1)%nat → b = 1%nat → a = 2%nat) as Htwo
      by lia.
    split; [count_events|]. split; [count_events|].
    apply Htwo. count_events.
  - intros e H1 Hother.
    pose proof (run_wrapped_no_retry env op w) as Hrun.
    fold c req n in Hrun. rewrite H1 in Hrun.
    specialize (Hrun (retry_other e Hother)).
    eexists. split; [exact Hrun|]. split; count_events.
  - intros message message' H1 Hlogin H2.
    pose proof (retrying_after_401 env op w _ H1 eq_refl) as Hrun.
    cbv zeta in Hrun. fold c c' req n in Hrun.
    rewrite Hlogin, H2 in Hrun.
    eexists. split; [exact Hrun|]. split; count_events.
Qed.

Lemma retry_once_on_401_witness :
  ∃ w',
    get_transactions stale_session_run logged_in_world
    = (Ok empty_response, w') ∧
    calls (trace w') = 2%nat ∧ logins (trace w') = 2%nat.
Proof.
  destruct (retry_once_on_401 stale_session_run Get_transactions
              logged_in_world) as (Hretry & _ & _).
  destruct (Hretry "KDD ERROR" empty_response)
    as (w' & Hrun & Hcalls & _ & Hlogins);
    [vm_compute; reflexivity..|].
  exists w'. split; [exact Hrun|]. split; [exact Hcalls|].
  apply Hlogins. vm_compute. reflexivity.
Defined.

(** C1, as stated, fails when the instance has not logged in exactly once
    before the call.  Without an earlier login, as in [test_wrapper_login],
    a 401 followed by a success makes one login, not two; and when an
    earlier call of the run has already been retried, the count stands at
    three after the next 401 and success. *)
Lemma retry_single_login_counterexample :
  ((get_transactions stale_session_run example_world).1 = Ok empty_response ∧
   logins (trace example_world) = 0%nat ∧
   calls (trace (get_transactions stale_session_run example_world).2) = 2%nat ∧
   logins (trace (get_transactions stale_session_run example_world).2)
   = 1%nat) ∧
  ((get_categories twice_stale_run after_first_retry).1 = Ok empty_response ∧
   logins (trace after_first_retry) = 2%nat ∧
   calls (trace (get_categories twice_stale_run after_first_retry).2)
   = (calls (trace after_first_retry) + 2)%nat ∧
   logins (trace (get_categories twice_stale_run after_first_retry).2)
   = 3%nat).
Proof. vm_compute. done. Qed.

(** C2: after a first attempt that fails with a 401, and before anything
    else, a new client is constructed, with a reference that no existing
    client has and with the session file the instance is configured with;
    the login that follows is made on that client with [use_saved_session]
    off, and so is the second attempt.  Nothing after the failure is sent
    through the old client. *)
Theorem retry_builds_new_client env (op : wrapped) w message :
  (mm (self w) < length (heap w))%nat →
  call_outcome env (calls (trace w)) (mm (self w)) (request_of env op)
  = Raise (TransportServerError (Some 401) message) →
  let c := mm (self w) in
  let c' := length (heap w) in
  let sf := configured_session_file (self w) in
  let req := request_of env op in
  ∃ r w' rest,
    run_wrapped env op w = (r, w') ∧
    c' ≠ c ∧ heap w !! c' = None ∧
    heap w' = heap w ++ [{| MonarchMoney_session_file := sf |}] ∧
    mm (self w') = c' ∧
    session_file (self w') = session_file (self w) ∧
    trace w'
    = trace w
      ++ [Call c req; Construct c' sf;
          Login c' (un (self w)) (pw (self w)) true false (token (self w))]
      ++ rest ∧
    match login_outcome env (logins (trace w)) c' false with
    | Ok _ =>
        rest = [Sleep (retry_delay (self w)); Call c' req] ∧
        r = call_outcome env (S (calls (trace w))) c' req
    | Raise e => rest = [] ∧ r = Raise e
    end.
Proof.
  intros Hmm H1 c c' sf req.
  pose proof (retrying_after_401 env op w _ H1 eq_refl) as Hrun.
  cbv zeta in Hrun. fold c c' req in Hrun.
  destruct (login_outcome env (logins (trace w)) c' false) as [[]|e'].
  - eexists _, _, _. split; [exact Hrun|].
    split; [unfold c, c'; lia|].
    split; [by apply lookup_ge_None_2|].
    split; [reflexivity|]. split; [reflexivity|]. split; [reflexivity|].
    split; [|split; reflexivity].
    cbn [extend renewed trace]. by rewrite <- !app_assoc.
  - eexists _, _, _. split; [exact Hrun|].
    split; [unfold c, c'; lia|].
    split; [by apply lookup_ge_None_2|].
    split; [reflexivity|]. split; [reflexivity|]. split; [reflexivity|].
    split; [|split; reflexivity].
    cbn [extend renewed trace]. by rewrite <- !app_assoc, app_nil_r.
Qed.

Lemma retry_builds_new_client_witness :
  ∃ w',
    get_transactions stale_session_run logged_in_world
    = (Ok empty_response, w') ∧
    heap w' = [{| MonarchMoney_session_file := Some "session.pickle" |};
               {| MonarchMoney_session_file := Some "session.pickle" |}] ∧
    mm (self w') = 1%nat ∧
    drop 3 (trace w')
    = [Construct 1 (Some "session.pickle");
       Login 1 "blah" "blah" true false "blah"; Sleep 0;
       Call 1 (get_transactions_call 10000 "2026-01-01" "2026-01-13")].
Proof.
  assert (mm (self logged_in_world) < length (heap logged_in_world))%nat
    as Hmm by (vm_compute; lia).
  destruct (retry_builds_new_client stale_session_run Get_transactions
              logged_in_world "KDD ERROR" Hmm)
    as (r & w' & rest & Hrun & _ & _ & Hheap & Href & _ & Htrace & Hrest).
  { vm_compute. reflexivity. }
  cbv zeta in Hrest.
  assert (login_outcome stale_session_run
            (logins (trace logged_in_world))
            (length (heap logged_in_world)) false = Ok ()) as Hlogin
    by (vm_compute; reflexivity).
  rewrite Hlogin in Hrest. destruct Hrest as [-> ->].
  exists w'. split; [exact Hrun|].
  split; [rewrite Hheap; vm_compute; reflexivity|].
  split; [rewrite Href; vm_compute; reflexivity|].
  rewrite Htrace. vm_compute. reflexivity.
Defined.

(** ** Strings *)

Lemma append_cons c s t : String c s +:+ t = String c (s +:+ t).
Proof. reflexivity. Qed.

Lemma append_nil_l s : "" +:+ s = s.
Proof. reflexivity. Qed.

Lemma append_nil_r s : s +:+ "" = s.
Proof. induction s as [|c s IH]; [done|]. by rewrite append_cons, IH. Qed.

Lemma append_assoc s t u : (s +:+ t) +:+ u = s +:+ t +:+ u.
Proof. induction s as [|c s IH]; [done|]. by rewrite !append_cons, IH. Qed.

(** ** Writing rows *)

Lemma csv_lines_app rs rs' : csv_lines (rs ++ rs') = csv_lines rs +:+ csv_lines rs'.
Proof.
  induction rs as [|r rs IH]; [done|]. simpl. by rewrite IH, append_assoc.
Qed.

Lemma write_eq path text w :
  write path text w
  = (Ok (), with_file w path (default "" (files w !! path) +:+ text)).
Proof. reflexivity. Qed.

Lemma with_file_with_file w path c c' :
  with_file (with_file w path c) path c' = with_file w path c'.
Proof. unfold with_file. simpl. by rewrite insert_insert_eq. Qed.

(** Rows whose dictionaries the writer accepts are written one record
    each, after what the file already holds. *)
Lemma write_rows_eq path fieldnames extras rows records w content :
  Forall2 (λ row fields, _dict_to_list fieldnames extras row = Ok fields)
    rows records →
  write_rows path fieldnames extras rows (with_file w path content)
  = (Ok (), with_file w path (content +:+ csv_lines records)).
Proof.
  intros H. revert content.
  induction H as [|row fields rows records Hrow _ IH]; intros content.
  - simpl. by rewrite append_nil_r.
  - unfold write_rows in *. cbn [for_each]. unfold mbind at 1.
    unfold M_bind at 1. unfold mbind at 1. unfold M_bind at 1.
    unfold lift at 1. unfold DictWriter_writerow. rewrite Hrow.
    cbn [fmap result_fmap]. rewrite write_eq.
    cbn [with_file files]. rewrite lookup_insert_eq. cbn [default].
    rewrite with_file_with_file, IH. cbn [csv_lines].
    by rewrite append_assoc.
Qed.

Lemma Account_dict_to_list a :
  _dict_to_list BALANCES_HEADER extras_ignore (Account.__dict__ a)
  = Ok (account_record a).
Proof. reflexivity. Qed.

Lemma Forall2_fmap_same {A B C} (f : A → B) (g : A → C) (P : B → C → Prop)
    (l : list A) :
  (∀ x, P (f x) (g x)) → Forall2 P (f <$> l) (g <$> l).
Proof. intros H. induction l; constructor; auto. Qed.

Lemma write_account_rows path accounts w content :
  write_rows path BALANCES_HEADER extras_ignore (Account.__dict__ <$> accounts)
    (with_file w path content)
  = (Ok (),
     with_file w path (content +:+ csv_lines (account_record <$> accounts))).
Proof.
  apply write_rows_eq, Forall2_fmap_same. intros a. apply Account_dict_to_list.
Qed.

Lemma with_file_id w path content :
  files w !! path = Some content → with_file w path content = w.
Proof.
  intros H. destruct w as [s h t f]. unfold with_file. simpl in *.
  by rewrite insert_id.
Qed.

Lemma write_balances_history_eq accounts w :
  let path := fn_balance_history_report (self w) in
  write_balances_history accounts w
  = (Ok (),
     with_file w path
       (history_prefix (files w !! path)
        +:+ csv_lines (account_record <$> accounts))).
Proof.
  intros path. unfold write_balances_history.
  unfold mbind at 1. unfold M_bind at 1. cbn [get_self]. fold path.
  unfold mbind at 1. unfold M_bind at 1. unfold open_a.
  destruct (files w !! path) as [[|c content]|] eqn:Hfile.
  - cbn [String.length]. rewrite decide_True by done.
    unfold mbind at 1. unfold M_bind at 1. rewrite write_eq, Hfile.
    cbn [default]. rewrite append_nil_l. apply write_account_rows.
  - cbn [String.length]. rewrite decide_False by done.
    unfold mbind at 1. unfold M_bind at 1. cbn [mret M_ret].
    rewrite <- (with_file_id w path (String c content) Hfile) at 1.
    apply write_account_rows.
  - rewrite decide_True by done.
    unfold mbind at 1. unfold M_bind at 1. rewrite write_eq.
    cbn [with_file files]. rewrite lookup_insert_eq. cbn [default].
    rewrite append_nil_l.
    change {| self := self w; heap := heap w; trace := trace w;
              files := <[path:=""]> (files w) |}
      with (with_file w path "").
    rewrite with_file_with_file. apply write_account_rows.
Qed.

Lemma line_feeds_append s t :
  line_feeds (s +:+ t) = (line_feeds s + line_feeds t)%nat.
Proof.
  induction s as [|c s IH]; [done|]. rewrite append_cons. simpl.
  rewrite IH. lia.
Qed.

Lemma line_feeds_double_quotes s : line_feeds (double_quotes s) = line_feeds s.
Proof.
  induction s as [|c s IH]; [done|]. simpl.
  destruct (Ascii.eqb c quotechar) eqn:Hq; simpl; rewrite IH; [|done].
  apply Ascii.eqb_eq in Hq as ->. done.
Qed.

Lemma line_feeds_csv_field s : line_feeds (csv_field s) = line_feeds s.
Proof.
  unfold csv_field. rewrite append_cons. cbn [line_feeds].
  rewrite line_feeds_append, line_feeds_double_quotes. simpl. lia.
Qed.

Lemma line_feeds_join l :
  Forall (λ s, line_feeds s = 0%nat) l → line_feeds (join "," l) = 0%nat.
Proof.
  induction 1 as [|s l Hs Hl IH]; [done|]. cbn [join].
  destruct Hl as [|s' l' Hs' Hl']; [done|].
  by rewrite !line_feeds_append, Hs, IH.
Qed.

Lemma line_feeds_csv_record fields :
  Forall (λ s, line_feeds s = 0%nat) fields →
  line_feeds (csv_record fields) = 1%nat.
Proof.
  intros H. unfold csv_record. rewrite line_feeds_append, line_feeds_join.
  - done.
  - apply Forall_fmap. eapply Forall_impl; [exact H|].
    intros s Hs. change (line_feeds (csv_field s) = 0%nat).
    by rewrite line_feeds_csv_field.
Qed.

Lemma line_feeds_csv_lines records :
  Forall (Forall (λ s, line_feeds s = 0%nat)) records →
  line_feeds (csv_lines records) = length records.
Proof.
  induction 1 as [|r rs Hr _ IH]; [done|]. simpl.
  by rewrite line_feeds_append, line_feeds_csv_record, IH.
Qed.

(** C8: on a history file that is missing or empty, a run with [N] accounts
    leaves the header record and [N] data records; a second run on that
    file adds its [N] records after them without another header, [2N+1]
    records in all, and as many lines when no field contains a line feed. *)
Theorem balances_history_header_once w accounts accounts' :
  let path := fn_balance_history_report (self w) in
  files w !! path = None ∨ files w !! path = Some "" →
  ∃ w1 w2,
    write_balances_history accounts w = (Ok (), w1) ∧
    files w1 !! path
    = Some (csv_lines (BALANCES_HEADER :: (account_record <$> accounts))) ∧
    write_balances_history accounts' w1 = (Ok (), w2) ∧
    files w2 !! path
    = Some (csv_lines (BALANCES_HEADER :: (account_record <$> accounts)
                         ++ (account_record <$> accounts'))) ∧
    ∀ N, length accounts = N → length accounts' = N →
      length (BALANCES_HEADER :: (account_record <$> accounts)
                ++ (account_record <$> accounts')) = (2 * N + 1)%nat ∧
      (Forall (Forall (λ s, line_feeds s = 0%nat))
         ((account_record <$> accounts) ++ (account_record <$> accounts')) →
       ∃ content,
         files w2 !! path = Some content ∧
         line_feeds content = (2 * N + 1)%nat).
Proof.
  intros path Hempty.
  pose proof (write_balances_history_eq accounts w) as H1.
  cbv zeta in H1. fold path in H1.
  assert (history_prefix (files w !! path)
          = DictWriter_writeheader BALANCES_HEADER) as Hprefix
    by (destruct Hempty as [-> | ->]; reflexivity).
  rewrite Hprefix in H1.
  set (w1 := with_file w path
               (DictWriter_writeheader BALANCES_HEADER
                +:+ csv_lines (account_record <$> accounts))) in *.
  pose proof (write_balances_history_eq accounts' w1) as H2.
  cbv zeta in H2.
  change (fn_balance_history_report (self w1)) with path in H2.
  assert (files w1 !! path
          = Some (csv_lines (BALANCES_HEADER :: (account_record <$> accounts))))
    as Hw1 by apply lookup_insert_eq.
  rewrite Hw1 in H2.
  assert (history_prefix
            (Some (csv_lines (BALANCES_HEADER :: (account_record <$> accounts))))
          = csv_lines (BALANCES_HEADER :: (account_record <$> accounts)))
    as Hprefix' by reflexivity.
  rewrite Hprefix' in H2.
  assert (files
            (with_file w1 path
               (csv_lines (BALANCES_HEADER :: (account_record <$> accounts))
                +:+ csv_lines (account_record <$> accounts'))) !! path
          = Some (csv_lines (BALANCES_HEADER :: (account_record <$> accounts)
                               ++ (account_record <$> accounts')))) as Hw2.
  { cbn [with_file files]. rewrite lookup_insert_eq.
    by rewrite <- csv_lines_app. }
  eexists _, _. split; [exact H1|]. split; [exact Hw1|].
  split; [exact H2|]. split; [exact Hw2|].
  intros N HN HN'. split.
  - cbn [length]. rewrite length_app, !length_fmap. lia.
  - intros Hfields. eexists. split; [exact Hw2|].
    rewrite line_feeds_csv_lines.
    + cbn [length]. rewrite length_app, !length_fmap. lia.
    + constructor; [|done]. repeat constructor.
Qed.

Example example_accounts_records :
  account_record <$> example_accounts
  = [["Checking"; "1811.71"; "2026-01-12";
      "2026-01-12T14:28:13.637497+00:00"];
     ["Brokerage"; "25000.00"; "2026-01-11"; "2026-01-12T03:00:00+00:00"]].
Proof. vm_compute. reflexivity. Qed.

Lemma balances_history_header_once_witness :
  ∃ w1 w2 content,
    write_balances_history example_accounts example_world = (Ok (), w1) ∧
    write_balances_history example_accounts w1 = (Ok (), w2) ∧
    files w2 !! "rbh.csv" = Some content ∧
    line_feeds content = 5%nat.
Proof.
  destruct (balances_history_header_once example_world example_accounts
              example_accounts (or_introl eq_refl))
    as (w1 & w2 & H1 & _ & H2 & _ & Hlines).
  destruct (Hlines 2%nat eq_refl eq_refl) as [_ (content & Hfile & Hfeeds)].
  { rewrite example_accounts_records. simpl. repeat constructor. }
  exists w1, w2, content. done.
Defined.

(** ** The Eastern date of an account *)

Lemma Account_init_date_eastern tz row a u :
  updatedAt row = Some u →
  Account.__init__ tz row = Ok a →
  Account_date_eastern a
  = date_isoformat (dt_date (astimezone tz (America_New_York tz) u)).
Proof.
  intros Hu H. unfold Account.__init__ in H. rewrite Hu in H.
  apply result_bind_Ok_inv in H as (? & _ & H).
  apply result_bind_Ok_inv in H as (? & _ & H).
  apply result_bind_Ok_inv in H as (? & _ & H).
  apply result_bind_Ok_inv in H as (? & _ & H).
  simpl in H. by injection H as <-.
Qed.

Lemma previous_day_quotient n s off :
  -86400 ≤ off → 0 ≤ s < - off → (n * 86400 + s + off) / 86400 = n - 1.
Proof.
  intros Hoff Hs. symmetry.
  apply (Z.div_unique _ _ _ (s + off + 86400)); lia.
Qed.

(** C7: the Eastern date of an account row is the date on the New York
    clock at the instant of [updatedAt]; for a timestamp given in UTC that
    lies between midnight UTC and midnight Eastern, that is the day before
    the date in the timestamp. *)
Theorem date_eastern_by_conversion tz (row : AccountData Decimal) a u off :
  updatedAt row = Some u →
  utcoffset u = Some off →
  Account.__init__ tz row = Ok a →
  let instant := wall_seconds u - off in
  let eastern := America_New_York tz instant in
  -18000 ≤ eastern ≤ -14400 →
  Account_date_eastern a
  = date_isoformat (_ord2ymd ((instant + eastern) / 86400)) ∧
  (off = 0 → 0 ≤ seconds_of_day u < - eastern →
   Account_date_eastern a
   = date_isoformat (date_minus_days (dt_date u) 1)).
Proof.
  intros Hu Hoff Ha instant eastern Hzone.
  rewrite (Account_init_date_eastern tz row a u Hu Ha).
  unfold astimezone, utc_seconds. rewrite Hoff. cbn [dt_date].
  fold instant eastern. split; [done|].
  intros -> Hs. unfold date_minus_days. do 2 f_equal.
  unfold instant, wall_seconds. rewrite Z.sub_0_r.
  apply previous_day_quotient; lia.
Qed.

Lemma date_eastern_by_conversion_witness :
  ∃ a,
    Account.__init__ system_zones
      {| AccountData_id := Some 32; displayName := Some "Brokerage";
         currentBalance :=
           Some {| d_sign := false; d_int := ["2"; "5"]%char; d_exp := 3 |};
         holdingsCount := Some 2;
         updatedAt := Some (utc 2026 1 12 3 0 0 0) |} = Ok a ∧
    Account_datetime a = "2026-01-12T03:00:00+00:00" ∧
    Account_date_eastern a = "2026-01-11".
Proof.
  eexists. split; [reflexivity|]. split; [vm_compute; reflexivity|].
  destruct (date_eastern_by_conversion system_zones
              {| AccountData_id := Some 32; displayName := Some "Brokerage";
                 currentBalance :=
                   Some {| d_sign := false; d_int := ["2"; "5"]%char;
                           d_exp := 3 |};
                 holdingsCount := Some 2;
                 updatedAt := Some (utc 2026 1 12 3 0 0 0) |}
              _ (utc 2026 1 12 3 0 0 0) 0 eq_refl eq_refl eq_refl)
    as [_ Hprev].
  { vm_compute. split; discriminate. }
  rewrite Hprev; [vm_compute; reflexivity|reflexivity|].
  vm_compute. split; [discriminate|reflexivity].
Defined.

(** ** The portfolio report *)

(** What a decorated call leaves behind, whatever the service answers: the
    files and the report paths are untouched, every remote call made is the
    call of the method, there is at least one, and a payload that is
    returned is an answer of the service to that call. *)
Lemma run_wrapped_spec env op w r w1 :
  run_wrapped env op w = (r, w1) →
  ∃ evs,
    trace w1 = trace w ++ evs ∧
    files w1 = files w ∧
    fn_portfolio_report (self w1) = fn_portfolio_report (self w) ∧
    (∀ ref rq, Call ref rq ∈ evs → rq = request_of env op) ∧
    (∃ ref, Call ref (request_of env op) ∈ evs) ∧
    (∀ payload, r = Ok payload →
       ∃ n ref,
         (calls (trace w) ≤ n < calls (trace w1))%nat ∧
         call_outcome env n ref (request_of env op) = Ok payload).
Proof.
  intros Hrun.
  destruct (call_outcome env (calls (trace w)) (mm (self w))
              (request_of env op)) as [payload|e] eqn:H1;
    [|destruct (retry e) eqn:Hretry].
  - rewrite run_wrapped_no_retry in Hrun by by rewrite H1.
    rewrite H1 in Hrun. injection Hrun as <- <-.
    eexists. split; [reflexivity|]. split; [done|]. split; [done|].
    split; [|split].
    + intros ref rq [[= _ ->]|[]%elem_of_nil]%elem_of_cons. done.
    + eexists. left.
    + intros ? [= <-]. eexists _, _. split; [|exact H1].
      split; [lia|]. count_events.
  - rewrite (retrying_after_401 env op w e H1 Hretry) in Hrun.
    destruct (login_outcome env (logins (trace w)) (length (heap w)) false)
      as [[]|e'].
    + injection Hrun as <- <-.
      eexists. split.
      { cbn [extend renewed trace]. rewrite <- !app_assoc. reflexivity. }
      split; [done|]. split; [done|]. split; [|split].
      * intros ref rq Hin. simpl in Hin.
        repeat (apply elem_of_cons in Hin as [Hin|Hin];
                [by (discriminate Hin || injection Hin as _ ->)|]).
        by apply elem_of_nil in Hin.
      * eexists. left.
      * intros payload Hp. eexists _, _. split; [|exact Hp].
        split; [lia|]. count_events.
    + injection Hrun as <- <-.
      eexists. split.
      { cbn [extend renewed trace]. rewrite <- !app_assoc. reflexivity. }
      split; [done|]. split; [done|]. split; [|split].
      * intros ref rq Hin. simpl in Hin.
        repeat (apply elem_of_cons in Hin as [Hin|Hin];
                [by (discriminate Hin || injection Hin as _ ->)|]).
        by apply elem_of_nil in Hin.
      * eexists. left.
      * intros payload [=].
  - rewrite run_wrapped_no_retry in Hrun by by rewrite H1.
    rewrite H1 in Hrun. injection Hrun as <- <-.
    eexists. split; [reflexivity|]. split; [done|]. split; [done|].
    split; [|split].
    + intros ref rq [[= _ ->]|[]%elem_of_nil]%elem_of_cons. done.
    + eexists. left.
    + intros ? [=].
Qed.

Lemma report_portfolio_loop_spec env accounts all_holdings w r w' :
  report_portfolio_loop env accounts all_holdings w = (r, w') →
  ∃ evs,
    trace w' = trace w ++ evs ∧
    files w' = files w ∧
    fn_portfolio_report (self w') = fn_portfolio_report (self w) ∧
    (∀ ref rq, Call ref rq ∈ evs →
       ∃ a, a ∈ accounts ∧ 0 < Account_holdingsCount a ∧
            rq = get_account_holdings (Account_id a)) ∧
    (∀ all, r = Ok all →
       (∀ a, a ∈ accounts → 0 < Account_holdingsCount a →
          ∃ ref, Call ref (get_account_holdings (Account_id a)) ∈ evs) ∧
       ∃ loaded,
         Forall2 (loaded_for env (calls (trace w)) (calls (trace w')))
           (with_holdings accounts) loaded ∧
         all = all_holdings ++ backfilled (with_holdings accounts) loaded).
Proof.
  revert all_holdings w.
  induction accounts as [|a accounts IH]; intros acc w Hrun.
  - injection Hrun as <- <-. exists []. rewrite app_nil_r.
    split; [done|]. split; [done|]. split; [done|]. split.
    + intros ref rq []%elem_of_nil.
    + intros all [= <-]. split; [by intros a []%elem_of_nil|].
      exists []. split; [constructor|]. by rewrite app_nil_r.
  - cbn [report_portfolio_loop] in Hrun.
    destruct (0 <? Account_holdingsCount a) eqn:Hcount.
    + apply Z.ltb_lt in Hcount.
      unfold mbind at 1 in Hrun. unfold M_bind at 1 in Hrun.
      destruct (get_holdings env (Account_id a) w) as [r1 w1] eqn:Hget.
      destruct (run_wrapped_spec env (Get_holdings (Account_id a)) w r1 w1 Hget)
        as (evs1 & Htr1 & Hf1 & Hfn1 & Hcalls1 & [ref1 Hcall1] & Hpayload).
      cbn [request_of] in *.
      assert (∀ ref rq, Call ref rq ∈ evs1 →
                ∃ a0, a0 ∈ a :: accounts ∧ 0 < Account_holdingsCount a0 ∧
                      rq = get_account_holdings (Account_id a0)) as Hcalls1'.
      { intros ref rq Hin. exists a. split; [left|].
        split; [done|]. exact (Hcalls1 ref rq Hin). }
      destruct r1 as [payload|e].
      * unfold mbind at 1 in Hrun. unfold M_bind at 1 in Hrun.
        unfold lift at 1 in Hrun.
        destruct (HoldingsQuerySchema.load payload) as [hq|e] eqn:Hload.
        -- destruct (IH _ _ Hrun)
             as (evs2 & Htr2 & Hf2 & Hfn2 & Hcalls2 & Hok).
           exists (evs1 ++ evs2).
           split; [by rewrite Htr2, Htr1, app_assoc|].
           split; [congruence|]. split; [congruence|]. split.
           ++ intros ref rq [Hin|Hin]%elem_of_app;
                [exact (Hcalls1' ref rq Hin)|].
              destruct (Hcalls2 ref rq Hin) as (a0 & Ha0 & Hrest).
              exists a0. split; [by right|done].
           ++ intros all ->. destruct (Hok all eq_refl)
                as (Hall & loaded & Hloaded & ->).
              split.
              ** intros a0 [->|Hin]%elem_of_cons Hpos.
                 { exists ref1. apply elem_of_app. by left. }
                 destruct (Hall a0 Hin Hpos) as [ref Href].
                 exists ref. apply elem_of_app. by right.
              ** exists (hq :: loaded). unfold with_holdings.
                 rewrite filter_cons_True by done.
                 assert (calls (trace w) ≤ calls (trace w1)
                         ∧ calls (trace w1) ≤ calls (trace w'))%nat
                   as [Hlo Hhi] by (rewrite Htr2, Htr1, !calls_app; lia).
                 split.
                 { constructor.
                   - destruct (Hpayload payload eq_refl)
                       as (n & ref & Hrange & Hn).
                     exists n, ref, payload. split; [lia|done].
                   - eapply Forall2_impl; [exact Hloaded|].
                     intros a0 hq0 (n & ref & p0 & Hrange & Hrest).
                     exists n, ref, p0. split; [lia|done]. }
                 unfold backfilled. cbn [zip_with concat].
                 by rewrite app_assoc.
        -- injection Hrun as <- <-. exists evs1.
           split; [done|]. split; [done|]. split; [done|]. split; [done|].
           intros all [=].
      * injection Hrun as <- <-. exists evs1.
        split; [done|]. split; [done|]. split; [done|]. split; [done|].
        intros all [=].
    + apply Z.ltb_ge in Hcount.
      destruct (IH _ _ Hrun) as (evs & Htr & Hf & Hfn & Hcalls & Hok).
      exists evs. split; [done|]. split; [done|]. split; [done|]. split.
      * intros ref rq Hin. destruct (Hcalls ref rq Hin) as (a0 & Ha0 & Hrest).
        exists a0. split; [by right|done].
      * intros all ->. destruct (Hok all eq_refl)
          as (Hall & loaded & Hloaded & ->).
        split.
        -- intros a0 [->|Hin]%elem_of_cons Hpos; [lia|]. by apply Hall.
        -- exists loaded. unfold with_holdings.
           rewrite filter_cons_False by lia. done.
Qed.

Lemma Holding_dict_to_list h :
  _dict_to_list PORTFOLIO_HEADER extras_raise (Holding.__dict__ h)
  = Ok (holding_record h).
Proof.
  unfold _dict_to_list. rewrite decide_True.
  - by destruct h as [[acc|] ? ? ? ?].
  - unfold Holding.__dict__. rewrite !dom_insert_L, dom_empty_L.
    unfold PORTFOLIO_HEADER. simpl. set_solver.
Qed.

Lemma write_portfolio_eq holdings w :
  write_portfolio holdings w
  = (Ok (),
     with_file w (fn_portfolio_report (self w))
       (csv_lines (PORTFOLIO_HEADER :: (holding_record <$> holdings)))).
Proof.
  unfold write_portfolio. unfold mbind at 1. unfold M_bind at 1.
  cbn [get_self]. unfold mbind at 1. unfold M_bind at 1. cbn [open_w].
  unfold mbind at 1. unfold M_bind at 1. rewrite write_eq.
  cbn [files]. rewrite lookup_insert_eq. cbn [default].
  rewrite append_nil_l.
  change {| self := self w; heap := heap w; trace := trace w;
            files := <[fn_portfolio_report (self w):=""]> (files w) |}
    with (with_file w (fn_portfolio_report (self w)) "").
  rewrite with_file_with_file.
  rewrite (write_rows_eq _ _ _ _ (holding_record <$> holdings)).
  - done.
  - apply Forall2_fmap_same. intros h. apply Holding_dict_to_list.
Qed.

Lemma backfilled_groups env lo hi accounts loaded :
  Forall2 (loaded_for env lo hi) accounts loaded →
  ∃ groups,
    backfilled accounts loaded = concat groups ∧
    Forall2
      (λ a rows,
         (∃ hq, loaded_for env lo hi a hq ∧
                rows = Holding.set_account (Account_account a) <$> hq) ∧
         Forall (λ row, Holding_account row = Some (Account_account a)) rows)
      accounts groups.
Proof.
  induction 1 as [|a hq accounts loaded Ha _ (groups & Hrows & Hgroups)].
  - exists []. split; [done|constructor].
  - exists ((Holding.set_account (Account_account a) <$> hq) :: groups).
    split.
    + unfold backfilled in *. cbn [zip_with concat]. by rewrite Hrows.
    + constructor; [|done]. split; [by exists hq|].
      apply Forall_fmap, Forall_forall. by intros h _.
Qed.

Lemma filter_nonzero_with_holdings accounts :
  Forall (λ a, 0 ≤ Account_holdingsCount a) accounts →
  filter (λ a, Account_holdingsCount a ≠ 0) accounts = with_holdings accounts.
Proof.
  unfold with_holdings. induction 1 as [|a accounts Ha _ IH]; [done|].
  destruct (decide (Account_holdingsCount a = 0)) as [Hz|Hnz].
  - rewrite !filter_cons_False by lia. done.
  - rewrite !filter_cons_True by lia. by rewrite IH.
Qed.

(** C5: with holdings counts that are not negative, [report_portfolio]
    makes no remote call other than holdings calls for accounts whose count
    is not zero; when it succeeds, each such account has been asked, and the
    portfolio file holds the header and then, account by account, the rows
    loaded from an answer to that account's call, each with the account's
    display name in its account field. *)
Theorem portfolio_queries_accounts_with_holdings env accounts w r w' :
  Forall (λ a, 0 ≤ Account_holdingsCount a) accounts →
  report_portfolio env accounts w = (r, w') →
  ∃ evs,
    trace w' = trace w ++ evs ∧
    (∀ ref rq, Call ref rq ∈ evs →
       ∃ a, a ∈ accounts ∧ Account_holdingsCount a ≠ 0 ∧
            rq = get_account_holdings (Account_id a)) ∧
    (r = Ok () →
       (∀ a, a ∈ accounts → Account_holdingsCount a ≠ 0 →
          ∃ ref, Call ref (get_account_holdings (Account_id a)) ∈ evs) ∧
       ∃ groups,
         files w' !! fn_portfolio_report (self w)
         = Some (csv_lines
                   (PORTFOLIO_HEADER :: (holding_record <$> concat groups))) ∧
         Forall2
           (λ a rows,
              (∃ hq, loaded_for env (calls (trace w)) (calls (trace w')) a hq ∧
                     rows = Holding.set_account (Account_account a) <$> hq) ∧
              Forall (λ row, Holding_account row = Some (Account_account a))
                rows)
           (filter (λ a, Account_holdingsCount a ≠ 0) accounts) groups).
Proof.
  intros Hcounts Hrun. unfold report_portfolio in Hrun.
  unfold mbind at 1 in Hrun. unfold M_bind at 1 in Hrun.
  destruct (report_portfolio_loop env accounts [] w) as [r0 w0] eqn:Hloop.
  destruct (report_portfolio_loop_spec env accounts [] w r0 w0 Hloop)
    as (evs & Htr & Hf & Hfn & Hcalls & Hok).
  assert (filter (λ a, Account_holdingsCount a ≠ 0) accounts
          = with_holdings accounts) as Hfilter.
  { by apply filter_nonzero_with_holdings. }
  exists evs. destruct r0 as [all|e].
  - rewrite write_portfolio_eq in Hrun. injection Hrun as <- <-.
    split; [done|]. split.
    + intros ref rq Hin. destruct (Hcalls ref rq Hin) as (a & Ha & Hpos & ->).
      exists a. split; [done|]. split; [lia|done].
    + intros _. destruct (Hok all eq_refl) as (Hall & loaded & Hloaded & ->).
      split.
      * intros a Hin Hnz. apply Hall; [done|].
        rewrite Forall_forall in Hcounts. specialize (Hcounts a Hin). lia.
      * destruct (backfilled_groups env _ _ _ _ Hloaded)
          as (groups & Hrows & Hg).
        exists groups. rewrite Hfilter. split; [|done].
        cbn [with_file files]. rewrite Hfn, lookup_insert_eq.
        cbn [app]. by rewrite Hrows.
  - injection Hrun as <- <-. split; [done|]. split; [|done].
    intros ref rq Hin. destruct (Hcalls ref rq Hin) as (a & Ha & Hpos & ->).
    exists a. split; [done|]. split; [lia|done].
Qed.

Example example_portfolio_file :
  files (report_portfolio holdings_run example_accounts example_world).2
    !! "rp.csv"
  = Some (csv_lines
            [PORTFOLIO_HEADER;
             ["Brokerage"; "AAA"; "1288.212"; "33.03"; "2227.6"];
             ["Brokerage"; "BBB"; "10"; "7.50"; "70.00"]]).
Proof. vm_compute. reflexivity. Qed.

Lemma portfolio_queries_accounts_with_holdings_witness :
  ∃ w' evs groups,
    report_portfolio holdings_run example_accounts example_world
    = (Ok (), w') ∧
    trace w' = trace example_world ++ evs ∧
    (∀ ref rq, Call ref rq ∈ evs → rq = get_account_holdings 32) ∧
    files w' !! "rp.csv"
    = Some (csv_lines
              (PORTFOLIO_HEADER :: (holding_record <$> concat groups))) ∧
    Forall (Forall (λ row, Holding_account row = Some "Brokerage")) groups.
Proof.
  assert (Forall (λ a, 0 ≤ Account_holdingsCount a) example_accounts)
    as Hcounts by (vm_compute; repeat constructor; discriminate).
  destruct (portfolio_queries_accounts_with_holdings holdings_run
              example_accounts example_world (Ok ())
              (report_portfolio holdings_run example_accounts
                 example_world).2 Hcounts)
    as (evs & Htrace & Hcalls & Hok).
  { vm_compute. reflexivity. }
  destruct (Hok eq_refl) as (_ & groups & Hfile & Hgroups).
  exists (report_portfolio holdings_run example_accounts example_world).2,
    evs, groups.
  split; [vm_compute; reflexivity|]. split; [exact Htrace|]. split; [|split].
  - intros ref rq Hin. destruct (Hcalls ref rq Hin) as (a & Ha & Hnz & ->).
    vm_compute in Ha.
    apply elem_of_cons in Ha as [->|Ha]; [by destruct Hnz|].
    apply elem_of_cons in Ha as [->|Ha]; [reflexivity|].
    by apply elem_of_nil in Ha.
  - exact Hfile.
  - assert (filter (λ a, Account_holdingsCount a ≠ 0) example_accounts
            = drop 1 example_accounts) as Hfilter by (vm_compute; reflexivity).
    rewrite Hfilter in Hgroups.
    apply Forall2_cons_inv_l in Hgroups as (g & gs & [_ Hg] & Hgs & ->).
    apply Forall2_nil_inv_l in Hgs as ->.
    constructor; [exact Hg|constructor].
Defined.

(** ** Decimal fields *)

Lemma is_digit_not_space c : is_digit c = true → is_space c = false.
Proof.
  destruct c as [[] [] [] [] [] [] [] []]; try discriminate; reflexivity.
Qed.

Lemma is_digit_not_underscore c : is_digit c = true → c ≠ "_"%char.
Proof. intros H ->. discriminate H. Qed.

Lemma lstrip_id s : Forall (λ c, is_space c = false) s → lstrip s = s.
Proof. destruct 1 as [|c s Hc _]; [done|]. simpl. by rewrite Hc. Qed.

Lemma strip_id s : Forall (λ c, is_space c = false) s → strip s = s.
Proof.
  intros H. unfold strip. rewrite (lstrip_id s H).
  rewrite lstrip_id by by apply Forall_reverse. apply reverse_involutive.
Qed.

Lemma filter_id {A} (P : A → Prop) `{∀ x, Decision (P x)} (l : list A) :
  Forall P l → filter P l = l.
Proof.
  induction 1 as [|x l Hx _ IH]; [done|].
  by rewrite filter_cons_True, IH.
Qed.

Lemma span_digits_app ds rest :
  forallb is_digit ds = true →
  match rest with [] => True | c :: _ => is_digit c = false end →
  span_digits (ds ++ rest) = (ds, rest).
Proof.
  intros Hds Hrest. induction ds as [|d ds IH]; simpl in *.
  - destruct rest as [|c rest]; [done|]. simpl. by rewrite Hrest.
  - apply andb_prop in Hds as [-> Hds]. by rewrite IH.
Qed.

Lemma span_digits_all ds :
  forallb is_digit ds = true → span_digits ds = (ds, []).
Proof.
  intros H. rewrite <- (app_nil_r ds) at 1. by apply span_digits_app.
Qed.

Lemma plain_decimal_chars neg intpart fracpart :
  forallb is_digit intpart = true → forallb is_digit fracpart = true →
  Forall (λ c, is_space c = false ∧ c ≠ "_"%char)
    (plain_decimal neg intpart fracpart).
Proof.
  intros Hi Hf.
  assert (∀ ds, forallb is_digit ds = true →
            Forall (λ c, is_space c = false ∧ c ≠ "_"%char) ds) as Hdigits.
  { intros ds Hds. apply Forall_forall. intros c Hin%list_elem_of_In.
    rewrite forallb_forall in Hds. specialize (Hds c Hin).
    split; [by apply is_digit_not_space|by apply is_digit_not_underscore]. }
  unfold plain_decimal. apply Forall_app. split.
  - destruct neg; repeat constructor. discriminate.
  - apply Forall_app. split; [by apply Hdigits|].
    destruct fracpart as [|c fracpart]; [constructor|].
    constructor; [split; [reflexivity|discriminate]|by apply Hdigits].
Qed.

(** Parsing a canonical numeral. *)
Lemma Decimal_of_chars_plain neg intpart fracpart :
  canonical intpart fracpart = true →
  Decimal_of_chars (plain_decimal neg intpart fracpart)
  = Some {| d_sign := neg;
            d_int := str_int_digits (intpart ++ fracpart);
            d_exp := - Z.of_nat (length fracpart) |}.
Proof.
  unfold canonical. intros H.
  apply andb_prop in H as [H Hhead]. apply andb_prop in H as [Hi Hf].
  unfold Decimal_of_chars.
  pose proof (plain_decimal_chars neg intpart fracpart Hi Hf) as Hchars.
  rewrite strip_id by (eapply Forall_impl; [exact Hchars|]; by intros c []).
  rewrite filter_id by (eapply Forall_impl; [exact Hchars|]; by intros c []).
  destruct intpart as [|i0 intpart]; [done|]. clear Hhead Hchars.
  assert (is_digit i0 = true) as Hi0
    by (simpl in Hi; by apply andb_prop in Hi as [? _]).
  set (tail := match fracpart with
               | [] => []
               | _ => "."%char :: fracpart
               end).
  assert ((let '(neg', s1) :=
             match plain_decimal neg (i0 :: intpart) fracpart with
             | c :: t =>
                 if Ascii.eqb c "-" then (true, t)
                 else if Ascii.eqb c "+" then (false, t)
                 else (false, plain_decimal neg (i0 :: intpart) fracpart)
             | [] => (false, plain_decimal neg (i0 :: intpart) fracpart)
             end in (neg', s1))
          = (neg, (i0 :: intpart) ++ tail)) as Hsign.
  { unfold plain_decimal. fold tail. destruct neg; simpl; [done|].
    destruct (Ascii.eqb i0 "-") eqn:E1;
      [apply Ascii.eqb_eq in E1 as ->; discriminate Hi0|].
    destruct (Ascii.eqb i0 "+") eqn:E2;
      [apply Ascii.eqb_eq in E2 as ->; discriminate Hi0|]. done. }
  destruct (match plain_decimal neg (i0 :: intpart) fracpart with
            | c :: t =>
                if Ascii.eqb c "-" then (true, t)
                else if Ascii.eqb c "+" then (false, t)
                else (false, plain_decimal neg (i0 :: intpart) fracpart)
            | [] => (false, plain_decimal neg (i0 :: intpart) fracpart)
            end) as [neg' s1].
  injection Hsign as -> ->.
  change (i0 :: intpart ++ tail) with ((i0 :: intpart) ++ tail).
  rewrite span_digits_app; [|done|by destruct fracpart].
  destruct fracpart as [|f0 fracpart]; subst tail.
  - simpl. by rewrite app_nil_r.
  - cbv beta iota. change (Ascii.eqb "." ".") with true. cbv iota.
    rewrite span_digits_all by done.
    cbn [app parse_exponent]. reflexivity.
Qed.

Lemma drop_zeros_length l : (length (drop_zeros l) ≤ length l)%nat.
Proof.
  induction l as [|c l IH]; simpl; [lia|].
  destruct (Ascii.eqb c "0"); simpl; lia.
Qed.

Lemma drop_zeros_split l :
  l = replicate (length l - length (drop_zeros l)) "0"%char ++ drop_zeros l.
Proof.
  induction l as [|c l IH]; [done|]. simpl.
  destruct (Ascii.eqb c "0") eqn:Hc.
  - apply Ascii.eqb_eq in Hc as ->.
    pose proof (drop_zeros_length l).
    replace (S (length l) - length (drop_zeros l))%nat
      with (S (length l - length (drop_zeros l))) by lia.
    simpl. by rewrite <- IH.
  - simpl. by rewrite Nat.sub_diag.
Qed.

(** [Decimal.__str__] when no exponent is needed. *)
Lemma Decimal_chars_no_exponent d :
  d_exp d ≤ 0 → -6 < leftdigits d →
  Decimal_chars d
  = (if d_sign d then ["-"%char] else [])
    ++ (if leftdigits d <=? 0 then
          "0"%char :: "."%char
            :: replicate (Z.to_nat (- leftdigits d)) "0"%char ++ d_int d
        else if Z.of_nat (length (d_int d)) <=? leftdigits d then
          d_int d
        else
          take (Z.to_nat (leftdigits d)) (d_int d)
            ++ "."%char :: drop (Z.to_nat (leftdigits d)) (d_int d)).
Proof.
  intros Hexp Hleft. unfold Decimal_chars.
  rewrite (proj2 (Z.leb_le _ _) Hexp), (proj2 (Z.ltb_lt _ _) Hleft).
  cbn [andb]. rewrite Z.eqb_refl. f_equal.
  destruct (leftdigits d <=? 0) eqn:H0; [by rewrite app_nil_r|].
  destruct (Z.of_nat (length (d_int d)) <=? leftdigits d) eqn:H1.
  - apply Z.leb_le in H1. unfold leftdigits in *.
    replace (d_exp d + Z.of_nat (length (d_int d))
             - Z.of_nat (length (d_int d))) with (d_exp d) by lia.
    replace (Z.to_nat (d_exp d)) with 0%nat by lia.
    simpl. by rewrite !app_nil_r.
  - by rewrite app_nil_r.
Qed.

(** The text of a canonical numeral whose [Decimal] needs no exponent is
    the numeral again. *)
Lemma Decimal_chars_plain neg intpart fracpart :
  canonical intpart fracpart = true →
  let d := {| d_sign := neg;
              d_int := str_int_digits (intpart ++ fracpart);
              d_exp := - Z.of_nat (length fracpart) |} in
  -6 < leftdigits d →
  Decimal_chars d = plain_decimal neg intpart fracpart.
Proof.
  intros H d Hleft. unfold canonical in H.
  apply andb_prop in H as [_ Hhead].
  rewrite Decimal_chars_no_exponent by (done || (simpl; lia)).
  unfold plain_decimal. cbn [d_sign d]. f_equal.
  destruct intpart as [|c intpart]; [done|].
  destruct (Ascii.eqb c "0") eqn:Hc.
  - (* the integer part is "0" *)
    apply Ascii.eqb_eq in Hc as ->.
    destruct intpart as [|c' intpart]; [|done]. clear Hhead.
    unfold leftdigits in *. cbn [d_exp d_int d] in *.
    unfold str_int_digits in *. cbn [app drop_zeros] in *.
    change (Ascii.eqb "0" "0") with true in *. cbv iota in *.
    pose proof (drop_zeros_split fracpart) as Hsplit.
    pose proof (drop_zeros_length fracpart) as Hlen.
    destruct (drop_zeros fracpart) as [|r0 rest] eqn:Hdrop.
    + rewrite app_nil_r in Hsplit. cbn [length] in *.
      rewrite Nat.sub_0_r in Hsplit.
      destruct fracpart as [|f0 fracpart]; [done|].
      cbn [length] in *.
      rewrite (proj2 (Z.leb_le _ _)) by lia.
      replace (Z.to_nat (- (- Z.of_nat (S (length fracpart)) + Z.of_nat 1)))
        with (length fracpart) by lia.
      rewrite Hsplit. do 2 f_equal. by rewrite replicate_S_end.
    + destruct fracpart as [|f0 fracpart]; [done|].
      rewrite (proj2 (Z.leb_le _ _)) by lia.
      replace (Z.to_nat (- (- Z.of_nat (length (f0 :: fracpart))
                           + Z.of_nat (length (r0 :: rest)))))
        with (length (f0 :: fracpart) - length (r0 :: rest))%nat by lia.
      cbn [app]. do 2 f_equal. by rewrite <- Hsplit.
  - (* the integer part starts with another digit *)
    assert (str_int_digits ((c :: intpart) ++ fracpart)
            = (c :: intpart) ++ fracpart) as Hint.
    { unfold str_int_digits. cbn [app drop_zeros]. by rewrite Hc. }
    unfold leftdigits in *. cbn [d_exp d_int d] in *. rewrite Hint in *.
    rewrite length_app in *.
    rewrite (proj2 (Z.leb_gt _ _)) by (cbn [length]; lia).
    destruct fracpart as [|f0 fracpart].
    + rewrite (proj2 (Z.leb_le _ _)) by (cbn [length]; lia).
      by rewrite app_nil_r.
    + rewrite (proj2 (Z.leb_gt _ _)) by (cbn [length]; lia).
      replace (Z.to_nat (- Z.of_nat (length (f0 :: fracpart))
                         + Z.of_nat (length (c :: intpart)
                                     + length (f0 :: fracpart))))
        with (length (c :: intpart)) by lia.
      by rewrite take_app_length, drop_app_length.
Qed.

Lemma Decimal_field_Some field s d (o : option Decimal) :
  Decimal_of_str s = Some d →
  Decimal_field field (Some s) = Ok o → o = Some d.
Proof. unfold Decimal_field. intros ->. by intros [= <-]. Qed.

Lemma AccountSchema_load_balance a a' s d :
  currentBalance a = Some s → Decimal_of_str s = Some d →
  AccountSchema.load a = Ok a' → currentBalance a' = Some d.
Proof.
  intros Hs Hd H. unfold AccountSchema.load in H. rewrite Hs in H.
  apply result_bind_Ok_inv in H as (? & _ & H).
  apply result_bind_Ok_inv in H as (o & Ho & H).
  injection H as <-. simpl. by eapply Decimal_field_Some.
Qed.

Lemma Account_init_balance tz a row d :
  currentBalance a = Some d → Account.__init__ tz a = Ok row →
  Account_balance row = d.
Proof.
  intros Hd H. unfold Account.__init__ in H. rewrite Hd in H.
  apply result_bind_Ok_inv in H as (? & _ & H).
  apply result_bind_Ok_inv in H as (? & _ & H). simpl in H.
  apply result_bind_Ok_inv in H as (? & _ & H).
  apply result_bind_Ok_inv in H as (? & _ & H).
  apply result_bind_Ok_inv in H as (? & _ & H).
  by injection H as <-.
Qed.

Lemma TransactionSchema_load_amount t t' s d :
  amount t = Some s → Decimal_of_str s = Some d →
  TransactionSchema.load t = Ok t' → amount t' = Some d.
Proof.
  intros Hs Hd H. unfold TransactionSchema.load in H. rewrite Hs in H.
  apply result_bind_Ok_inv in H as (? & _ & H).
  apply result_bind_Ok_inv in H as (o & Ho & H).
  apply result_bind_Ok_inv in H as (? & _ & H).
  apply result_bind_Ok_inv in H as (? & _ & H).
  apply result_bind_Ok_inv in H as (? & _ & H).
  injection H as <-. simpl. by eapply Decimal_field_Some.
Qed.

Lemma Transaction_init_amount t catmap row d :
  amount t = Some d → Transaction.__init__ t catmap = Ok row →
  Transaction_amount row = d.
Proof.
  intros Hd H. unfold Transaction.__init__ in H. rewrite Hd in H.
  repeat (apply result_bind_Ok_inv in H as (? & _ & H); simpl in H).
  by injection H as <-.
Qed.

Lemma Transaction_dict_to_list t :
  _dict_to_list TRANSACTIONS_HEADER extras_raise (Transaction.__dict__ t)
  = Ok [Transaction_date t; Transaction_merchant t; Transaction_category t;
        Transaction_group t; Transaction_account t;
        default "" (Transaction_notes t); Decimal_str (Transaction_amount t)].
Proof.
  unfold _dict_to_list. rewrite decide_True.
  - by destruct t as [? ? ? ? ? [n|] ?].
  - unfold Transaction.__dict__. rewrite !dom_insert_L, dom_empty_L.
    unfold TRANSACTIONS_HEADER. simpl. set_solver.
Qed.

(** The loaded edge of a raw edge, field by field. *)
Lemma AggregateHoldingEdgeSchema_load_fields e e' n sec :
  AggregateHoldingEdgeSchema.load e = Ok e' →
  node e = Some n → security n = Some sec →
  ∃ n' sec',
    node e' = Some n' ∧ security n' = Some sec' ∧
    Decimal_field "quantity" (quantity n) = Ok (quantity n') ∧
    Decimal_field "basis" (basis n) = Ok (basis n') ∧
    Decimal_field "currentPrice" (currentPrice sec) = Ok (currentPrice sec').
Proof.
  intros H Hn Hsec. unfold AggregateHoldingEdgeSchema.load in H.
  rewrite Hn in H. cbn [Nested] in H.
  apply result_bind_Ok_inv in H as (on' & Hon' & H). injection H as <-.
  destruct (AggregateHoldingSchema.load n) as [n'|] eqn:Hload; [|done].
  injection Hon' as <-. unfold AggregateHoldingSchema.load in Hload.
  rewrite Hsec in Hload. cbn [Nested] in Hload.
  apply result_bind_Ok_inv in Hload as (? & _ & Hload).
  apply result_bind_Ok_inv in Hload as (q & Hq & Hload).
  apply result_bind_Ok_inv in Hload as (b & Hb & Hload).
  apply result_bind_Ok_inv in Hload as (? & _ & Hload).
  apply result_bind_Ok_inv in Hload as (osec' & Hosec' & Hload).
  injection Hload as <-.
  destruct (SecuritySchema.load sec) as [sec'|] eqn:Hsload; [|done].
  injection Hosec' as <-. unfold SecuritySchema.load in Hsload.
  apply result_bind_Ok_inv in Hsload as (? & _ & Hsload).
  apply result_bind_Ok_inv in Hsload as (p & Hp & Hsload).
  injection Hsload as <-.
  eexists _, _. split; [reflexivity|]. split; [reflexivity|]. done.
Qed.

Lemma Holding_init_fields e n sec h :
  node e = Some n → security n = Some sec →
  Holding.__init__ e = Ok h →
  ∃ q p b,
    quantity n = Some q ∧ currentPrice sec = Some p ∧ basis n = Some b ∧
    Holding_shares h = Decimal_str q ∧
    Holding_price h = Decimal_str p ∧
    Holding_cost h = Decimal_str b.
Proof.
  intros Hn Hsec H. unfold Holding.__init__ in H. rewrite Hn in H.
  cbn [getitem mbind result_bind] in H. rewrite Hsec in H.
  cbn [getitem mbind result_bind] in H.
  apply result_bind_Ok_inv in H as (? & _ & H).
  destruct (quantity n) as [q|]; [|done].
  destruct (currentPrice sec) as [p|]; [|done].
  destruct (basis n) as [b|]; [|done].
  simpl in H. injection H as <-. by exists q, p, b.
Qed.

(** C6, as stated, fails for a quantity below one millionth: the load
    succeeds, and the text of the shares field is in exponent notation, not
    the text of the response. *)
Lemma decimal_text_scientific_counterexample :
  HoldingsQuerySchema.load
    (holdings_response [holding_edge 41 "AAA" "0.0000001" "33.03" "2227.6"])
  = Ok [{| Holding_account := None; Holding_ticker := "AAA";
           Holding_shares := "1E-7"; Holding_price := "33.03";
           Holding_cost := "2227.6" |}] ∧
  _dict_to_list PORTFOLIO_HEADER extras_raise
    (Holding.__dict__
       {| Holding_account := Some "Brokerage"; Holding_ticker := "AAA";
          Holding_shares := "1E-7"; Holding_price := "33.03";
          Holding_cost := "2227.6" |})
  = Ok ["Brokerage"; "AAA"; "1E-7"; "33.03"; "2227.6"].
Proof. split; vm_compute; reflexivity. Qed.

(** C6 (amended): a decimal field whose text in the response is a canonical
    plain numeral, and whose [Decimal] has more than -6 digits left of the
    point, reaches the CSV writer as the very same text: the balance of an
    account, the amount of a transaction, and the shares, price and cost of
    a holding. *)
Theorem decimal_fields_keep_plain_text neg intpart fracpart :
  canonical intpart fracpart = true →
  let s := plain_text neg intpart fracpart in
  ∃ d,
    Decimal_of_str s = Some d ∧
    (-6 < leftdigits d →
     Decimal_str d = s ∧
     (∀ tz a a' row cells,
        currentBalance a = Some s →
        AccountSchema.load a = Ok a' → Account.__init__ tz a' = Ok row →
        _dict_to_list BALANCES_HEADER extras_ignore (Account.__dict__ row)
        = Ok cells →
        cells !! 1%nat = Some s) ∧
     (∀ catmap t t' row cells,
        amount t = Some s →
        TransactionSchema.load t = Ok t' →
        Transaction.__init__ t' catmap = Ok row →
        _dict_to_list TRANSACTIONS_HEADER extras_raise
          (Transaction.__dict__ row) = Ok cells →
        cells !! 6%nat = Some s) ∧
     (∀ e e' n sec h cells,
        node e = Some n → security n = Some sec →
        AggregateHoldingEdgeSchema.load e = Ok e' →
        Holding.__init__ e' = Ok h →
        _dict_to_list PORTFOLIO_HEADER extras_raise (Holding.__dict__ h)
        = Ok cells →
        (quantity n = Some s → cells !! 2%nat = Some s) ∧
        (currentPrice sec = Some s → cells !! 3%nat = Some s) ∧
        (basis n = Some s → cells !! 4%nat = Some s))).
Proof.
  intros Hcanon s.
  assert (Decimal_of_str s
          = Some {| d_sign := neg;
                    d_int := str_int_digits (intpart ++ fracpart);
                    d_exp := - Z.of_nat (length fracpart) |}) as Hparse.
  { unfold Decimal_of_str, s, plain_text.
    rewrite String.list_ascii_of_string_of_list_ascii.
    by apply Decimal_of_chars_plain. }
  eexists. split; [exact Hparse|]. intros Hleft.
  assert (Decimal_str
            {| d_sign := neg;
               d_int := str_int_digits (intpart ++ fracpart);
               d_exp := - Z.of_nat (length fracpart) |} = s) as Hstr.
  { unfold Decimal_str, s, plain_text. f_equal.
    by apply Decimal_chars_plain. }
  split; [exact Hstr|]. split; [|split].
  - intros tz a a' row cells Hs Hload Hinit Hcells.
    rewrite Account_dict_to_list in Hcells. injection Hcells as <-.
    pose proof (AccountSchema_load_balance _ _ _ _ Hs Hparse Hload) as Hd.
    rewrite <- Hstr. simpl. do 2 f_equal.
    by eapply Account_init_balance.
  - intros catmap t t' row cells Hs Hload Hinit Hcells.
    rewrite Transaction_dict_to_list in Hcells. injection Hcells as <-.
    pose proof (TransactionSchema_load_amount _ _ _ _ Hs Hparse Hload) as Hd.
    rewrite <- Hstr. simpl. do 2 f_equal.
    by eapply Transaction_init_amount.
  - intros e e' n sec h cells Hn Hsec Hload Hinit Hcells.
    rewrite Holding_dict_to_list in Hcells. injection Hcells as <-.
    destruct (AggregateHoldingEdgeSchema_load_fields _ _ _ _ Hload Hn Hsec)
      as (n' & sec' & Hn' & Hsec' & Hq & Hb & Hp).
    destruct (Holding_init_fields _ _ _ _ Hn' Hsec' Hinit)
      as (q & p & b & Hq' & Hp' & Hb' & Hshares & Hprice & Hcost).
    rewrite Hq' in Hq. rewrite Hp' in Hp. rewrite Hb' in Hb.
    simpl. split; [|split]; intros Hfield.
    + rewrite Hfield in Hq.
      pose proof (Decimal_field_Some _ _ _ _ Hparse Hq) as [= ->].
      by rewrite Hshares, Hstr.
    + rewrite Hfield in Hp.
      pose proof (Decimal_field_Some _ _ _ _ Hparse Hp) as [= ->].
      by rewrite Hprice, Hstr.
    + rewrite Hfield in Hb.
      pose proof (Decimal_field_Some _ _ _ _ Hparse Hb) as [= ->].
      by rewrite Hcost, Hstr.
Qed.

Lemma decimal_fields_keep_plain_text_witness :
  ∃ e' h cells,
    AggregateHoldingEdgeSchema.load
      (holding_edge 41 "AAA" "1288.212" "33.03" "2227.6") = Ok e' ∧
    Holding.__init__ e' = Ok h ∧
    _dict_to_list PORTFOLIO_HEADER extras_raise (Holding.__dict__ h)
    = Ok cells ∧
    cells !! 2%nat = Some "1288.212".
Proof.
  destruct (decimal_fields_keep_plain_text false
              ["1"; "2"; "8"; "8"]%char ["2"; "1"; "2"]%char eq_refl)
    as (d & Hparse & Hplain).
  vm_compute in Hparse. injection Hparse as <-.
  destruct Hplain as (_ & _ & _ & Hholding); [vm_compute; reflexivity|].
  destruct (AggregateHoldingEdgeSchema.load
              (holding_edge 41 "AAA" "1288.212" "33.03" "2227.6"))
    as [e'|] eqn:Hload; [|vm_compute in Hload; discriminate Hload].
  destruct (Holding.__init__ e') as [h|] eqn:Hinit;
    [|vm_compute in Hload; injection Hload as <-;
      vm_compute in Hinit; discriminate Hinit].
  destruct (_dict_to_list PORTFOLIO_HEADER extras_raise (Holding.__dict__ h))
    as [cells|] eqn:Hcells;
    [|rewrite Holding_dict_to_list in Hcells; discriminate Hcells].
  exists e', h, cells.
  split; [first [reflexivity|exact Hload]|].
  split; [first [reflexivity|exact Hinit]|].
  split; [first [reflexivity|exact Hcells]|].
  destruct (Hholding (holding_edge 41 "AAA" "1288.212" "33.03" "2227.6")
              e' _ _ h cells eq_refl eq_refl Hload Hinit Hcells)
    as (Hshares & _ & _).
  apply Hshares. reflexivity.
Defined.

(** ** The retry budget *)

Ltac eval_counts :=
  rewrite ?calls_app, ?logins_app, ?length_app;
  repeat match goal with
  | |- context [calls (?ev :: ?l)] =>
      let v := eval cbv in (calls (ev :: l)) in
      change (calls (ev :: l)) with v
  | |- context [logins (?ev :: ?l)] =>
      let v := eval cbv in (logins (ev :: l)) in
      change (logins (ev :: l)) with v
  end;
  cbn [length].



(** X2: when the first attempt succeeds, its payload is the result and the
    remote call is all that happened: no login, no new client, no wait. *)
Theorem first_attempt_success env (op : wrapped) w payload :
  call_outcome env (calls (trace w)) (mm (self w)) (request_of env op)
  = Ok payload →
  run_wrapped env op w
  = (Ok payload, extend w [Call (mm (self w)) (request_of env op)]).
Proof.
  intros H1. rewrite run_wrapped_no_retry by by rewrite H1. by rewrite H1.
Qed.

Lemma first_attempt_success_witness :
  get_holdings holdings_run 32 example_world
  = (Ok example_holdings_response,
     extend example_world [Call 0%nat (get_account_holdings 32)]).
Proof.
  apply (first_attempt_success holdings_run (Get_holdings 32) example_world).
  vm_compute. reflexivity.
Defined.

(** X3: when the forced login after a 401 raises, that exception is the
    outcome of the call, whatever it is; there is no wait and no second
    attempt, and the instance is left holding the new client. *)
Theorem failed_relogin_propagates env (op : wrapped) w message e' :
  call_outcome env (calls (trace w)) (mm (self w)) (request_of env op)
  = Raise (TransportServerError (Some 401) message) →
  login_outcome env (logins (trace w)) (length (heap w)) false = Raise e' →
  ∃ w',
    run_wrapped env op w = (Raise e', w') ∧
    trace w'
    = trace w
      ++ [Call (mm (self w)) (request_of env op);
          Construct (length (heap w)) (configured_session_file (self w));
          forced_login (self w) (length (heap w))] ∧
    mm (self w') = length (heap w).
Proof.
  intros H1 Hlogin.
  pose proof (retrying_after_401 env op w _ H1 eq_refl) as Hrun.
  cbv zeta in Hrun. rewrite Hlogin in Hrun.
  eexists. split; [exact Hrun|]. split; [|reflexivity].
  cbn [extend renewed trace]. by rewrite <- !app_assoc.
Qed.

Lemma failed_relogin_propagates_witness :
  ∃ w',
    get_accounts locked_out_run example_world
    = (Raise (OtherError "LoginFailedException" None), w') ∧
    calls (trace w') = 1%nat ∧ mm (self w') = 1%nat.
Proof.
  destruct (failed_relogin_propagates locked_out_run Get_accounts
              example_world "KDD ERROR"
              (OtherError "LoginFailedException" None))
    as (w' & Hrun & Htrace & Hmm); [vm_compute; reflexivity..|].
  exists w'. split; [exact Hrun|]. split.
  - rewrite Htrace. vm_compute. reflexivity.
  - rewrite Hmm. vm_compute. reflexivity.
Defined.

(** ** What the methods do to the instance *)

Lemma same_configuration_refl this : same_configuration this this.
Proof. by destruct this. Qed.

Lemma same_configuration_trans a b c :
  same_configuration a b → same_configuration b c → same_configuration a c.
Proof. unfold same_configuration. intros <- <-. by destruct a. Qed.

Lemma same_configuration_session_file a b :
  same_configuration a b →
  configured_session_file b = configured_session_file a.
Proof. intros <-. reflexivity. Qed.

Lemma evolves_refl w : evolves w w.
Proof.
  split; [done|]. split; [apply same_configuration_refl|]. by split.
Qed.

Lemma evolves_trans w1 w2 w3 : evolves w1 w2 → evolves w2 w3 → evolves w1 w3.
Proof.
  intros (Hwf & Hc & Ht & Hh) (Hwf' & Hc' & Ht' & Hh').
  split; [auto|]. split; [by eapply same_configuration_trans|].
  split; by etrans.
Qed.

(** A step that keeps the instance and the heap and only adds events. *)
Lemma evolves_events w w' :
  self w' = self w → heap w' = heap w → trace w `prefix_of` trace w' →
  evolves w w'.
Proof.
  intros Hs Hh Ht. unfold evolves, well_formed. rewrite Hs, Hh.
  split; [done|]. split; [apply same_configuration_refl|]. by split.
Qed.

Lemma steady_ret {A} (a : A) : steady (mret a).
Proof. intros w. apply evolves_refl. Qed.

Lemma steady_lift {A} (r : result A) : steady (lift r).
Proof. intros w. apply evolves_refl. Qed.

Lemma steady_bind {A B} (m : M A) (f : A → M B) :
  steady m → (∀ a, steady (f a)) → steady (m ≫= f).
Proof.
  intros Hm Hf w. unfold mbind, M_bind. specialize (Hm w).
  destruct (m w) as [[a|e] w1]; [|done].
  eapply evolves_trans; [exact Hm|]. apply Hf.
Qed.

Lemma steady_get_self : steady get_self.
Proof. intros w. apply evolves_refl. Qed.

Lemma steady_log ev : steady (log ev).
Proof. intros w. apply evolves_events; try done. by apply prefix_app_r. Qed.

Lemma steady_open_w path : steady (open_w path).
Proof. intros w. by apply evolves_events. Qed.

Lemma steady_open_a path : steady (open_a path).
Proof.
  intros w. unfold open_a. destruct (files w !! path); by apply evolves_events.
Qed.

Lemma steady_write path text : steady (write path text).
Proof. intros w. by apply evolves_events. Qed.

Lemma steady_for_each {A} (l : list A) (body : A → M unit) :
  (∀ x, steady (body x)) → steady (for_each l body).
Proof.
  intros H. induction l as [|x l IH]; [apply steady_ret|].
  apply steady_bind; auto.
Qed.

Lemma steady_write_rows path fieldnames extras rows :
  steady (write_rows path fieldnames extras rows).
Proof.
  apply steady_for_each. intros row.
  apply steady_bind; auto using steady_lift, steady_write.
Qed.

Lemma steady_MonarchMoney_login env ref email password save use_saved mfa :
  steady (MonarchMoney_login env ref email password save use_saved mfa).
Proof. intros w. apply evolves_events; try done. by apply prefix_app_r. Qed.

Lemma steady_MonarchMoney_call env ref op :
  steady (MonarchMoney_call env ref op).
Proof. intros w. apply evolves_events; try done. by apply prefix_app_r. Qed.

Lemma steady__init_mm : steady _init_mm.
Proof.
  intros w. rewrite _init_mm_eq. cbn [snd]. split; [|split; [|split]].
  - intros [_ Hall]. split.
    + cbn [renewed self heap with_mm mm]. rewrite length_app. simpl. lia.
    + cbn [renewed self heap]. apply Forall_app. split; [done|].
      by repeat constructor.
  - reflexivity.
  - by apply prefix_app_r.
  - by apply prefix_app_r.
Qed.

Lemma steady_login env use_saved_session : steady (login env use_saved_session).
Proof.
  unfold login. apply steady_bind.
  - destruct use_saved_session; [apply steady_ret|apply steady__init_mm].
  - intros _. apply steady_bind; [apply steady_get_self|].
    intros this. apply steady_MonarchMoney_login.
Qed.

Lemma steady_retrying {A} env n (fn : M A) :
  steady fn → steady (retrying env n fn).
Proof.
  intros Hfn. induction n as [|n IH]; intros w; cbn [retrying];
    specialize (Hfn w); destruct (fn w) as [[a|e] w1]; try done;
    destruct (retry e); try done.
  eapply evolves_trans; [exact Hfn|].
  apply (steady_bind (wait_from_instance)).
  - apply steady_bind; [apply steady_get_self|]. intros; apply steady_ret.
  - intros sleep. apply steady_bind; [apply steady_login|].
    intros _. apply steady_bind; [apply steady_log|]. intros _. exact IH.
Qed.

Lemma steady_run_wrapped env op : steady (run_wrapped env op).
Proof.
  intros w. rewrite run_wrapped_unfold. revert w.
  apply steady_retrying, steady_bind; [apply steady_get_self|].
  intros this. apply steady_MonarchMoney_call.
Qed.

Lemma steady_write_transactions transactions :
  steady (write_transactions transactions).
Proof.
  repeat (apply steady_bind; [|intros ?]);
    auto using steady_get_self, steady_open_w, steady_write, steady_write_rows.
Qed.

Lemma steady_write_balances accounts : steady (write_balances accounts).
Proof.
  repeat (apply steady_bind; [|intros ?]);
    auto using steady_get_self, steady_open_w, steady_write, steady_write_rows.
Qed.

Lemma steady_write_balances_history accounts :
  steady (write_balances_history accounts).
Proof.
  unfold write_balances_history.
  apply steady_bind; [apply steady_get_self|]. intros this.
  apply steady_bind; [apply steady_open_a|]. intros pos.
  apply steady_bind; [|intros _; apply steady_write_rows].
  destruct (decide (pos = 0%nat)); auto using steady_write, steady_ret.
Qed.

Lemma steady_write_portfolio holdings : steady (write_portfolio holdings).
Proof.
  repeat (apply steady_bind; [|intros ?]);
    auto using steady_get_self, steady_open_w, steady_write, steady_write_rows.
Qed.

Lemma steady_report_transactions env : steady (report_transactions env).
Proof.
  unfold report_transactions.
  apply steady_bind; [apply (steady_run_wrapped env Get_categories)|].
  intros cats. apply steady_bind; [apply steady_lift|]. intros catmap.
  apply steady_bind; [apply (steady_run_wrapped env Get_transactions)|].
  intros txs. apply steady_bind; [apply steady_lift|]. intros loaded.
  apply steady_write_transactions.
Qed.

Lemma steady_report_balances env : steady (report_balances env).
Proof.
  unfold report_balances.
  apply steady_bind; [apply (steady_run_wrapped env Get_accounts)|].
  intros accounts. apply steady_bind; [apply steady_lift|]. intros loaded.
  apply steady_bind; [apply steady_write_balances|]. intros _.
  apply steady_bind; [apply steady_write_balances_history|]. intros _.
  apply steady_ret.
Qed.

Lemma steady_report_portfolio_loop env accounts all_holdings :
  steady (report_portfolio_loop env accounts all_holdings).
Proof.
  revert all_holdings.
  induction accounts as [|a accounts IH]; intros acc; [apply steady_ret|].
  cbn [report_portfolio_loop].
  destruct (0 <? Account_holdingsCount a); [|apply IH].
  apply steady_bind;
    [apply (steady_run_wrapped env (Get_holdings (Account_id a)))|].
  intros holdings. apply steady_bind; [apply steady_lift|]. intros hq.
  apply IH.
Qed.

Lemma steady_report_portfolio env accounts :
  steady (report_portfolio env accounts).
Proof.
  apply steady_bind; [apply steady_report_portfolio_loop|].
  intros all. apply steady_write_portfolio.
Qed.

Lemma steady_run_method env m : steady (run_method env m).
Proof.
  destruct m; cbn [run_method];
    auto using steady_login, steady_write_transactions,
      steady_report_transactions, steady_write_balances,
      steady_write_balances_history, steady_write_portfolio,
      steady_report_portfolio.
  - apply steady_bind; [apply steady_run_wrapped|]. intros; apply steady_ret.
  - apply steady_bind; [apply steady_report_balances|].
    intros; apply steady_ret.
Qed.

(** X4: through any sequence of method calls, whatever each of them ends
    with, an instance that holds its newest client keeps doing so, every
    client is constructed with the session file the instance was given, no
    attribute but [mm] changes, and clients and events are only added. *)
Theorem methods_keep_instance env (ms : list method) w :
  well_formed w →
  let w' := after env ms w in
  well_formed w' ∧
  same_configuration (self w) (self w') ∧
  trace w `prefix_of` trace w' ∧
  heap w `prefix_of` heap w'.
Proof.
  intros Hwf. cbv zeta.
  assert (evolves w (after env ms w)) as (H & ?).
  { clear Hwf. revert w. induction ms as [|m ms IH]; intros w.
    - apply evolves_refl.
    - cbn [after foldl]. eapply evolves_trans; [apply steady_run_method|].
      apply IH. }
  auto.
Qed.

Lemma methods_keep_instance_witness :
  mm (self (after twice_stale_run
              [Method_login true; Method_report_balances;
               Method_report_transactions; Method_report_portfolio []]
              example_world))
  = 2%nat.
Proof.
  destruct (methods_keep_instance twice_stale_run
              [Method_login true; Method_report_balances;
               Method_report_transactions; Method_report_portfolio []]
              example_world) as ([Hmm _] & _).
  - split; [reflexivity|]. vm_compute. repeat constructor.
  - apply (inj S). rewrite Hmm. vm_compute. reflexivity.
Defined.


(** ** What the writers leave in their file *)

Lemma bind_Ok_inv {A B} (m : M A) (f : A → M B) w b w' :
  (m ≫= f) w = (Ok b, w') → ∃ a w1, m w = (Ok a, w1) ∧ f a w1 = (Ok b, w').
Proof.
  unfold mbind, M_bind. destruct (m w) as [[a|e] w1]; [eauto|done].
Qed.


(** A file opened with [mode="w"]: header and records replace what it
    held. *)
Lemma overwrite_eq path fieldnames extras rows records w :
  Forall2 (λ row fields, _dict_to_list fieldnames extras row = Ok fields)
    rows records →
  (_ ← open_w path;
   _ ← write path (DictWriter_writeheader fieldnames);
   write_rows path fieldnames extras rows) w
  = (Ok (), with_file w path (csv_lines (fieldnames :: records))).
Proof.
  intros H. unfold mbind at 1. unfold M_bind at 1. cbn [open_w].
  unfold mbind at 1. unfold M_bind at 1. rewrite write_eq.
  cbn [files]. rewrite lookup_insert_eq. cbn [default].
  rewrite append_nil_l.
  change {| self := self w; heap := heap w; trace := trace w;
            files := <[path:=""]> (files w) |}
    with (with_file w path "").
  rewrite with_file_with_file.
  by rewrite (write_rows_eq _ _ _ _ records).
Qed.

Lemma write_transactions_eq transactions w :
  write_transactions transactions w
  = (Ok (),
     with_file w (fn_tx_report (self w))
       (csv_lines (TRANSACTIONS_HEADER
                   :: (transaction_record <$> transactions)))).
Proof.
  unfold write_transactions. unfold mbind at 1. unfold M_bind at 1.
  cbn [get_self]. apply overwrite_eq, Forall2_fmap_same.
  intros t. apply Transaction_dict_to_list.
Qed.

Lemma write_balances_eq accounts w :
  write_balances accounts w
  = (Ok (),
     with_file w (fn_balance_report (self w))
       (csv_lines (BALANCES_HEADER :: (account_record <$> accounts)))).
Proof.
  unfold write_balances. unfold mbind at 1. unfold M_bind at 1.
  cbn [get_self]. apply overwrite_eq, Forall2_fmap_same.
  intros a. apply Account_dict_to_list.
Qed.


(** X7: the history writer only ever appends.  What the file held stays at
    its start; the header follows only when the file was missing or empty,
    then one record per account.  No other file changes. *)
Theorem balances_history_appends accounts w :
  let path := fn_balance_history_report (self w) in
  let old := default "" (files w !! path) in
  write_balances_history accounts w
  = (Ok (),
     with_file w path
       (old
        +:+ (if decide (old = "") then DictWriter_writeheader BALANCES_HEADER
             else "")
        +:+ csv_lines (account_record <$> accounts))).
Proof.
  intros path old. rewrite write_balances_history_eq. fold path.
  assert (history_prefix (files w !! path)
          = old +:+ (if decide (old = "")
                     then DictWriter_writeheader BALANCES_HEADER else ""))
    as ->; [|by rewrite append_assoc].
  subst old.
  destruct (files w !! path) as [[|c s]|]; cbn [default history_prefix];
    case_decide; try done.
  by rewrite append_nil_r.
Qed.

(** ** Reports *)

Lemma lift_inv {A} (r : result A) w r' w' :
  lift r w = (r', w') → r' = r ∧ w' = w.
Proof. by intros [= <- <-]. Qed.


Lemma same_configuration_run env op w r w1 :
  run_wrapped env op w = (r, w1) → same_configuration (self w) (self w1).
Proof.
  intros H. destruct (steady_run_wrapped env op w) as (_ & Hc & _).
  by rewrite H in Hc.
Qed.






Lemma same_configuration_paths a b :
  same_configuration a b →
  fn_tx_report b = fn_tx_report a ∧
  fn_balance_report b = fn_balance_report a ∧
  fn_balance_history_report b = fn_balance_history_report a ∧
  fn_portfolio_report b = fn_portfolio_report a.
Proof. by intros <-. Qed.

(** X9: when [report_balances] returns, the rows it returns are the load of
    an answer of the service to the accounts request, and they are the rows
    written: whole to the balances file, after what it held to the history
    file.  The two paths are taken to differ. *)
Theorem report_balances_returns_written_rows env w rows w' :
  fn_balance_report (self w) ≠ fn_balance_history_report (self w) →
  report_balances env w = (Ok rows, w') →
  let records := account_record <$> rows in
  (∃ n ref payload,
     (calls (trace w) ≤ n < calls (trace w'))%nat ∧
     call_outcome env n ref get_accounts_call = Ok payload ∧
     AccountsQuerySchema.load (tz env) payload = Ok rows) ∧
  files w'
  = <[fn_balance_history_report (self w) :=
        history_prefix (files w !! fn_balance_history_report (self w))
        +:+ csv_lines records]>
      (<[fn_balance_report (self w) := csv_lines (BALANCES_HEADER :: records)]>
         (files w)).
Proof.
  intros Hpaths Hrun records. unfold report_balances in Hrun.
  apply bind_Ok_inv in Hrun as (payload & w1 & H1 & Hrun).
  apply bind_Ok_inv in Hrun as (rows' & w2 & H2 & Hrun).
  apply lift_inv in H2 as [H2 ->].
  apply bind_Ok_inv in Hrun as ([] & w3 & H3 & Hrun).
  apply bind_Ok_inv in Hrun as ([] & w4 & H4 & Hrun).
  injection Hrun as -> ->.
  rewrite write_balances_eq in H3. injection H3 as <-.
  rewrite write_balances_history_eq in H4. injection H4 as <-.
  destruct (same_configuration_paths _ _
              (same_configuration_run env Get_accounts _ _ _ H1))
    as (_ & Hb & Hh & _).
  destruct (run_wrapped_spec env Get_accounts _ _ _ H1)
    as (evs & Htr & Hf & _ & _ & _ & Hpayload).
  split.
  - destruct (Hpayload payload eq_refl) as (n & ref & Hn & Hcall).
    exists n, ref, payload. cbn [with_file trace]. done.
  - cbn [with_file files self]. rewrite Hb, Hh, Hf.
    by rewrite lookup_insert_ne.
Qed.

Lemma report_balances_returns_written_rows_witness :
  let run :=
    report_balances (scripted [Ok example_accounts_response]) example_world in
  run.1 = Ok example_accounts ∧
  files run.2 !! "rb.csv"
  = Some (csv_lines (BALANCES_HEADER
                     :: (account_record <$> example_accounts))) ∧
  files run.2 !! "rbh.csv"
  = Some (csv_lines (BALANCES_HEADER
                     :: (account_record <$> example_accounts))).
Proof.
  intros run. split; [vm_compute; reflexivity|].
  destruct (report_balances_returns_written_rows
              (scripted [Ok example_accounts_response]) example_world
              example_accounts run.2) as [_ Hfiles].
  - vm_compute. discriminate.
  - vm_compute. reflexivity.
  - rewrite Hfiles. split; vm_compute; reflexivity.
Defined.





(** ** Which responses load *)

Lemma comprehension_Raise_inv {A B} (f : A → result B) l e :
  comprehension f l = Raise e → ∃ x, x ∈ l ∧ f x = Raise e.
Proof.
  induction l as [|x l IH]; simpl; [done|].
  destruct (f x) as [y|e'] eqn:Hx; simpl.
  - destruct (comprehension f l) as [ys|e'']; simpl; [done|].
    intros [= ->]. destruct IH as (x' & Hin & Hx'); [done|].
    exists x'. split; [by right|done].
  - intros [= ->]. exists x. split; [left|done].
Qed.

Lemma comprehension_of_Forall2 {A B} (f : A → result B) l rows :
  Forall2 (λ x y, f x = Ok y) l rows → comprehension f l = Ok rows.
Proof.
  induction 1 as [|x y l rows Hx _ IH]; simpl; [done|]. by rewrite Hx, IH.
Qed.

(** A load in two passes, validation of every element and then
    construction of every row, succeeds when each element passes both. *)
Lemma two_pass_Ok {A B C} (f : A → result B) (g : B → result C) l rows :
  (xs ← comprehension f l; comprehension g xs) = Ok rows
  ↔ Forall2 (λ a row, ∃ b, f a = Ok b ∧ g b = Ok row) l rows.
Proof.
  split.
  - intros (xs & Hf%comprehension_Forall2 & Hg%comprehension_Forall2)
      %result_bind_Ok_inv.
    revert rows Hg. induction Hf as [|a b l xs Ha _ IH]; intros rows Hg.
    + inversion Hg. constructor.
    + inversion Hg as [|? row ? rows' Hb Hrest]; subst.
      constructor; eauto.
  - intros H.
    assert (∃ xs, Forall2 (λ a b, f a = Ok b) l xs
                  ∧ Forall2 (λ b row, g b = Ok row) xs rows)
      as (xs & Hf & Hg).
    { induction H as [|a row l rows (b & Ha & Hb) _ (xs & Hf & Hg)].
      - exists []. split; constructor.
      - exists (b :: xs). split; constructor; done. }
    rewrite (comprehension_of_Forall2 _ _ _ Hf). simpl.
    by apply comprehension_of_Forall2.
Qed.

Lemma Forall2_of_forallb {A B} (P : A → B → Prop) (p : A → bool) l :
  (∀ a, p a = true → ∃ b, P a b) →
  forallb p l = true → ∃ rows, Forall2 P l rows.
Proof.
  intros H. induction l as [|a l IH]; simpl.
  - exists []. constructor.
  - intros [Ha Hl]%andb_prop. destruct (H a Ha) as [b Hb].
    destruct (IH Hl) as [rows Hrows]. exists (b :: rows). by constructor.
Qed.

Lemma forallb_of_Forall2 {A B} (P : A → B → Prop) (p : A → bool) l rows :
  (∀ a b, P a b → p a = true) → Forall2 P l rows → forallb p l = true.
Proof.
  intros H. induction 1 as [|a b l rows Hab _ IH]; simpl; [done|].
  by rewrite (H a b Hab), IH.
Qed.





(** Case analysis on every key that a load reads, in a hypothesis that
    says the load succeeded. *)
Ltac destruct_keys H :=
  repeat (simpl in H; try unfold getitem in H;
          match type of H with
          | context [match ?o with Some _ => _ | None => _ end] =>
              destruct o eqn:?; try discriminate H
          end);
  simpl in H; try discriminate H.

Ltac rewrite_parsed :=
  repeat match goal with
  | H : Decimal_of_str ?s = _ |- context [Decimal_of_str ?s] => rewrite H
  end.

Lemma HoldingsQuerySchema_load_unfold (r : response string) p c es :
  portfolio r = Some p → aggregateHoldings p = Some c → edges c = Some es →
  HoldingsQuerySchema.load r
  = (xs ← comprehension AggregateHoldingEdgeSchema.load es;
     comprehension Holding.__init__ xs).
Proof.
  intros Hr Hp Hc. unfold HoldingsQuerySchema.load,
    HoldingsQuerySchema.validate, Nested, PortfolioSchema.load, Nested,
    AggregateHoldingsConnectionSchema.load, List_Nested, Nested.
  rewrite Hr, Hp, Hc.
  by destruct (comprehension AggregateHoldingEdgeSchema.load es).
Qed.

Lemma HoldingsQuerySchema_load_Ok_inv (r : response string) rows :
  HoldingsQuerySchema.load r = Ok rows →
  ∃ p c es,
    portfolio r = Some p ∧ aggregateHoldings p = Some c ∧ edges c = Some es.
Proof.
  unfold HoldingsQuerySchema.load, HoldingsQuerySchema.validate, Nested,
    PortfolioSchema.load, Nested, AggregateHoldingsConnectionSchema.load,
    List_Nested, Nested, HoldingsQuerySchema.make_csv_rows.
  destruct (portfolio r) as [p|]; simpl; [|done].
  destruct (aggregateHoldings p) as [c|] eqn:Hp; simpl; [|done].
  destruct (edges c) as [es|] eqn:Hc; simpl; [|done].
  intros _. by exists p, c, es.
Qed.

Lemma Holding_of_edge (e : AggregateHoldingEdge string) e' h :
  AggregateHoldingEdgeSchema.load e = Ok e' → Holding.__init__ e' = Ok h →
  edge_complete e = true ∧
  Holding_account h = None ∧
  edge_ticker e = Some (Holding_ticker h) ∧
  Decimal_str <$> parsed (edge_quantity e) = Some (Holding_shares h) ∧
  Decimal_str <$> parsed (edge_price e) = Some (Holding_price h) ∧
  Decimal_str <$> parsed (edge_basis e) = Some (Holding_cost h).
Proof.
  intros Hload Hinit.
  destruct e as [[[nid q b tv [[sid sname tk pr]|]]|]];
    unfold AggregateHoldingEdgeSchema.load, AggregateHoldingSchema.load,
      SecuritySchema.load, Nested, Decimal_field, required in Hload;
    destruct_keys Hload; injection Hload as <-;
    unfold Holding.__init__ in Hinit; destruct_keys Hinit;
    injection Hinit as <-; simplify_eq;
    unfold edge_complete, parses, edge_ticker, edge_price, edge_security,
      edge_quantity, edge_basis; simpl; rewrite_parsed; done.
Qed.

Lemma edge_complete_row (e : AggregateHoldingEdge string) :
  edge_complete e = true →
  ∃ e' h, AggregateHoldingEdgeSchema.load e = Ok e'
          ∧ Holding.__init__ e' = Ok h.
Proof.
  unfold edge_complete, parses. intros H.
  destruct e as [[[nid q b tv [[sid sname tk pr]|]]|]]; simpl in H;
    try discriminate H.
  - repeat (apply andb_prop in H as [H ?]).
    destruct nid, q as [q|], b as [b|], sid, tk, pr as [pr|];
      try discriminate.
    destruct (Decimal_of_str q) eqn:?, (Decimal_of_str b) eqn:?,
      (Decimal_of_str pr) eqn:?; try discriminate.
    unfold AggregateHoldingEdgeSchema.load, AggregateHoldingSchema.load,
      SecuritySchema.load, Nested, Decimal_field, required. simpl.
    rewrite_parsed. simpl.
    destruct tv as [tv|]; [destruct (Decimal_of_str tv) eqn:?; [|done]|];
      simpl; rewrite_parsed; simpl; eexists _, _; split; reflexivity.
  - by rewrite andb_false_r in H.
Qed.

(** X13: a response loads as holdings exactly when it has the edges of a
    portfolio and every edge has a node with its [id], numbers for
    [quantity] and [basis] (and for [totalValue] when it is there), and a
    security with its [id], a [ticker] and a number for [currentPrice].
    The rows then follow the edges one to one and in order, and every row
    comes out without an account name. *)
Theorem holdings_load_when_complete (r : response string) :
  (∀ p c es,
     portfolio r = Some p → aggregateHoldings p = Some c →
     edges c = Some es → forallb edge_complete es = true →
     is_ok (HoldingsQuerySchema.load r) = true) ∧
  (∀ rows, HoldingsQuerySchema.load r = Ok rows →
     ∃ p c es,
       portfolio r = Some p ∧ aggregateHoldings p = Some c ∧
       edges c = Some es ∧ forallb edge_complete es = true ∧
       Forall2
         (λ e h,
            Holding_account h = None ∧
            edge_ticker e = Some (Holding_ticker h) ∧
            Decimal_str <$> parsed (edge_quantity e)
            = Some (Holding_shares h) ∧
            Decimal_str <$> parsed (edge_price e) = Some (Holding_price h) ∧
            Decimal_str <$> parsed (edge_basis e) = Some (Holding_cost h))
         es rows).
Proof.
  split.
  - intros p c es Hr Hp Hc Hes.
    rewrite (HoldingsQuerySchema_load_unfold r p c es Hr Hp Hc).
    destruct (Forall2_of_forallb
                (λ e h, ∃ e', AggregateHoldingEdgeSchema.load e = Ok e'
                              ∧ Holding.__init__ e' = Ok h)
                edge_complete es) as [rows Hrows].
    + intros e (e' & h & H)%edge_complete_row. eauto.
    + done.
    + apply two_pass_Ok in Hrows. by rewrite Hrows.
  - intros rows Hload.
    destruct (HoldingsQuerySchema_load_Ok_inv r rows Hload)
      as (p & c & es & Hr & Hp & Hc).
    rewrite (HoldingsQuerySchema_load_unfold r p c es Hr Hp Hc) in Hload.
    apply two_pass_Ok in Hload. exists p, c, es.
    split; [done|]. split; [done|]. split; [done|]. split.
    + eapply forallb_of_Forall2; [|exact Hload].
      intros e h (e' & H1 & H2). by eapply Holding_of_edge.
    + eapply Forall2_impl; [exact Hload|].
      intros e h (e' & H1 & H2).
      by destruct (Holding_of_edge e e' h H1 H2) as (_ & ?).
Qed.

Lemma CategoryQuerySchema_load_unfold (r : response string) cats :
  categories r = Some cats →
  CategoryQuerySchema.load r
  = (xs ← comprehension CategorySchema.load cats;
     CategoryQuerySchema.make_map_loop xs ∅).
Proof.
  intros Hr. unfold CategoryQuerySchema.load, CategoryQuerySchema.validate,
    List_Nested, Nested. rewrite Hr.
  by destruct (comprehension CategorySchema.load cats).
Qed.

Lemma make_map_loop_Ok_inv cats catmap m :
  CategoryQuerySchema.make_map_loop cats catmap = Ok m →
  Forall (λ c, ∃ kv, category_entry c = Some kv) cats.
Proof.
  revert catmap. induction cats as [|c cats IH]; intros catmap H;
    [constructor|].
  cbn [CategoryQuerySchema.make_map_loop] in H.
  apply result_bind_Ok_inv in H as (g & Hg & H).
  apply result_bind_Ok_inv in H as (name & Hname & H).
  apply result_bind_Ok_inv in H as (id & Hid & H).
  constructor; [|by eapply IH].
  unfold category_entry.
  destruct (Category_group c) as [g'|]; [|done]. injection Hg as ->.
  destruct (Group_name g) as [name'|] eqn:Hg'; [|done].
  destruct (Category_id c) as [id'|]; [|done]. simpl. rewrite Hg'.
  simpl. eauto.
Qed.

Lemma CategorySchema_load_entry c c' kv :
  CategorySchema.load c = Ok c' → category_entry c' = Some kv →
  category_complete c = true.
Proof.
  intros Hload Hentry.
  destruct c as [id name [[gid gname]|]];
    unfold CategorySchema.load, GroupSchema.load, Nested, required in Hload;
    destruct_keys Hload; injection Hload as <-;
    unfold category_entry in Hentry; simpl in Hentry; simplify_eq;
    unfold category_complete; simpl; by destruct gname.
Qed.

(** X14: a response loads as the category lookup exactly when it has a
    [categories] list in which every category has its [id] and a [group]
    that has an [id] and a [name]. *)
Theorem categories_load_when_complete (r : response string) :
  is_ok (CategoryQuerySchema.load r) = true
  ↔ ∃ cats, categories r = Some cats ∧ forallb category_complete cats = true.
Proof.
  split.
  - destruct (categories r) as [cats|] eqn:Hr.
    2: { unfold CategoryQuerySchema.load, CategoryQuerySchema.validate,
           List_Nested, Nested. by rewrite Hr. }
    rewrite (CategoryQuerySchema_load_unfold r cats Hr).
    destruct (comprehension CategorySchema.load cats) as [xs|] eqn:Hxs;
      [|done].
    simpl. destruct (CategoryQuerySchema.make_map_loop xs ∅) as [m|] eqn:Hm;
      [|done].
    intros _. exists cats. split; [done|].
    apply comprehension_Forall2 in Hxs.
    apply make_map_loop_Ok_inv in Hm.
    clear Hr. induction Hxs as [|c c' cats xs Hc _ IH]; [done|].
    inversion Hm as [|? ? [kv Hkv] Hrest]; subst. simpl.
    by rewrite (CategorySchema_load_entry c c' kv Hc Hkv), IH.
  - intros (cats & Hr & Hc).
    destruct (CategoryQuerySchema_load_complete r cats Hr Hc)
      as (kvs & _ & ->).
    done.
Qed.

Lemma TransactionsQuerySchema_load_Ok_inv catmap (r : response string) rows :
  TransactionsQuerySchema.load (Some catmap) r = Ok rows →
  ∃ l txs, allTransactions r = Some l ∧ results l = Some txs.
Proof.
  unfold TransactionsQuerySchema.load, TransactionsQuerySchema.validate,
    Nested, TransactionListSchema.load, List_Nested, Nested,
    TransactionsQuerySchema.make_csv_rows.
  destruct (allTransactions r) as [l|]; simpl; [|done].
  destruct (results l) as [txs|] eqn:Hl; simpl; [|done].
  intros _. by exists l, txs.
Qed.

Lemma Transaction_of_data_inv (t : TransactionData string) t' catmap row :
  TransactionSchema.load t = Ok t' →
  Transaction.__init__ t' catmap = Ok row →
  transaction_complete t && category_known catmap t = true.
Proof.
  intros Hload Hinit.
  destruct t as [tid am d n [[mid mn]|] [[aid dn bal hc ua]|] [[cid cn cg]|]];
    unfold TransactionSchema.load, MerchantSchema.load, AccountSchema.load,
      CategorySchema'.load, Nested, Decimal_field, required in Hload;
    destruct_keys Hload; injection Hload as <-;
    unfold Transaction.__init__ in Hinit; destruct_keys Hinit;
    injection Hinit as <-; simplify_eq;
    unfold transaction_complete, category_known; simpl; rewrite_parsed;
    simpl;
    repeat match goal with
    | H : ?m !! ?k = Some _ |- context [?m !! ?k] => rewrite H
    end; done.
Qed.

(** X15: under a lookup, a response loads as transactions exactly when it
    has the results of [allTransactions] and every transaction has each key
    that the row reads, passes validation, and has a category whose
    stringified [id] is a key of the lookup. *)
Theorem transactions_load_when_known catmap (r : response string) :
  is_ok (TransactionsQuerySchema.load (Some catmap) r) = true
  ↔ ∃ l txs,
      allTransactions r = Some l ∧ results l = Some txs ∧
      forallb (λ t, transaction_complete t && category_known catmap t) txs
      = true.
Proof.
  split.
  - destruct (TransactionsQuerySchema.load (Some catmap) r) as [rows|]
      eqn:Hload; [|done].
    intros _.
    destruct (TransactionsQuerySchema_load_Ok_inv catmap r rows Hload)
      as (l & txs & Hr & Hl).
    exists l, txs. split; [done|]. split; [done|].
    rewrite (TransactionsQuerySchema_load_unfold catmap r l txs Hr Hl)
      in Hload.
    apply two_pass_Ok in Hload.
    eapply forallb_of_Forall2; [|exact Hload].
    intros t row (t' & H1 & H2). by eapply Transaction_of_data_inv.
  - intros (l & txs & Hr & Hl & Htxs).
    rewrite (TransactionsQuerySchema_load_unfold catmap r l txs Hr Hl).
    destruct (Forall2_of_forallb
                (λ t row, ∃ t', TransactionSchema.load t = Ok t'
                                ∧ Transaction.__init__ t' catmap = Ok row)
                (λ t, transaction_complete t && category_known catmap t) txs)
      as [rows Hrows].
    + intros t [Hc Hk]%andb_prop. unfold category_known in Hk.
      destruct (category t) as [c|] eqn:Hcat; [|done].
      destruct (Category_id c) as [cid|] eqn:Hcid; [|done].
      apply present_Some in Hk as [g Hg].
      destruct (Transaction_of_complete t catmap c cid g Hc Hcat Hcid Hg)
        as (t' & row & H1 & H2 & _).
      eauto.
    + done.
    + apply two_pass_Ok in Hrows. by rewrite Hrows.
Qed.

(** ** The exceptions of a load *)

Lemma raises_only_bind {A B} p (r : result A) (f : A → result B) :
  raises_only p r → (∀ a, raises_only p (f a)) → raises_only p (r ≫= f).
Proof. destruct r as [a|e]; simpl; auto. Qed.

Lemma raises_only_fmap {A B} p (r : result A) (f : A → B) :
  raises_only p r → raises_only p (f <$> r).
Proof. by destruct r. Qed.

Lemma raises_only_getitem {A} key (o : option A) :
  raises_only load_error (getitem key o).
Proof. by destruct o. Qed.

Lemma raises_only_required {A} field (o : option A) :
  raises_only load_error (required field o).
Proof. by destruct o. Qed.

Lemma raises_only_Decimal_field field o :
  raises_only load_error (Decimal_field field o).
Proof. destruct o as [s|]; [|done]. simpl. by destruct (Decimal_of_str s). Qed.

Lemma raises_only_comprehension {A B} p (f : A → result B) l :
  (∀ x, raises_only p (f x)) → raises_only p (comprehension f l).
Proof.
  intros H. induction l as [|x l IH]; [done|]. simpl.
  apply raises_only_bind; [done|]. intros y.
  by apply raises_only_bind.
Qed.

Lemma raises_only_Nested {A B} p (load : A → result B) o :
  (∀ a, raises_only p (load a)) → raises_only p (Nested load o).
Proof. intros H. destruct o; [|done]. by apply raises_only_fmap. Qed.

Ltac raises_only :=
  repeat first
    [ apply raises_only_getitem
    | apply raises_only_required
    | apply raises_only_Decimal_field
    | apply raises_only_bind; [|intros ?]
    | apply raises_only_Nested; intros ?
    | apply raises_only_comprehension; intros ?
    | exact I ].

Lemma raises_only_AccountSchema a :
  raises_only load_error (AccountSchema.load a).
Proof. unfold AccountSchema.load. raises_only. Qed.

Lemma raises_only_TransactionSchema t :
  raises_only load_error (TransactionSchema.load t).
Proof.
  unfold TransactionSchema.load. raises_only.
Qed.



(** ** [main] *)





Lemma login_true_eq env w :
  login env true w
  = (login_outcome env (logins (trace w)) (mm (self w)) true,
     extend w [Login (mm (self w)) (un (self w)) (pw (self w)) true true
                 (token (self w))]).
Proof. reflexivity. Qed.


Lemma main_eq env args files0 :
  arguments_given args →
  main env args files0
  = let '(r, w') := run_reports env (main_instance args files0) in
    (r, trace w', files w').
Proof.
  intros (Hu & Hp & Ht & Hrest). unfold main, main_instance, __init__.
  rewrite decide_False by (unfold arguments_given in *; tauto).
  rewrite decide_False by tauto.
  rewrite _init_mm_eq. reflexivity.
Qed.

Lemma main_instance_eq args files0 :
  arguments_given args →
  self (main_instance args files0)
  = {| un := arg_username args; pw := arg_password args;
       token := arg_token args;
       fn_tx_report := arg_report_transactions args;
       fn_balance_report := arg_report_balances args;
       fn_balance_history_report := arg_report_balances_history args;
       fn_portfolio_report := arg_report_portfolio args;
       retry_delay := RETRY_DELAY; session_file := arg_session args;
       mm := 0%nat |} ∧
  trace (main_instance args files0)
  = [Construct 0
       (if truth (arg_session args) then arg_session args else None)] ∧
  files (main_instance args files0) = files0.
Proof.
  intros (Hu & Hp & Ht & Hrest). unfold main_instance, __init__.
  rewrite decide_False by tauto. rewrite _init_mm_eq. done.
Qed.

Lemma main_without_arguments env args files0 :
  ¬ arguments_given args →
  main env args files0
  = (Raise (OtherError "AssertionError" None), [], files0).
Proof.
  intros H. unfold main. rewrite decide_True; [done|].
  unfold arguments_given in H.
  destruct (decide (arg_username args = EmptyString)); [tauto|].
  destruct (decide (arg_password args = EmptyString)); [tauto|].
  destruct (decide (arg_token args = EmptyString)); [tauto|].
  destruct (decide (arg_report_balances args = EmptyString)); [tauto|].
  destruct (decide (arg_report_balances_history args = EmptyString));
    [tauto|].
  destruct (decide (arg_report_transactions args = EmptyString)); [tauto|].
  destruct (decide (arg_report_portfolio args = EmptyString)); tauto.
Qed.

(** X17: [main] asserts on its arguments before anything else: with an
    empty user name, password, token or report path it ends in an
    [AssertionError] with nothing constructed and no file touched.
    Otherwise it constructs the client and logs in with the saved session
    allowed, before any remote call; when that login raises, the exception
    ends [main], no remote call is made and no file is touched. *)
Theorem main_asserts_then_logs_in env args files0 :
  (¬ arguments_given args →
   main env args files0
   = (Raise (OtherError "AssertionError" None), [], files0)) ∧
  (arguments_given args →
   ∃ r rest fs,
     main env args files0
     = (r,
        [Construct 0
           (if truth (arg_session args) then arg_session args else None);
         Login 0 (arg_username args) (arg_password args) true true
           (arg_token args)] ++ rest,
        fs) ∧
     match login_outcome env 0 0 true with
     | Raise e => r = Raise e ∧ rest = [] ∧ fs = files0
     | Ok _ => True
     end).
Proof.
  split.
  - apply main_without_arguments.
  - intros H. rewrite (main_eq env args files0 H).
    destruct (main_instance_eq args files0 H) as (Hs & Htr & Hf).
    destruct (run_reports env (main_instance args files0)) as [r w'] eqn:Hrun.
    unfold run_reports in Hrun.
    unfold mbind at 1 in Hrun. unfold M_bind at 1 in Hrun.
    rewrite login_true_eq in Hrun. rewrite Htr, Hs in Hrun.
    cbn [mm un pw token] in Hrun.
    change (logins [Construct 0 _]) with 0%nat in Hrun.
    destruct (login_outcome env 0 0 true) as [[]|e].
    + pose proof (steady_bind (report_balances env)
                    (λ accounts_query,
                       _ ← report_transactions env;
                       report_portfolio env accounts_query)
                    (steady_report_balances env)
                    (λ a, steady_bind _ _ (steady_report_transactions env)
                            (λ _, steady_report_portfolio env a)))
        as Hsteady.
      match type of Hrun with
      | _ ?w = _ => destruct (Hsteady w) as (_ & _ & [rest Hrest] & _)
      end.
      rewrite Hrun in Hrest. cbn [snd extend trace] in Hrest.
      rewrite Htr in Hrest. rewrite <- app_assoc in Hrest.
      exists r, rest, (files w'). by rewrite Hrest.
    + injection Hrun as <- <-. eexists _, [], _.
      cbn [extend trace files]. rewrite Htr, Hf.
      split; [reflexivity|done].
Qed.

Lemma main_asserts_then_logs_in_witness :
  main locked_out_run example_arguments ∅
  = (Raise (OtherError "LoginFailedException" None),
     [Construct 0 (Some "session.pickle");
      Login 0 "blah" "blah" true true "blah"],
     ∅).
Proof.
  destruct (main_asserts_then_logs_in locked_out_run example_arguments ∅)
    as [_ H].
  destruct H as (r & rest & fs & Hmain & Hr & Hrest & Hfs).
  - repeat split; discriminate.
  - rewrite Hmain, Hr, Hrest, Hfs. reflexivity.
Defined.




Lemma holdings_load_when_complete_witness :
  is_ok (HoldingsQuerySchema.load example_holdings_response) = true.
Proof.
  destruct (holdings_load_when_complete example_holdings_response) as [H _].
  eapply H; [reflexivity..|]. vm_compute. reflexivity.
Defined.

Lemma categories_load_when_complete_witness :
  is_ok (CategoryQuerySchema.load (categories_response duplicate_categories))
  = true.
Proof.
  apply (categories_load_when_complete
           (categories_response duplicate_categories)).
  exists duplicate_categories. split; [reflexivity|].
  vm_compute. reflexivity.
Defined.

Lemma transactions_load_when_known_witness :
  is_ok (TransactionsQuerySchema.load (Some example_catmap)
           (transactions_response example_transactions))
  = true.
Proof.
  apply (transactions_load_when_known example_catmap
           (transactions_response example_transactions)).
  eexists _, _. split; [reflexivity|]. split; [reflexivity|].
  vm_compute. reflexivity.
Defined.

(** ** The calendar *)

Ltac euclid := Z.to_euclidean_division_equations; lia.

Lemma year_decomposition y :
  1 ≤ y →
  ∃ a b c e,
    y - 1 = 400 * a + 100 * b + 4 * c + e ∧
    0 ≤ a ∧ 0 ≤ b < 4 ∧ 0 ≤ c < 25 ∧ 0 ≤ e < 4.
Proof.
  intros Hy.
  exists ((y - 1) / 400), ((y - 1) mod 400 / 100), ((y - 1) mod 100 / 4),
    ((y - 1) mod 4).
  euclid.
Qed.

Lemma _days_before_year_eq y a b c e :
  y - 1 = 400 * a + 100 * b + 4 * c + e →
  0 ≤ b < 4 → 0 ≤ c < 25 → 0 ≤ e < 4 →
  _days_before_year y = 146097 * a + 36524 * b + 1461 * c + 365 * e.
Proof. intros Hy Hb Hc He. unfold _days_before_year. cbv zeta. euclid. Qed.

Lemma _is_leap_eq y a b c e :
  y - 1 = 400 * a + 100 * b + 4 * c + e →
  0 ≤ b < 4 → 0 ≤ c < 25 → 0 ≤ e < 4 →
  _is_leap y = (e =? 3) && (negb (c =? 24) || (b =? 3)).
Proof.
  intros Hy Hb Hc He. unfold _is_leap.
  destruct (Z.eqb_spec (y mod 4) 0), (Z.eqb_spec (y mod 100) 0),
    (Z.eqb_spec (y mod 400) 0), (Z.eqb_spec e 3), (Z.eqb_spec c 24),
    (Z.eqb_spec b 3); simpl; try reflexivity; exfalso; euclid.
Qed.

Lemma _ord2ymd_within n a b c e doy :
  n - 1 = 146097 * a + 36524 * b + 1461 * c + 365 * e + doy →
  0 ≤ b < 4 → 0 ≤ c < 25 → 0 ≤ e < 4 → 0 ≤ doy < 365 →
  _ord2ymd n
  = month_day (400 * a + 100 * b + 4 * c + e + 1)
      ((e =? 3) && (negb (c =? 24) || (b =? 3))) doy.
Proof.
  intros Hn Hb Hc He Hdoy. unfold _ord2ymd, _DI400Y, _DI100Y, _DI4Y.
  cbv zeta.
  assert ((n - 1) / 146097 = a) as -> by euclid.
  assert ((n - 1) mod 146097 = 36524 * b + 1461 * c + 365 * e + doy) as ->
    by euclid.
  assert ((36524 * b + 1461 * c + 365 * e + doy) / 36524 = b) as -> by euclid.
  assert ((36524 * b + 1461 * c + 365 * e + doy) mod 36524
          = 1461 * c + 365 * e + doy) as -> by euclid.
  assert ((1461 * c + 365 * e + doy) / 1461 = c) as -> by euclid.
  assert ((1461 * c + 365 * e + doy) mod 1461 = 365 * e + doy) as ->
    by euclid.
  assert ((365 * e + doy) / 365 = e) as -> by euclid.
  assert ((365 * e + doy) mod 365 = doy) as -> by euclid.
  destruct (Z.eqb_spec e 4); [lia|]. destruct (Z.eqb_spec b 4); [lia|].
  cbn [orb]. unfold month_day. cbv zeta.
  replace (a * 400 + 1 + b * 100 + c * 4 + e)
    with (400 * a + 100 * b + 4 * c + e + 1) by lia.
  reflexivity.
Qed.

Lemma _ord2ymd_last_day n a b c e :
  n - 1 = 146097 * a + 36524 * b + 1461 * c + 365 * e + 365 →
  0 ≤ b < 4 → 0 ≤ c < 25 → e = 3 → (c ≠ 24 ∨ b = 3) →
  _ord2ymd n
  = {| year := 400 * a + 100 * b + 4 * c + e + 1; month := 12; day := 31 |}.
Proof.
  intros Hn Hb Hc -> Hleap. unfold _ord2ymd, _DI400Y, _DI100Y, _DI4Y.
  cbv zeta.
  assert ((n - 1) / 146097 = a) as -> by euclid.
  assert ((n - 1) mod 146097 = 36524 * b + 1461 * c + 1460) as -> by euclid.
  destruct (decide (c = 24)) as [->|Hc24].
  - assert (b = 3) as -> by lia.
    change ((36524 * 3 + 1461 * 24 + 1460) / 36524) with 4.
    rewrite Z.eqb_refl, orb_true_r. f_equal.
    change ((36524 * 3 + 1461 * 24 + 1460) mod 36524) with 0.
    change (0 / 1461) with 0. change (0 mod 1461) with 0.
    change (0 / 365) with 0. lia.
  - assert ((36524 * b + 1461 * c + 1460) / 36524 = b) as -> by euclid.
    assert ((36524 * b + 1461 * c + 1460) mod 36524 = 1461 * c + 1460) as ->
      by euclid.
    assert ((1461 * c + 1460) / 1461 = c) as -> by euclid.
    assert ((1461 * c + 1460) mod 1461 = 1460) as -> by euclid.
    change (1460 / 365) with 4. rewrite Z.eqb_refl. cbn [orb].
    f_equal. lia.
Qed.

Ltac month_case :=
  unfold month_day; cbv zeta; rewrite Z.shiftr_div_pow2 by lia;
  change (2 ^ 5) with 32;
  match goal with
  | |- context [(?n + 50) / 32] =>
      let H := fresh in
      let k := fresh "k" in
      let Hk := fresh "Hk" in
      remember ((n + 50) / 32) as k eqn:H;
      assert (k = 1 ∨ k = 2 ∨ k = 3 ∨ k = 4 ∨ k = 5 ∨ k = 6 ∨ k = 7 ∨ k = 8
              ∨ k = 9 ∨ k = 10 ∨ k = 11 ∨ k = 12 ∨ False) as Hk
        by (subst k; euclid);
      repeat (destruct Hk as [->|Hk]); [..|destruct Hk];
      try (exfalso; euclid);
      repeat match goal with
      | |- context [?a - 1] =>
          match a with
          | Zpos _ => let v := eval compute in (a - 1) in change (a - 1) with v
          end
      end;
      cbn [_DAYS_BEFORE_MONTH _DAYS_IN_MONTH Z.ltb Z.eqb Z.compare
             Pos.compare Pos.compare_cont Pos.eqb andb];
      repeat match goal with
      | |- context [?x <? ?y] => destruct (Z.ltb_spec x y)
      end;
      try (exfalso; euclid); f_equal; lia
  end.

Lemma month_day_eq y leapyear m d :
  1 ≤ m ≤ 12 →
  1 ≤ d ≤ _DAYS_IN_MONTH m + (if (m =? 2) && leapyear then 1 else 0) →
  month_day y leapyear
    (_DAYS_BEFORE_MONTH m + (if (2 <? m) && leapyear then 1 else 0) + d - 1)
  = {| year := y; month := m; day := d |}.
Proof.
  intros Hm Hd.
  assert (m = 1 ∨ m = 2 ∨ m = 3 ∨ m = 4 ∨ m = 5 ∨ m = 6 ∨ m = 7 ∨ m = 8
          ∨ m = 9 ∨ m = 10 ∨ m = 11 ∨ m = 12 ∨ False) as Hcases by lia.
  destruct leapyear;
    repeat (destruct Hcases as [->|Hcases]); [..|destruct Hcases];
    cbn [_DAYS_BEFORE_MONTH _DAYS_IN_MONTH Z.ltb Z.eqb Z.compare
           Pos.compare Pos.compare_cont Pos.eqb andb] in *;
    month_case.
Qed.

Lemma day_of_year_bounds leapyear m d :
  1 ≤ m ≤ 12 →
  1 ≤ d ≤ _DAYS_IN_MONTH m + (if (m =? 2) && leapyear then 1 else 0) →
  let doy :=
    _DAYS_BEFORE_MONTH m + (if (2 <? m) && leapyear then 1 else 0) + d - 1 in
  0 ≤ doy ≤ 365 ∧ (doy = 365 → leapyear = true ∧ m = 12 ∧ d = 31).
Proof.
  intros Hm Hd.
  assert (m = 1 ∨ m = 2 ∨ m = 3 ∨ m = 4 ∨ m = 5 ∨ m = 6 ∨ m = 7 ∨ m = 8
          ∨ m = 9 ∨ m = 10 ∨ m = 11 ∨ m = 12 ∨ False) as Hcases by lia.
  destruct leapyear;
    repeat (destruct Hcases as [->|Hcases]); [..|destruct Hcases];
    cbn [_DAYS_BEFORE_MONTH _DAYS_IN_MONTH Z.ltb Z.eqb Z.compare
           Pos.compare Pos.compare_cont Pos.eqb andb] in *;
    cbv zeta; (split; [lia|]); intros; (split; [reflexivity || lia|lia]).
Qed.

(** The ordinal of a date of the calendar is the ordinal of that date
    alone. *)
Lemma _ord2ymd_ymd2ord d : valid_date d = true → _ord2ymd (_ymd2ord d) = d.
Proof.
  destruct d as [y m dd]. unfold valid_date, _days_in_month. cbn [year month day].
  intros H. repeat (apply andb_prop in H as [H ?]).
  assert (1 ≤ y ∧ 1 ≤ m ≤ 12 ∧ 1 ≤ dd) as (Hy & Hm & Hdd) by lia.
  assert (dd ≤ _DAYS_IN_MONTH m + (if (m =? 2) && _is_leap y then 1 else 0))
    as Hdd'.
  { destruct ((m =? 2) && _is_leap y) eqn:Hfeb; [|lia].
    apply andb_prop in Hfeb as [->%Z.eqb_eq _]. simpl. lia. }
  destruct (year_decomposition y Hy) as (a & b & c & e & Hdec & Ha & Hb & Hc & He).
  pose proof (_days_before_year_eq y a b c e Hdec Hb Hc He) as Hdby.
  pose proof (_is_leap_eq y a b c e Hdec Hb Hc He) as Hleap.
  destruct (day_of_year_bounds (_is_leap y) m dd Hm (conj Hdd Hdd'))
    as [Hdoy Hlast].
  cbv zeta in Hdoy, Hlast.
  unfold _ymd2ord, _days_before_month. cbn [year month day].
  set (doy := _DAYS_BEFORE_MONTH m
              + (if (2 <? m) && _is_leap y then 1 else 0) + dd - 1) in *.
  destruct (decide (doy = 365)) as [H365|H365].
  - destruct (Hlast H365) as (Hl & -> & ->).
    rewrite Hl in Hleap. symmetry in Hleap.
    apply andb_prop in Hleap as [He3%Z.eqb_eq Hcb].
    rewrite (_ord2ymd_last_day _ a b c e); [f_equal; lia|lia|lia|lia|lia|].
    apply orb_prop in Hcb as [Hc24|Hb3%Z.eqb_eq]; [|by right].
    left. intros ->. done.
  - rewrite (_ord2ymd_within _ a b c e doy); [|lia..].
    rewrite <- Hleap.
    replace (400 * a + 100 * b + 4 * c + e + 1) with y by lia.
    subst doy. by apply month_day_eq.
Qed.

Lemma same_day_quotient n s off :
  - off ≤ s → s + off < 86400 → (n * 86400 + s + off) / 86400 = n.
Proof. intros Hoff Hs. symmetry. apply (Z.div_unique _ _ _ (s + off)); lia. Qed.

(** X19: for a timestamp given in UTC with a date of the calendar, the
    Eastern date of the account row is the date in the timestamp when its
    time of day has reached the distance of New York from UTC, and the day
    before otherwise; nothing else. *)
Theorem date_eastern_same_day_or_previous tz (row : AccountData Decimal)
    a u :
  updatedAt row = Some u →
  utcoffset u = Some 0 →
  valid_date (dt_date u) = true →
  0 ≤ seconds_of_day u < 86400 →
  Account.__init__ tz row = Ok a →
  let eastern := America_New_York tz (wall_seconds u) in
  -86400 ≤ eastern ≤ 0 →
  Account_date_eastern a
  = date_isoformat
      (if seconds_of_day u <? - eastern
       then date_minus_days (dt_date u) 1
       else dt_date u).
Proof.
  intros Hu Hoff Hvalid Hs Ha eastern Hzone.
  rewrite (Account_init_date_eastern tz row a u Hu Ha).
  unfold astimezone, utc_seconds. rewrite Hoff. cbn [dt_date].
  rewrite Z.sub_0_r. fold eastern. f_equal.
  destruct (Z.ltb_spec (seconds_of_day u) (- eastern)) as [Hlt|Hge].
  - unfold date_minus_days. f_equal. unfold wall_seconds.
    apply previous_day_quotient; lia.
  - etrans; [|exact (_ord2ymd_ymd2ord (dt_date u) Hvalid)]. f_equal.
    unfold wall_seconds. apply same_day_quotient; lia.
Qed.

Lemma date_eastern_same_day_or_previous_witness :
  ∃ a,
    Account.__init__ system_zones
      {| AccountData_id := Some 31; displayName := Some "Checking";
         currentBalance :=
           Some {| d_sign := false; d_int := ["7"]%char; d_exp := 0 |};
         holdingsCount := Some 0;
         updatedAt := Some (utc 2026 1 12 14 28 13 637497) |} = Ok a ∧
    Account_date_eastern a = "2026-01-12".
Proof.
  eexists. split; [reflexivity|].
  rewrite (date_eastern_same_day_or_previous system_zones
             {| AccountData_id := Some 31; displayName := Some "Checking";
                currentBalance :=
                  Some {| d_sign := false; d_int := ["7"]%char;
                          d_exp := 0 |};
                holdingsCount := Some 0;
                updatedAt := Some (utc 2026 1 12 14 28 13 637497) |}
             _ (utc 2026 1 12 14 28 13 637497) eq_refl eq_refl).
  - vm_compute. reflexivity.
  - vm_compute. reflexivity.
  - vm_compute. split; [discriminate|reflexivity].
  - reflexivity.
  - vm_compute. split; discriminate.
Defined.

(** ** Reading back what the writers wrote *)

Lemma append_snoc s c t : (s +:+ String c "") +:+ t = s +:+ String c t.
Proof. by rewrite append_assoc. Qed.

Lemma read_quoted f rest pre record records :
  read (double_quotes f +:+ String quotechar rest) In_field pre record records
  = read rest Quote_seen (pre +:+ f) record records.
Proof.
  revert pre. induction f as [|c f IH]; intros pre.
  - cbn. by rewrite append_nil_r.
  - cbn [double_quotes]. destruct (Ascii.eqb c quotechar) eqn:Hc.
    + rewrite !append_cons. cbn [read]. rewrite !Hc. rewrite IH.
      by rewrite append_snoc.
    + rewrite append_cons. cbn [read]. rewrite Hc. rewrite IH.
      by rewrite append_snoc.
Qed.

Lemma read_field f rest st record records :
  st = Record_start ∨ st = Field_start →
  read (csv_field f +:+ rest) st "" record records
  = read rest Quote_seen f record records.
Proof.
  intros Hst. unfold csv_field. rewrite append_assoc, append_cons.
  change (String quotechar "" +:+ rest) with (String quotechar rest).
  destruct Hst as [-> | ->]; cbn [read];
    change (Ascii.eqb quotechar quotechar) with true; cbn match;
    by rewrite read_quoted, append_nil_l.
Qed.

Lemma read_record f fs rest st record records :
  st = Record_start ∨ st = Field_start →
  read (join "," (csv_field <$> f :: fs) +:+ lineterminator +:+ rest) st ""
    record records
  = read rest Record_start "" [] (records ++ [record ++ f :: fs]).
Proof.
  revert f st record. induction fs as [|f' fs IH]; intros f st record Hst.
  - cbn [fmap list_fmap join]. rewrite (read_field f _ st) by done.
    unfold lineterminator. rewrite !append_cons, append_nil_l. done.
  - change (join "," (csv_field <$> f :: f' :: fs))
      with (csv_field f +:+ "," +:+ join "," (csv_field <$> f' :: fs)).
    rewrite !append_assoc. rewrite (read_field f _ st) by done.
    rewrite append_cons, append_nil_l. cbn [read].
    change (Ascii.eqb "," quotechar) with false.
    change (Ascii.eqb "," ",") with true. cbn match.
    rewrite IH by auto.
    by rewrite <- app_assoc.
Qed.

Lemma read_csv_lines records :
  Forall (λ fields, fields ≠ []) records →
  read_records (csv_lines records) = Some records.
Proof.
  intros H. unfold read_records.
  assert (∀ acc, read (csv_lines records) Record_start "" [] acc
                 = Some (acc ++ records)) as Hgen; [|by rewrite Hgen].
  induction H as [|fields records Hfields _ IH]; intros acc.
  - cbn. by rewrite app_nil_r.
  - destruct fields as [|f fs]; [done|]. cbn [csv_lines].
    unfold csv_record. rewrite append_assoc.
    rewrite read_record by auto. rewrite IH. by rewrite <- app_assoc.
Qed.

(** X20: the file that a writer leaves determines the rows it was given.
    Read back field by field, the text gives the header and then the
    record of each row, whatever characters the cells hold, commas, quotes
    and line ends included. *)
Theorem written_files_read_back w :
  (∀ transactions,
     files (write_transactions transactions w).2 !! fn_tx_report (self w)
       ≫= read_records
     = Some (TRANSACTIONS_HEADER :: (transaction_record <$> transactions))) ∧
  (∀ accounts,
     files (write_balances accounts w).2 !! fn_balance_report (self w)
       ≫= read_records
     = Some (BALANCES_HEADER :: (account_record <$> accounts))) ∧
  (∀ holdings,
     files (write_portfolio holdings w).2 !! fn_portfolio_report (self w)
       ≫= read_records
     = Some (PORTFOLIO_HEADER :: (holding_record <$> holdings))).
Proof.
  split; [|split].
  - intros transactions. rewrite write_transactions_eq.
    cbn [snd with_file files]. rewrite lookup_insert_eq. cbn [mbind option_bind].
    apply read_csv_lines. constructor; [done|].
    apply Forall_fmap, Forall_forall. by intros t _.
  - intros accounts. rewrite write_balances_eq.
    cbn [snd with_file files]. rewrite lookup_insert_eq. cbn [mbind option_bind].
    apply read_csv_lines. constructor; [done|].
    apply Forall_fmap, Forall_forall. by intros a _.
  - intros holdings. rewrite write_portfolio_eq.
    cbn [snd with_file files]. rewrite lookup_insert_eq. cbn [mbind option_bind].
    apply read_csv_lines. constructor; [done|].
    apply Forall_fmap, Forall_forall. by intros h _.
Qed.

(** ** The order of the requests of [main] *)

Lemma run_wrapped_events env op w r w' :
  run_wrapped env op w = (r, w') →
  ∃ evs,
    trace w' = trace w ++ evs ∧
    calls_only (λ rq, rq = request_of env op) evs ∧
    (calls evs ≤ 2)%nat.
Proof.
  intros Hrun.
  destruct (run_wrapped_spec env op w r w' Hrun)
    as (evs & Htr & _ & _ & Hcalls & _).
  exists evs. split; [done|]. split; [exact Hcalls|].
  assert (calls (trace w') ≤ calls (trace w) + 2)%nat as Hle.
  { clear Htr Hcalls.
    destruct (call_outcome env (calls (trace w)) (mm (self w))
                (request_of env op)) as [payload|e] eqn:H1;
      [|destruct (retry e) eqn:Hretry].
    - rewrite run_wrapped_no_retry in Hrun by by rewrite H1.
      injection Hrun as _ <-. cbn [extend trace]. eval_counts. lia.
    - rewrite (retrying_after_401 env op w e H1 Hretry) in Hrun.
      destruct (login_outcome env (logins (trace w)) (length (heap w)) false)
        as [[]|e']; injection Hrun as _ <-; cbn [extend renewed trace];
        eval_counts; lia.
    - rewrite run_wrapped_no_retry in Hrun by by rewrite H1.
      injection Hrun as _ <-. cbn [extend trace]. eval_counts. lia. }
  rewrite Htr, calls_app in Hle. lia.
Qed.

Lemma calls_only_app p evs evs' :
  calls_only p evs → calls_only p evs' → calls_only p (evs ++ evs').
Proof.
  intros H H' ref rq [Hin|Hin]%elem_of_app; [by eapply H|by eapply H'].
Qed.

Lemma calls_only_nil p : calls_only p [].
Proof. by intros ref rq ?%elem_of_nil. Qed.

Lemma calls_only_impl (p q : rpc → Prop) evs :
  (∀ rq, p rq → q rq) → calls_only p evs → calls_only q evs.
Proof. intros Hpq H ref rq Hin. eapply Hpq, H, Hin. Qed.

Lemma report_balances_events env w r w' :
  report_balances env w = (r, w') →
  ∃ evs,
    trace w' = trace w ++ evs ∧
    calls_only (λ rq, rq = get_accounts_call) evs ∧ (calls evs ≤ 2)%nat.
Proof.
  unfold report_balances. intros Hrun.
  unfold mbind at 1 in Hrun. unfold M_bind at 1 in Hrun.
  destruct (get_accounts env w) as [r1 w1] eqn:H1.
  destruct (run_wrapped_events env Get_accounts w r1 w1 H1)
    as (evs & Htr & Hcalls & Hle).
  exists evs. split; [|done].
  destruct r1 as [payload|e]; [|by injection Hrun as _ <-].
  unfold mbind at 1 in Hrun. unfold M_bind at 1 in Hrun. unfold lift in Hrun.
  destruct (AccountsQuerySchema.load (tz env) payload) as [rows|e];
    [|by injection Hrun as _ <-].
  unfold mbind at 1 in Hrun. unfold M_bind at 1 in Hrun.
  rewrite write_balances_eq in Hrun.
  unfold mbind at 1 in Hrun. unfold M_bind at 1 in Hrun.
  rewrite write_balances_history_eq in Hrun.
  by injection Hrun as _ <-.
Qed.

Lemma report_transactions_events env w r w' :
  report_transactions env w = (r, w') →
  ∃ evs,
    trace w' = trace w ++ evs ∧
    calls_only (λ rq, rq = get_transaction_categories
                      ∨ rq = request_of env Get_transactions) evs.
Proof.
  unfold report_transactions. intros Hrun.
  unfold mbind at 1 in Hrun. unfold M_bind at 1 in Hrun.
  destruct (get_categories env w) as [r1 w1] eqn:H1.
  destruct (run_wrapped_events env Get_categories w r1 w1 H1)
    as (evs1 & Htr1 & Hcalls1 & _).
  apply (calls_only_impl _ (λ rq, rq = get_transaction_categories
                                  ∨ rq = request_of env Get_transactions))
    in Hcalls1; [|by left].
  destruct r1 as [cats|e]; [|injection Hrun as _ <-; by exists evs1].
  unfold mbind at 1 in Hrun. unfold M_bind at 1 in Hrun.
  unfold lift at 1 in Hrun.
  destruct (CategoryQuerySchema.load cats) as [catmap|e];
    [|injection Hrun as _ <-; by exists evs1].
  unfold mbind at 1 in Hrun. unfold M_bind at 1 in Hrun.
  destruct (get_transactions env w1) as [r2 w2] eqn:H2.
  destruct (run_wrapped_events env Get_transactions w1 r2 w2 H2)
    as (evs2 & Htr2 & Hcalls2 & _).
  apply (calls_only_impl _ (λ rq, rq = get_transaction_categories
                                  ∨ rq = request_of env Get_transactions))
    in Hcalls2; [|by right].
  exists (evs1 ++ evs2). split; [|by apply calls_only_app].
  rewrite app_assoc, <- Htr1, <- Htr2.
  destruct r2 as [txs|e]; [|by injection Hrun as _ <-].
  unfold mbind at 1 in Hrun. unfold M_bind at 1 in Hrun. unfold lift in Hrun.
  match type of Hrun with
  | match ?l with _ => _ end = _ =>
      destruct l as [rows|e]; [|by injection Hrun as _ <-]
  end.
  rewrite write_transactions_eq in Hrun. by injection Hrun as _ <-.
Qed.

Lemma report_portfolio_events env accounts w r w' :
  report_portfolio env accounts w = (r, w') →
  ∃ evs,
    trace w' = trace w ++ evs ∧
    calls_only (λ rq, ∃ a, a ∈ accounts ∧ 0 < Account_holdingsCount a
                           ∧ rq = get_account_holdings (Account_id a)) evs.
Proof.
  unfold report_portfolio. intros Hrun.
  unfold mbind at 1 in Hrun. unfold M_bind at 1 in Hrun.
  destruct (report_portfolio_loop env accounts [] w) as [r1 w1] eqn:H1.
  destruct (report_portfolio_loop_spec env _ _ _ _ _ H1)
    as (evs & Htr & _ & _ & Hcalls & _).
  exists evs. split; [|exact Hcalls].
  destruct r1 as [all|e]; [|by injection Hrun as _ <-].
  rewrite write_portfolio_eq in Hrun. by injection Hrun as _ <-.
Qed.

(** X21: the requests of [main] come in the order of its reports.  After
    the construction of the client and the login, the trace is made of
    three stretches: first the accounts are requested, once or, when
    retried, twice, and never again; then the categories and the
    transactions; then the holdings, of accounts of the balances report
    with a positive holdings count only. *)
Theorem main_requests_in_order env args files0 r tr fs :
  arguments_given args →
  main env args files0 = (r, tr, fs) →
  ∃ evs_balances evs_transactions evs_portfolio,
    drop 2 tr = evs_balances ++ evs_transactions ++ evs_portfolio ∧
    calls_only (λ rq, rq = get_accounts_call) evs_balances ∧
    (calls evs_balances ≤ 2)%nat ∧
    calls_only (λ rq, rq = get_transaction_categories
                      ∨ rq = request_of env Get_transactions)
      evs_transactions ∧
    calls_only (λ rq, ∃ account_id, rq = get_account_holdings account_id)
      evs_portfolio.
Proof.
  intros Hargs Hmain. rewrite (main_eq env args files0 Hargs) in Hmain.
  destruct (main_instance_eq args files0 Hargs) as (_ & Htr0 & _).
  destruct (run_reports env (main_instance args files0)) as [r' w'] eqn:Hrun.
  injection Hmain as -> <- <-.
  unfold run_reports in Hrun.
  unfold mbind at 1 in Hrun. unfold M_bind at 1 in Hrun.
  rewrite login_true_eq in Hrun.
  set (w1 := extend _ _) in Hrun.
  assert (drop 2 (trace w1) = []) as Hw1
    by (subst w1; cbn [extend trace]; by rewrite Htr0).
  assert (∀ w2 evs, trace w2 = trace w1 ++ evs → drop 2 (trace w2) = evs)
    as Hdrop.
  { intros w2 evs ->. subst w1. cbn [extend trace]. by rewrite Htr0. }
  destruct (login_outcome env _ _ true) as [[]|e].
  2: { injection Hrun as _ <-. exists [], [], []. rewrite Hw1.
       split; [done|]. split; [apply calls_only_nil|]. split; [unfold calls; simpl; lia|].
       split; apply calls_only_nil. }
  unfold mbind at 1 in Hrun. unfold M_bind at 1 in Hrun.
  destruct (report_balances env w1) as [r2 w2] eqn:H2.
  destruct (report_balances_events env w1 r2 w2 H2)
    as (evs2 & Htr2 & Hcalls2 & Hle2).
  destruct r2 as [accounts|e2].
  2: { injection Hrun as _ <-. exists evs2, [], [].
       rewrite (Hdrop w2 evs2 Htr2), !app_nil_r.
       split; [done|]. split; [done|]. split; [done|].
       split; apply calls_only_nil. }
  unfold mbind at 1 in Hrun. unfold M_bind at 1 in Hrun.
  destruct (report_transactions env w2) as [r3 w3] eqn:H3.
  destruct (report_transactions_events env w2 r3 w3 H3)
    as (evs3 & Htr3 & Hcalls3).
  destruct r3 as [[]|e3].
  2: { injection Hrun as _ <-. exists evs2, evs3, [].
       rewrite (Hdrop w3 (evs2 ++ evs3)), !app_nil_r
         by by rewrite Htr3, Htr2, app_assoc.
       split; [done|]. split; [done|]. split; [done|]. split; [done|].
       apply calls_only_nil. }
  destruct (report_portfolio_events env accounts w3 r w' Hrun)
    as (evs4 & Htr4 & Hcalls4).
  exists evs2, evs3, evs4.
  rewrite (Hdrop w' (evs2 ++ evs3 ++ evs4))
    by by rewrite Htr4, Htr3, Htr2, !app_assoc.
  split; [done|]. split; [done|]. split; [done|]. split; [done|].
  eapply calls_only_impl; [|exact Hcalls4].
  intros rq (a & _ & _ & ->). eauto.
Qed.

Lemma main_requests_in_order_witness :
  let run :=
    main (scripted [Ok example_accounts_response]) example_arguments ∅ in
  ∃ evs_balances evs_rest,
    drop 2 run.1.2 = evs_balances ++ evs_rest ∧ (calls evs_balances ≤ 2)%nat.
Proof.
  intros run.
  destruct (main_requests_in_order
              (scripted [Ok example_accounts_response]) example_arguments ∅
              run.1.1 run.1.2 run.2)
    as (evs2 & evs3 & evs4 & Hdrop & _ & Hle & _).
  - repeat split; discriminate.
  - vm_compute. reflexivity.
  - exists evs2, (evs3 ++ evs4). split; [exact Hdrop|exact Hle].
Defined.

(** ** The text of a decimal denotes the decimal *)

Lemma int_of_digits_snoc ds c :
  int_of_digits (ds ++ [c]) = 10 * int_of_digits ds + digit_value c.
Proof. unfold int_of_digits. by rewrite fold_left_app. Qed.

Lemma pretty_N_char_digit x :
  (x < 10)%N →
  is_digit (pretty_N_char x) = true
  ∧ digit_value (pretty_N_char x) = Z.of_N x.
Proof.
  intros Hx.
  assert (x = 0 ∨ x = 1 ∨ x = 2 ∨ x = 3 ∨ x = 4 ∨ x = 5 ∨ x = 6 ∨ x = 7
          ∨ x = 8 ∨ x = 9)%N as Hcases by lia.
  repeat (destruct Hcases as [->|Hcases]); try subst x; by split.
Qed.

Lemma list_ascii_of_string_app s t :
  String.list_ascii_of_string (s +:+ t)
  = String.list_ascii_of_string s ++ String.list_ascii_of_string t.
Proof. induction s as [|c s IH]; [done|]. simpl. by rewrite IH. Qed.

(** The digits that [str] makes of a natural number. *)
Lemma pretty_N_go_digits x s :
  ∃ ds,
    String.list_ascii_of_string (pretty_N_go x s)
    = ds ++ String.list_ascii_of_string s ∧
    forallb is_digit ds = true ∧
    int_of_digits ds = Z.of_N x ∧
    ((0 < x)%N → ds ≠ []).
Proof.
  revert s. induction (N.lt_wf_0 x) as [x _ IH]; intros s.
  assert (x = 0 ∨ 0 < x)%N as [->|Hx] by lia.
  - exists []. rewrite pretty_N_go_0.
    split; [done|]. split; [done|]. split; [done|]. lia.
  - rewrite pretty_N_go_step by done.
    destruct (IH (x `div` 10)%N (N.div_lt x 10 Hx eq_refl)
                (String (pretty_N_char (x `mod` 10)) s))
      as (ds & Hds & Hdigits & Hvalue & _).
    destruct (pretty_N_char_digit (x `mod` 10)%N) as [Hc Hv];
      [by apply N.mod_lt|].
    exists (ds ++ [pretty_N_char (x `mod` 10)%N]). split; [|split; [|split]].
    + rewrite Hds. cbn [String.list_ascii_of_string].
      by rewrite <- app_assoc.
    + rewrite forallb_app, Hdigits. simpl. by rewrite Hc.
    + rewrite int_of_digits_snoc, Hvalue, Hv.
      rewrite (N.div_mod x 10) at 3 by done. lia.
    + intros _. by destruct ds.
Qed.

Lemma str_int_digits_of_nonneg e :
  0 ≤ e →
  ∃ d ds,
    String.list_ascii_of_string (str_int e) = d :: ds ∧
    forallb is_digit (d :: ds) = true ∧
    int_of_digits (d :: ds) = e.
Proof.
  intros He. unfold str_int, pretty, pretty_Z.
  destruct e as [|p|p]; [by exists "0"%char, []| |lia].
  unfold pretty, pretty_positive, pretty, pretty_N.
  rewrite decide_False by done.
  destruct (pretty_N_go_digits (N.pos p) "") as (ds & Hds & Hdigits & Hv & Hne).
  rewrite app_nil_r in Hds.
  destruct ds as [|d ds]; [by destruct Hne|].
  exists d, ds. by rewrite Hds.
Qed.

Lemma str_int_negative e :
  e < 0 →
  String.list_ascii_of_string (str_int e)
  = "-"%char :: String.list_ascii_of_string (str_int (- e)).
Proof. intros He. by destruct e as [|p|p]; try lia. Qed.

Lemma parse_exponent_chars e : parse_exponent (exponent_chars e) = Some e.
Proof.
  unfold exponent_chars, parse_exponent.
  change (Ascii.eqb "E" "E" || Ascii.eqb "E" "e") with true. cbv iota.
  destruct (Z.leb_spec 0 e) as [He|He].
  - destruct (str_int_digits_of_nonneg e He) as (d & ds & -> & Hdigits & Hv).
    cbn [app]. change (Ascii.eqb "+" "-") with false.
    change (Ascii.eqb "+" "+") with true. cbv iota.
    rewrite span_digits_all by done. by rewrite Hv.
  - rewrite (str_int_negative e He). cbn [app].
    change (Ascii.eqb "-" "-") with true. cbv iota.
    destruct (str_int_digits_of_nonneg (- e)) as (d & ds & -> & Hdigits & Hv);
      [lia|].
    rewrite span_digits_all by done. rewrite Hv. f_equal. lia.
Qed.

Lemma exponent_chars_plain e :
  Forall (λ c, is_space c = false ∧ c ≠ "_"%char) (exponent_chars e).
Proof.
  assert (∀ ds, forallb is_digit ds = true →
            Forall (λ c, is_space c = false ∧ c ≠ "_"%char) ds) as Hdigits.
  { intros ds Hds. apply Forall_forall. intros c Hin%list_elem_of_In.
    rewrite forallb_forall in Hds. specialize (Hds c Hin).
    split; [by apply is_digit_not_space|by apply is_digit_not_underscore]. }
  unfold exponent_chars. constructor; [split; [reflexivity|discriminate]|].
  destruct (Z.leb_spec 0 e) as [He|He].
  - destruct (str_int_digits_of_nonneg e He) as (d & ds & -> & Hds & _).
    constructor; [split; [reflexivity|discriminate]|]. by apply Hdigits.
  - rewrite (str_int_negative e He). cbn [app].
    destruct (str_int_digits_of_nonneg (- e)) as (d & ds & -> & Hds & _);
      [lia|].
    constructor; [split; [reflexivity|discriminate]|]. by apply Hdigits.
Qed.

(** Parsing a canonical numeral with an exponent part. *)
Lemma Decimal_of_chars_exponent neg intpart fracpart e :
  canonical intpart fracpart = true →
  Decimal_of_chars (plain_decimal neg intpart fracpart ++ exponent_chars e)
  = Some {| d_sign := neg;
            d_int := str_int_digits (intpart ++ fracpart);
            d_exp := e - Z.of_nat (length fracpart) |}.
Proof.
  unfold canonical. intros H.
  apply andb_prop in H as [H Hhead]. apply andb_prop in H as [Hi Hf].
  unfold Decimal_of_chars.
  pose proof (plain_decimal_chars neg intpart fracpart Hi Hf) as Hchars.
  pose proof (exponent_chars_plain e) as Hexp.
  rewrite strip_id
    by (apply Forall_app; split;
        (eapply Forall_impl; [eassumption|]; by intros c [])).
  rewrite filter_id
    by (apply Forall_app; split;
        (eapply Forall_impl; [eassumption|]; by intros c [])).
  destruct intpart as [|i0 intpart]; [done|]. clear Hhead Hchars Hexp.
  assert (is_digit i0 = true) as Hi0
    by (simpl in Hi; by apply andb_prop in Hi as [? _]).
  set (tail := match fracpart with
               | [] => []
               | _ => "."%char :: fracpart
               end ++ exponent_chars e).
  assert (plain_decimal neg (i0 :: intpart) fracpart ++ exponent_chars e
          = (if neg then ["-"%char] else []) ++ (i0 :: intpart) ++ tail)
    as ->.
  { unfold plain_decimal. subst tail. by rewrite <- !app_assoc. }
  assert ((let '(neg', s1) :=
             match (if neg then ["-"%char] else []) ++ (i0 :: intpart) ++ tail
             with
             | c :: t =>
                 if Ascii.eqb c "-" then (true, t)
                 else if Ascii.eqb c "+" then (false, t)
                 else (false,
                       (if neg then ["-"%char] else [])
                       ++ (i0 :: intpart) ++ tail)
             | [] => (false,
                      (if neg then ["-"%char] else [])
                      ++ (i0 :: intpart) ++ tail)
             end in (neg', s1))
          = (neg, (i0 :: intpart) ++ tail)) as Hsign.
  { destruct neg; simpl; [done|].
    destruct (Ascii.eqb i0 "-") eqn:E1;
      [apply Ascii.eqb_eq in E1 as ->; discriminate Hi0|].
    destruct (Ascii.eqb i0 "+") eqn:E2;
      [apply Ascii.eqb_eq in E2 as ->; discriminate Hi0|]. done. }
  destruct (match (if neg then ["-"%char] else []) ++ (i0 :: intpart) ++ tail
            with
            | c :: t =>
                if Ascii.eqb c "-" then (true, t)
                else if Ascii.eqb c "+" then (false, t)
                else (false,
                      (if neg then ["-"%char] else [])
                      ++ (i0 :: intpart) ++ tail)
            | [] => (false,
                     (if neg then ["-"%char] else [])
                     ++ (i0 :: intpart) ++ tail)
            end) as [neg' s1].
  injection Hsign as -> ->.
  change (i0 :: intpart ++ tail) with ((i0 :: intpart) ++ tail).
  rewrite span_digits_app; [|done|by subst tail; destruct fracpart].
  destruct fracpart as [|f0 fracpart]; subst tail.
  - cbn [app].
    assert (match exponent_chars e with
            | [] => ([], exponent_chars e)
            | c :: t =>
                if Ascii.eqb c "." then span_digits t
                else ([], exponent_chars e)
            end = ([], exponent_chars e)) as -> by reflexivity.
    rewrite parse_exponent_chars. by rewrite app_nil_r.
  - cbn [app]. change (Ascii.eqb "." ".") with true. cbv iota.
    change (f0 :: fracpart ++ exponent_chars e)
      with ((f0 :: fracpart) ++ exponent_chars e).
    rewrite span_digits_app; [|done|done].
    cbn [app]. by rewrite parse_exponent_chars.
Qed.

Lemma drop_zeros_replicate n l :
  drop_zeros (replicate n "0"%char ++ l) = drop_zeros l.
Proof. induction n as [|n IH]; [done|]. simpl. exact IH. Qed.

Lemma str_int_digits_id ds :
  canonical ds [] = true → str_int_digits ds = ds.
Proof.
  unfold canonical, str_int_digits. intros H.
  apply andb_prop in H as [_ H].
  destruct ds as [|c [|c' ds]]; [done| |].
  - simpl. destruct (Ascii.eqb c "0") eqn:Hc; [|done].
    by apply Ascii.eqb_eq in Hc as ->.
  - simpl. by destruct (Ascii.eqb c "0").
Qed.

Lemma forallb_drop_zeros ds :
  forallb is_digit ds = true → forallb is_digit (drop_zeros ds) = true.
Proof.
  induction ds as [|c ds IH]; [done|]. simpl.
  intros [Hc Hds]%andb_prop.
  destruct (Ascii.eqb c "0"); [auto|]. simpl. by rewrite Hc, Hds.
Qed.

Lemma drop_zeros_head ds c ds' :
  drop_zeros ds = c :: ds' → Ascii.eqb c "0" = false.
Proof.
  induction ds as [|c0 ds IH]; [done|]. simpl.
  destruct (Ascii.eqb c0 "0") eqn:Hc; [done|]. by intros [= <- _].
Qed.

Lemma str_int_digits_canonical ds :
  forallb is_digit ds = true → canonical (str_int_digits ds) [] = true.
Proof.
  intros H. unfold str_int_digits.
  pose proof (forallb_drop_zeros ds H) as Hd.
  destruct (drop_zeros ds) as [|c ds'] eqn:Hdrop; [done|].
  unfold canonical. rewrite Hd. cbn [forallb andb].
  destruct ds' as [|c' ds']; [done|].
  by rewrite (drop_zeros_head ds c (c' :: ds') Hdrop).
Qed.

Lemma span_digits_digits s :
  forallb is_digit (span_digits s).1 = true.
Proof.
  induction s as [|c s IH]; [done|]. simpl.
  destruct (is_digit c) eqn:Hc; [|done].
  destruct (span_digits s) as [ds rest]. simpl in *. by rewrite Hc.
Qed.

(** The coefficient of a parsed decimal is in canonical form. *)
Lemma Decimal_of_chars_canonical s d :
  Decimal_of_chars s = Some d → canonical (d_int d) [] = true.
Proof.
  unfold Decimal_of_chars.
  set (s' := filter _ _).
  destruct (match s' with
            | c :: t =>
                if Ascii.eqb c "-" then (true, t)
                else if Ascii.eqb c "+" then (false, t)
                else (false, s')
            | [] => (false, s')
            end) as [neg s1].
  pose proof (span_digits_digits s1) as H1.
  destruct (span_digits s1) as [intpart s2]. simpl in H1.
  assert (forallb is_digit
            (match s2 with
             | c :: t => if Ascii.eqb c "." then span_digits t else ([], s2)
             | [] => ([], s2)
             end).1 = true) as H2.
  { destruct s2 as [|c t]; [done|].
    destruct (Ascii.eqb c "."); [apply span_digits_digits|done]. }
  destruct (match s2 with
            | c :: t => if Ascii.eqb c "." then span_digits t else ([], s2)
            | [] => ([], s2)
            end) as [fracpart s3]. simpl in H2.
  destruct (intpart ++ fracpart) as [|c0 digits] eqn:Hdigits; [done|].
  destruct (parse_exponent s3) as [e|]; [|done].
  intros [= <-]. cbn [d_int]. apply str_int_digits_canonical.
  rewrite <- Hdigits, forallb_app. by rewrite H1, H2.
Qed.

(** [Decimal.__str__] when an exponent is needed. *)
Lemma Decimal_chars_exponent d c ds :
  d_int d = c :: ds →
  0 < d_exp d ∨ leftdigits d ≤ -6 →
  Decimal_chars d
  = plain_decimal (d_sign d) [c] ds ++ exponent_chars (leftdigits d - 1).
Proof.
  intros Hint Hsci. unfold Decimal_chars.
  assert ((d_exp d <=? 0) && (-6 <? leftdigits d) = false) as ->.
  { apply andb_false_iff. destruct Hsci; [left; lia|right; lia]. }
  assert (leftdigits d ≠ 1) as Hleft.
  { unfold leftdigits in *. rewrite Hint in *. cbn [length] in *. lia. }
  rewrite (proj2 (Z.leb_gt _ _)) by lia.
  rewrite (proj2 (Z.eqb_neq _ _) Hleft).
  unfold plain_decimal, exponent_chars. rewrite Hint. cbn [length].
  destruct ds as [|c' ds].
  - rewrite (proj2 (Z.leb_le _ _)) by (cbn; lia). simpl.
    by rewrite <- !app_assoc.
  - rewrite (proj2 (Z.leb_gt _ _)) by (cbn [length]; lia).
    change (Z.to_nat 1) with 1%nat. cbn [take drop].
    by rewrite <- !app_assoc.
Qed.

Lemma canonical_digits ds :
  canonical ds [] = true →
  ∃ c ds', ds = c :: ds' ∧ forallb is_digit ds = true
           ∧ (ds' ≠ [] → Ascii.eqb c "0" = false).
Proof.
  unfold canonical. intros H. apply andb_prop in H as [H Hhead].
  apply andb_prop in H as [H _].
  destruct ds as [|c [|c' ds']]; [done|..].
  - exists c, []. by repeat split.
  - exists c, (c' :: ds'). repeat split; [done|]. intros _.
    by apply negb_true_iff.
Qed.

(** The text of a decimal with a canonical coefficient parses to that
    decimal. *)
Lemma Decimal_of_chars_Decimal_chars d :
  canonical (d_int d) [] = true →
  Decimal_of_chars (Decimal_chars d) = Some d.
Proof.
  intros Hcanon.
  destruct (canonical_digits _ Hcanon) as (c & ds & Hint & Hdigits & Hhead).
  pose proof (str_int_digits_id _ Hcanon) as Hid.
  assert (is_digit c = true ∧ forallb is_digit ds = true) as [Hc Hds].
  { rewrite Hint in Hdigits. simpl in Hdigits.
    by apply andb_prop in Hdigits. }
  destruct d as [neg coefficient e]. cbn [d_int] in *. subst coefficient.
  destruct (decide (e ≤ 0 ∧ -6 < leftdigits {| d_sign := neg;
                                              d_int := c :: ds;
                                              d_exp := e |})) as [[He Hl]|Hsci].
  - rewrite Decimal_chars_no_exponent by done.
    unfold leftdigits in *. cbn [d_sign d_int d_exp] in *.
    destruct (Z.leb_spec (e + Z.of_nat (length (c :: ds))) 0) as [H0|H0].
    + (* 0.000ddd *)
      set (zeros := replicate (Z.to_nat (- (e + Z.of_nat (length (c :: ds)))))
                      "0"%char).
      assert (forallb is_digit zeros = true) as Hzeros.
      { subst zeros. induction (Z.to_nat _) as [|n IH]; [done|]. exact IH. }
      change ((if neg then ["-"%char] else [])
              ++ "0"%char :: "."%char :: zeros ++ c :: ds)
        with ((if neg then ["-"%char] else [])
              ++ ["0"%char]
              ++ "."%char :: (zeros ++ c :: ds)).
      assert ("."%char :: (zeros ++ c :: ds)
              = match zeros ++ c :: ds with
                | [] => []
                | _ => "."%char :: (zeros ++ c :: ds)
                end) as -> by by destruct zeros.
      change (Decimal_of_chars
                (plain_decimal neg ["0"%char] (zeros ++ c :: ds))
              = Some {| d_sign := neg; d_int := c :: ds; d_exp := e |}).
      rewrite Decimal_of_chars_plain.
      * f_equal. f_equal.
        -- cbn [app]. unfold str_int_digits.
           change (drop_zeros ("0"%char :: zeros ++ c :: ds))
             with (drop_zeros (zeros ++ c :: ds)).
           subst zeros. rewrite drop_zeros_replicate. exact Hid.
        -- rewrite length_app. subst zeros. rewrite length_replicate. lia.
      * unfold canonical. rewrite forallb_app, Hzeros. simpl.
        by rewrite Hc, Hds.
    + destruct (Z.leb_spec (Z.of_nat (length (c :: ds)))
                  (e + Z.of_nat (length (c :: ds)))) as [H1|H1].
      * (* ddd *)
        assert (e = 0) as -> by lia.
        change ((if neg then ["-"%char] else []) ++ c :: ds)
          with ((if neg then ["-"%char] else []) ++ (c :: ds)).
        rewrite <- (app_nil_r (c :: ds)) at 1.
        change (Decimal_of_chars (plain_decimal neg (c :: ds) [])
                = Some {| d_sign := neg; d_int := c :: ds; d_exp := 0 |}).
        rewrite Decimal_of_chars_plain by done.
        rewrite app_nil_r, Hid. done.
      * (* dd.ddd *)
        set (k := Z.to_nat (e + Z.of_nat (length (c :: ds)))).
        assert (0 < k < length (c :: ds))%nat as Hk by (subst k; lia).
        assert (drop k (c :: ds) ≠ []) as Hdrop.
        { intros Hnil%(f_equal length). rewrite length_drop in Hnil.
          change (length []) with 0%nat in Hnil. lia. }
        assert ("."%char :: drop k (c :: ds)
                = match drop k (c :: ds) with
                  | [] => []
                  | _ => "."%char :: drop k (c :: ds)
                  end) as -> by by destruct (drop k (c :: ds)).
        change (Decimal_of_chars
                  (plain_decimal neg (take k (c :: ds)) (drop k (c :: ds)))
                = Some {| d_sign := neg; d_int := c :: ds; d_exp := e |}).
        rewrite Decimal_of_chars_plain.
        -- rewrite take_drop, Hid. f_equal. f_equal.
           rewrite length_drop. subst k. lia.
        -- unfold canonical.
           assert (forallb is_digit (take k (c :: ds)) = true
                   ∧ forallb is_digit (drop k (c :: ds)) = true) as [-> ->].
           { rewrite <- (take_drop k (c :: ds)) in Hdigits.
             rewrite forallb_app in Hdigits.
             by apply andb_prop in Hdigits. }
           cbn [andb]. destruct k as [|k]; [lia|]. cbn [take].
           destruct (take k ds); [done|].
           rewrite Hhead; [done|]. intros ->. simpl in Hk. lia.
  - rewrite (Decimal_chars_exponent
               {| d_sign := neg; d_int := c :: ds; d_exp := e |} c ds eq_refl).
    2: { unfold leftdigits in *. cbn [d_exp d_int] in *. lia. }
    rewrite Decimal_of_chars_exponent.
    + cbn [app d_sign]. rewrite Hid. f_equal. f_equal.
      unfold leftdigits. cbn [d_exp d_int length]. lia.
    + unfold canonical. simpl. by rewrite Hc, Hds.
Qed.

(** X22: the text written for a decimal denotes the decimal that was
    loaded.  Whatever numeral the response holds, and whether the text
    comes out in plain or in exponent notation, parsing the written text
    gives back the number that parsing the response gave: sign, digits and
    exponent. *)
Theorem written_decimal_keeps_value s d :
  Decimal_of_str s = Some d → Decimal_of_str (Decimal_str d) = Some d.
Proof.
  unfold Decimal_of_str, Decimal_str. intros H.
  rewrite String.list_ascii_of_string_of_list_ascii.
  apply Decimal_of_chars_Decimal_chars.
  by eapply Decimal_of_chars_canonical.
Qed.

Lemma written_decimal_keeps_value_witness :
  Decimal_str {| d_sign := false; d_int := ["1"%char]; d_exp := -7 |}
  = "1E-7" ∧
  Decimal_of_str "1E-7"
  = Some {| d_sign := false; d_int := ["1"%char]; d_exp := -7 |}.
Proof.
  split; [vm_compute; reflexivity|].
  change "1E-7"
    with (Decimal_str {| d_sign := false; d_int := ["1"%char];
                         d_exp := -7 |}).
  apply (written_decimal_keeps_value "0.0000001").
  vm_compute. reflexivity.
Defined.

(** ** The files of a run of [main] that ends normally *)





